(** * ytmusic-distube-plugin: the cookie manager and the resolution plugin

    A shallow embedding of [src/cookieManager.js] (class [CookieManager])
    and of the plugin class [YouTubeMusicPlugin], followed by the
    properties of the specification that were checked against them.

    Conventions of the embedding.
    - A JavaScript number is a value of [number]: NaN, the two infinities,
      or a finite rational kept in lowest terms.  Every arithmetic
      operation and every conversion from text rounds its exact result to
      binary64 (to nearest, ties to even, with overflow to the infinities
      and gradual underflow), as IEEE 754 defines the operation; the sign of
      zero is not represented.
    - A string is the sequence of the UTF-8 bytes of the JavaScript
      string.  The code searches and splits with ASCII patterns only, for
      which bytes and code units agree.
    - A method that reads or writes [this] takes the object and returns the
      updated object; the file system and the observable calls are threaded
      through a [World].
    - A call that may raise returns a [Completion].
    - Console output is not part of the model. *)

From Stdlib Require Import ZArith QArith Qround Ascii String List Bool Lia.
From stdpp Require Import base option list strings gmap.

Open Scope Z_scope.
Open Scope string_scope.
Open Scope list_scope.

(* ================================================================== *)
(** * JavaScript numbers *)
(* ================================================================== *)

Module Num.

Inductive number : Type :=
| NaN
| PosInf
| NegInf
| Fin (q : Q).

(** Rounding to binary64.  [halfEven n d] is the integer nearest to
    [n / d], the even one of two that are equally near. *)
Definition halfEven (n d : Z) : Z :=
  let q := (n / d)%Z in
  match (2 * (n mod d) ?= d)%Z with
  | Lt => q
  | Gt => (q + 1)%Z
  | Eq => if Z.even q then q else (q + 1)%Z
  end.

(** The integer part of the binary logarithm of [a / d]. *)
Definition log2Ratio (a d : Z) : Z :=
  let k := (Z.log2 a - Z.log2 d)%Z in
  if (if 0 <=? k then d * 2 ^ k <=? a else d <=? a * 2 ^ (- k))%Z then k else (k - 1)%Z.

(** [a / (d * 2 ^ e)] rounded to an integer. *)
Definition scaled (a d e : Z) : Z :=
  if (0 <=? e)%Z then halfEven a (d * 2 ^ e)%Z else halfEven (a * 2 ^ (- e))%Z d.

(** The binary64 value nearest to the positive rational [a / d]: an
    integer of at most 53 bits times a power of two whose exponent lies
    between -1074 and 971, or infinity. *)
Definition roundPos (a d : Z) : number :=
  let e := Z.max (log2Ratio a d - 52) (-1074) in
  let m := scaled a d e in
  if ((971 <? e) || ((e =? 971) && (m =? 2 ^ 53)))%Z then PosInf
  else if (0 <=? e)%Z then Fin (inject_Z (m * 2 ^ e))
  else Fin (Qred (Qmake m (Z.to_pos (2 ^ (- e))))).

Definition opp (a : number) : number :=
  match a with
  | NaN => NaN
  | PosInf => NegInf
  | NegInf => PosInf
  | Fin q => Fin (Qopp q)
  end.

Definition round (q : Q) : number :=
  match Qnum q with
  | Z0 => Fin 0
  | Zpos p => roundPos (Zpos p) (Zpos (Qden q))
  | Zneg p => opp (roundPos (Zpos p) (Zpos (Qden q)))
  end.

(** The number that an operation with the exact result [q] returns.
    Finite values are stored in lowest terms, so that equal numbers are
    equal terms. *)
Definition fin (q : Q) : number := round (Qred q).

(** The number of an integer that binary64 holds exactly: a constant of
    the code, a reading of the clock, an integer of at most 53 bits. *)
Definition ofZ (z : Z) : number := Fin (inject_Z z).

Definition Qltb (a b : Q) : bool := negb (Qle_bool b a).

Definition Qsign (q : Q) : Z := Z.sgn (Qnum q).

(** [a < b] of the language: false as soon as one side is NaN. *)
Definition lt (a b : number) : bool :=
  match a, b with
  | NaN, _ | _, NaN => false
  | PosInf, _ => false
  | _, NegInf => false
  | NegInf, _ => true
  | Fin _, PosInf => true
  | Fin x, Fin y => Qltb x y
  end.

(** [a <= b] of the language. *)
Definition le (a b : number) : bool :=
  match a, b with
  | NaN, _ | _, NaN => false
  | NegInf, _ => true
  | _, PosInf => true
  | PosInf, _ => false
  | Fin _, NegInf => false
  | Fin x, Fin y => Qle_bool x y
  end.

(** Truthiness of a number: everything but NaN and zero. *)
Definition truthy (a : number) : bool :=
  match a with
  | NaN => false
  | Fin q => negb (Qeq_bool q 0)
  | _ => true
  end.

Definition inf_of_sign (s : Z) : number :=
  match s with
  | Z0 => NaN
  | Zpos _ => PosInf
  | Zneg _ => NegInf
  end.

Definition sign (a : number) : Z :=
  match a with
  | NaN => 0
  | PosInf => 1
  | NegInf => -1
  | Fin q => Qsign q
  end.

Definition add (a b : number) : number :=
  match a, b with
  | NaN, _ | _, NaN => NaN
  | PosInf, NegInf | NegInf, PosInf => NaN
  | PosInf, _ | _, PosInf => PosInf
  | NegInf, _ | _, NegInf => NegInf
  | Fin x, Fin y => fin (x + y)
  end.

Definition mul (a b : number) : number :=
  match a, b with
  | NaN, _ | _, NaN => NaN
  | Fin x, Fin y => fin (x * y)
  | _, _ => inf_of_sign (sign a * sign b)
  end.

Definition div (a b : number) : number :=
  match a, b with
  | NaN, _ | _, NaN => NaN
  | Fin x, Fin y =>
      if Qeq_bool y 0 then inf_of_sign (Qsign x) else fin (x / y)
  | Fin _, _ => Fin 0
  | _, Fin y => inf_of_sign (sign a * (if Qeq_bool y 0 then 1 else Qsign y))
  | _, _ => NaN
  end.

(** [Math.floor]. *)
Definition floor (a : number) : number :=
  match a with
  | Fin q => ofZ (Qfloor q)
  | _ => a
  end.

End Num.

Export Num(number).

Declare Scope js_scope.
Delimit Scope js_scope with js.
Infix "+" := Num.add : js_scope.
Infix "*" := Num.mul : js_scope.
Infix "/" := Num.div : js_scope.
Infix "<?" := Num.lt : js_scope.
Infix "<=?" := Num.le : js_scope.

(* ================================================================== *)
(** * Values, errors, completions *)
(* ================================================================== *)

(** An [Error] object: its class name and its [message]. *)
Record JsError : Type := mkError {
  errName : string;
  errMessage : string
}.

(** Result of evaluating a call: it returns a value or raises. *)
Inductive Completion (A : Type) : Type :=
| Normal (a : A)
| Throw (e : JsError).

Arguments Normal {A} a.
Arguments Throw {A} e.

(** A cookie of the credential file (EditThisCookie layout).  An optional
    property that is missing is [None]. *)
Record Cookie : Type := mkCookie {
  name : string;
  value : string;
  domain : option string;
  path : option string;
  secure : option bool;
  httpOnly : option bool;
  expirationDate : option number;
  sameSite : option string;
  hostOnly : option bool;
  session : option bool
}.

(** The values that reach the cookie manager as a cookie collection or as
    a source: [JsArray] is an array whose elements are cookie objects,
    [JsOther] stands for any value that is neither null, undefined, a
    string nor an array (a number, a boolean, a plain object). *)
Inductive JsValue : Type :=
| JsNull
| JsUndefined
| JsString (s : string)
| JsOther
| JsArray (cs : list Cookie).

Definition isArray (v : JsValue) : bool :=
  match v with JsArray _ => true | _ => false end.

(* ================================================================== *)
(** * CookieManager: the object and [validateCookies] *)
(* ================================================================== *)

(** A callback handed to the manager: it returns or raises.  A callback
    is taken not to call back into the manager nor to touch its file. *)
Definition Callback (A : Type) : Type := A -> Completion unit.

Record CookieManager : Type := mkManager {
  cookiesPath : string;
  refreshInterval : number;
  refreshBeforeExpiry : number;
  autoRefresh : bool;
  headless : bool;
  refreshTimer : bool;
  onCookiesUpdated : option (Callback (list Cookie));
  onRefreshError : option (Callback JsError);
  puppeteer : bool
}.

(** A [Date] object: its time value, a whole number of milliseconds, or
    the invalid date. *)
Inductive Date : Type :=
| InvalidDate
| ValidDate (ms : Z).

(** [new Date(value)] for a number: the time value is the number without
    its fraction when the number is finite and at most 8.64e15 in
    magnitude, and the date is invalid otherwise. *)
Definition newDate (value : number) : Date :=
  match value with
  | Num.Fin q =>
      if Qle_bool (inject_Z (-8640000000000000)) q &&
         Qle_bool q (inject_Z 8640000000000000)
      then ValidDate (Z.quot (Qnum q) (Zpos (Qden q)))
      else InvalidDate
  | _ => InvalidDate
  end.

(** The [nearestExpiry] property of a validation result: missing from the
    object, [null], or a [Date]. *)
Inductive Nearest : Type :=
| NearestMissing
| NearestNull
| NearestDate (d : Date).

Record Validation : Type := mkValidation {
  valid : bool;
  expired : bool;
  expiringSoon : bool;
  nearestExpiry : Nearest;
  message : string
}.

(** Loop state of [validateCookies]: [hasExpired], [expiringSoon],
    [nearestExpiry]. *)
Record Scan : Type := mkScan {
  scanExpired : bool;
  scanSoon : bool;
  scanNearest : number
}.

Definition scanCookie (now threshold : number) (st : Scan) (cookie : Cookie) : Scan :=
  match expirationDate cookie with
  | Some e =>
      if Num.truthy e then
        let st1 :=
          if (e <? now)%js then mkScan true (scanSoon st) (scanNearest st)
          else if (e <? threshold)%js then mkScan (scanExpired st) true (scanNearest st)
          else st in
        if (e <? scanNearest st1)%js
        then mkScan (scanExpired st1) (scanSoon st1) e
        else st1
      else st
  | None => st
  end.

(** [Math.floor(Date.now() / 1000)], with [nowMs] the reading of
    [Date.now()]. *)
Definition nowSeconds (nowMs : Z) : number :=
  Num.floor (Num.ofZ nowMs / Num.ofZ 1000)%js.

(** [now + (this.refreshBeforeExpiry / 1000)] *)
Definition expirySoonThreshold (this : CookieManager) (nowMs : Z) : number :=
  (nowSeconds nowMs + refreshBeforeExpiry this / Num.ofZ 1000)%js.

(** The error that [Date.prototype.toISOString] raises on an invalid
    date. *)
Definition invalidTimeValue : JsError := mkError "RangeError" "Invalid time value".

Section Validate.

(** The text that [Date.prototype.toISOString] gives for a time value. *)
Variable toISOString : Z -> string.

(** [date.toISOString()]: a RangeError on the invalid date. *)
Definition dateToISOString (d : Date) : Completion string :=
  match d with
  | ValidDate ms => Normal (toISOString ms)
  | InvalidDate => Throw invalidTimeValue
  end.

(** [validateCookies(cookies)], with [nowMs] the reading of [Date.now()].
    The message is the last property of the result to be evaluated, and
    the one that may raise. *)
Definition validateCookies (this : CookieManager) (nowMs : Z) (cookies : JsValue)
    : Completion Validation :=
  match cookies with
  | JsArray (c :: cs) =>
      let now := nowSeconds nowMs in
      let st := fold_left (scanCookie now (expirySoonThreshold this nowMs)) (c :: cs)
                          (mkScan false false Num.PosInf) in
      let hasExpired := scanExpired st in
      let expiryDate :=
        match scanNearest st with
        | Num.PosInf => NearestNull
        | n => NearestDate (newDate (n * Num.ofZ 1000)%js)
        end in
      let text :=
        if hasExpired then Normal "Some cookies have expired"
        else if scanSoon st then
          match expiryDate with
          | NearestDate d =>
              match dateToISOString d with
              | Normal iso =>
                  Normal ("Cookies expiring soon (before " ++ iso ++ ")")%string
              | Throw e => Throw e
              end
          | _ => Normal "Cookies expiring soon (before undefined)"
          end
        else Normal "All cookies are valid" in
      match text with
      | Normal msg =>
          Normal {| valid := negb hasExpired;
                    expired := hasExpired;
                    expiringSoon := scanSoon st;
                    nearestExpiry := expiryDate;
                    message := msg |}
      | Throw e => Throw e
      end
  | _ =>
      Normal {| valid := false;
                expired := false;
                expiringSoon := false;
                nearestExpiry := NearestMissing;
                message := "No cookies provided" |}
  end.

End Validate.

(* ================================================================== *)
(** * CookieManager: construction *)
(* ================================================================== *)

(** The options object handed to the constructor; a missing property is
    [None]. *)
Record ManagerOptions : Type := mkManagerOptions {
  optCookiesPath : option string;
  optRefreshInterval : option number;
  optRefreshBeforeExpiry : option number;
  optAutoRefresh : option bool;
  optHeadless : option bool;
  optOnCookiesUpdated : option (Callback (list Cookie));
  optOnRefreshError : option (Callback JsError)
}.

(** [s || d] for an optional string: the empty string is falsy. *)
Definition orString (s : option string) (d : string) : string :=
  match s with
  | Some x => if String.eqb x "" then d else x
  | None => d
  end.

(** [n || d] for an optional number. *)
Definition orNumber (n : option number) (d : number) : number :=
  match n with
  | Some x => if Num.truthy x then x else d
  | None => d
  end.

(** [b || false] for an optional boolean. *)
Definition orFalse (b : option bool) : bool :=
  match b with Some x => x | None => false end.

(** [b !== false] for an optional boolean. *)
Definition notFalse (b : option bool) : bool :=
  match b with Some false => false | _ => true end.

(** [new CookieManager(options)]; [defaultPath] is
    [path.join(__dirname, '..', 'cookies.json')]. *)
Definition newCookieManager (defaultPath : string) (options : ManagerOptions) : CookieManager :=
  {| cookiesPath := orString (optCookiesPath options) defaultPath;
     refreshInterval := orNumber (optRefreshInterval options) (Num.ofZ (24 * 60 * 60 * 1000));
     refreshBeforeExpiry := orNumber (optRefreshBeforeExpiry options) (Num.ofZ 3600000);
     autoRefresh := notFalse (optAutoRefresh options);
     headless := notFalse (optHeadless options);
     refreshTimer := false;
     onCookiesUpdated := optOnCookiesUpdated options;
     onRefreshError := optOnRefreshError options;
     puppeteer := false |}.

Definition setCookiesPath (p : string) (m : CookieManager) : CookieManager :=
  {| cookiesPath := p;
     refreshInterval := refreshInterval m;
     refreshBeforeExpiry := refreshBeforeExpiry m;
     autoRefresh := autoRefresh m;
     headless := headless m;
     refreshTimer := refreshTimer m;
     onCookiesUpdated := onCookiesUpdated m;
     onRefreshError := onRefreshError m;
     puppeteer := puppeteer m |}.

Definition setPuppeteer (b : bool) (m : CookieManager) : CookieManager :=
  {| cookiesPath := cookiesPath m;
     refreshInterval := refreshInterval m;
     refreshBeforeExpiry := refreshBeforeExpiry m;
     autoRefresh := autoRefresh m;
     headless := headless m;
     refreshTimer := refreshTimer m;
     onCookiesUpdated := onCookiesUpdated m;
     onRefreshError := onRefreshError m;
     puppeteer := b |}.

Definition setRefreshTimer (b : bool) (m : CookieManager) : CookieManager :=
  {| cookiesPath := cookiesPath m;
     refreshInterval := refreshInterval m;
     refreshBeforeExpiry := refreshBeforeExpiry m;
     autoRefresh := autoRefresh m;
     headless := headless m;
     refreshTimer := b;
     onCookiesUpdated := onCookiesUpdated m;
     onRefreshError := onRefreshError m;
     puppeteer := puppeteer m |}.

(* ================================================================== *)
(** * The world around the manager *)
(* ================================================================== *)

(** What a path of the file system holds: text that [JSON.parse] reads as
    a value, text on which [JSON.parse] raises, or something that
    [fs.readFile] cannot read. *)
Inductive FileData : Type :=
| FileJson (v : JsValue)
| FileMalformed (e : JsError)
| FileUnreadable (e : JsError).

(** A cookie as the automated browser has it. *)
Record PCookie : Type := mkPCookie {
  pName : string;
  pValue : string;
  pDomain : string;
  pPath : string;
  pExpires : number;
  pHttpOnly : bool;
  pSecure : bool;
  pSameSite : option string
}.

(** Calls that leave the manager, in the order they are made.
    [EvRefreshCookies] marks an entry into [refreshCookies]. *)
Inductive Event : Type :=
| EvRefreshCookies
| EvWriteFile (file : string) (cookies : list Cookie) (ok : bool)
| EvOnRefreshError (e : JsError)
| EvOnCookiesUpdated (cookies : list Cookie)
| EvLaunch (isHeadless : bool)
| EvSetCookie (cookies : list PCookie)
| EvGoto (url : string)
| EvClose.

(** One run of the automated browser, as [refreshCookies] observes it:
    for each step, whether it raises.  [loginPolls] lists the answers of
    the login probe for the polls that fit into the five minutes of
    waiting. *)
Record Session : Type := mkSession {
  sLaunch : option JsError;
  sNewPage : option JsError;
  sSetUserAgent : option JsError;
  sSetCookie : option JsError;
  sGoto : option JsError;
  sIsLoggedIn : Completion bool;
  sLoginPolls : list (Completion bool);
  sCookies : Completion (list PCookie);
  sClose : option JsError
}.

Record World : Type := mkWorld {
  files : gmap string FileData;
  (** [fs.writeFile] on a path that cannot be written raises this error *)
  writeError : string -> option JsError;
  (** [require('puppeteer')]: the error it raises when the module is missing *)
  requirePuppeteer : option JsError;
  (** what the next browser run will do *)
  browserRun : Session;
  trace : list Event
}.

Definition emit (ev : Event) (w : World) : World :=
  {| files := files w;
     writeError := writeError w;
     requirePuppeteer := requirePuppeteer w;
     browserRun := browserRun w;
     trace := trace w ++ [ev] |}.

Definition setFile (p : string) (d : FileData) (w : World) : World :=
  {| files := <[p := d]> (files w);
     writeError := writeError w;
     requirePuppeteer := requirePuppeteer w;
     browserRun := browserRun w;
     trace := trace w |}.

(* ================================================================== *)
(** * A state and exception monad for the methods *)
(* ================================================================== *)

Record State : Type := mkState {
  this : CookieManager;
  world : World
}.

Definition M (A : Type) : Type := State -> Completion A * State.

Definition ret {A} (a : A) : M A := fun s => (Normal a, s).

Definition raise {A} (e : JsError) : M A := fun s => (Throw e, s).

Definition bind {A B} (m : M A) (k : A -> M B) : M B :=
  fun s =>
    match m s with
    | (Normal a, s1) => k a s1
    | (Throw e, s1) => (Throw e, s1)
    end.

(** [try { body } catch (error) { handler }] *)
Definition tryCatch {A} (body : M A) (handler : JsError -> M A) : M A :=
  fun s =>
    match body s with
    | (Normal a, s1) => (Normal a, s1)
    | (Throw e, s1) => handler e s1
    end.

(** [try { body } finally { final }]: an exception of [final] replaces the
    outcome of [body]. *)
Definition tryFinally {A} (body : M A) (final : M unit) : M A :=
  fun s =>
    match body s with
    | (r, s1) =>
        match final s1 with
        | (Normal _, s2) => (r, s2)
        | (Throw e, s2) => (Throw e, s2)
        end
    end.

Definition getThis : M CookieManager := fun s => (Normal (this s), s).

Definition getWorld : M World := fun s => (Normal (world s), s).

Definition modifyThis (f : CookieManager -> CookieManager) : M unit :=
  fun s => (Normal tt, mkState (f (this s)) (world s)).

Definition modifyWorld (f : World -> World) : M unit :=
  fun s => (Normal tt, mkState (this s) (f (world s))).

Definition log (ev : Event) : M unit := modifyWorld (emit ev).

(** A step of the outside world that raises [e] when given [Some e]. *)
Definition step (r : option JsError) : M unit :=
  match r with
  | Some e => raise e
  | None => ret tt
  end.

Definition lift {A} (c : Completion A) : M A :=
  match c with
  | Normal a => ret a
  | Throw e => raise e
  end.

Declare Scope m_scope.
Delimit Scope m_scope with M.
Notation "x <- c1 ;; c2" := (bind c1 (fun x => c2))
  (at level 100, c1 at next level, right associativity) : m_scope.
Notation "c1 ;;; c2" := (bind c1 (fun _ => c2))
  (at level 100, right associativity) : m_scope.

Local Open Scope m_scope.

(* ================================================================== *)
(** * CookieManager: [loadCookies] and [saveCookies] *)
(* ================================================================== *)

Definition typeError (msg : string) : JsError := mkError "TypeError" msg.

(** What [JSON.stringify] keeps of a cookie: a number that is not finite
    is written as [null], which reads back as a falsy property. *)
Definition jsonCookie (c : Cookie) : Cookie :=
  {| name := name c;
     value := value c;
     domain := domain c;
     path := path c;
     secure := secure c;
     httpOnly := httpOnly c;
     expirationDate :=
       match expirationDate c with
       | Some (Num.Fin q) => Some (Num.Fin q)
       | _ => None
       end;
     sameSite := sameSite c;
     hostOnly := hostOnly c;
     session := session c |}.

(** [fs.writeFile(file, JSON.stringify(cookies, null, 2), 'utf8')] *)
Definition writeFile (file : string) (cookies : list Cookie) : M unit :=
  w <- getWorld ;;
  match writeError w file with
  | Some e => log (EvWriteFile file cookies false) ;;; raise e
  | None =>
      log (EvWriteFile file cookies true) ;;;
      modifyWorld (setFile file (FileJson (JsArray (map jsonCookie cookies))))
  end.

(** [JSON.parse(await fs.readFile(file, 'utf8'))] on an existing file *)
Definition readJson (d : FileData) : M JsValue :=
  match d with
  | FileJson v => ret v
  | FileMalformed e => raise e
  | FileUnreadable e => raise e
  end.

(** [cookies.length], read for the log line: raises on null and undefined *)
Definition readLength (v : JsValue) : M unit :=
  match v with
  | JsNull => raise (typeError "Cannot read properties of null (reading 'length')")
  | JsUndefined => raise (typeError "Cannot read properties of undefined (reading 'length')")
  | _ => ret tt
  end.

Definition loadCookies (source : JsValue) : M JsValue :=
  tryCatch
    (match source with
     | JsArray _ => ret source
     | _ =>
         match source with
         | JsString p => modifyThis (setCookiesPath p)
         | _ => ret tt
         end ;;;
         m <- getThis ;;
         w <- getWorld ;;
         match files w !! cookiesPath m with
         | Some d =>
             cookies <- readJson d ;;
             readLength cookies ;;;
             ret cookies
         | None => ret (JsArray [])
         end
     end)
    (fun _ => ret (JsArray [])).

Definition saveCookies (cookies : list Cookie) : M bool :=
  tryCatch
    (m <- getThis ;;
     writeFile (cookiesPath m) cookies ;;;
     ret true)
    (fun _ => ret false).

(* ================================================================== *)
(** * CookieManager: [refreshCookies] *)
(* ================================================================== *)

(** [convertSameSite]: the lookup in the object literal, for the keys the
    literal defines (keys inherited from [Object.prototype] are left out). *)
Definition convertSameSite (sameSite : option string) : string :=
  match sameSite with
  | Some "no_restriction" => "None"
  | Some "lax" => "Lax"
  | Some "strict" => "Strict"
  | Some "unspecified" => "Lax"
  | _ => "Lax"
  end.

Definition convertSameSiteToString (sameSite : option string) : string :=
  match sameSite with
  | Some "None" => "no_restriction"
  | Some "Lax" => "lax"
  | Some "Strict" => "strict"
  | _ => "unspecified"
  end.

(** The object built for [page.setCookie] from a stored cookie. *)
Definition toPuppeteerCookie (cookie : Cookie) : PCookie :=
  {| pName := name cookie;
     pValue := value cookie;
     pDomain := orString (domain cookie) ".youtube.com";
     pPath := orString (path cookie) "/";
     pExpires := orNumber (expirationDate cookie) (Num.ofZ (-1));
     pHttpOnly := orFalse (httpOnly cookie);
     pSecure := orFalse (secure cookie);
     pSameSite := Some (convertSameSite (sameSite cookie)) |}.

Definition startsWithDot (s : string) : bool :=
  match s with
  | String "." _ => true
  | _ => false
  end.

Definition numEqb (a b : number) : bool :=
  match a, b with
  | Num.Fin x, Num.Fin y => Qeq_bool x y
  | Num.PosInf, Num.PosInf => true
  | Num.NegInf, Num.NegInf => true
  | _, _ => false
  end.

(** The stored form of a cookie read back from the browser. *)
Definition formatCookie (cookie : PCookie) : Cookie :=
  {| domain := Some (pDomain cookie);
     expirationDate :=
       if Num.truthy (pExpires cookie) && (Num.ofZ 0 <? pExpires cookie)%js
       then Some (pExpires cookie) else None;
     hostOnly := Some (negb (startsWithDot (pDomain cookie)));
     httpOnly := Some (pHttpOnly cookie);
     name := pName cookie;
     path := Some (pPath cookie);
     sameSite := Some (convertSameSiteToString (pSameSite cookie));
     secure := Some (pSecure cookie);
     session := Some (negb (Num.truthy (pExpires cookie))
                      || numEqb (pExpires cookie) (Num.ofZ (-1)));
     value := pValue cookie |}.

(** [if (this.onRefreshError) this.onRefreshError(error)] *)
Definition notifyRefreshError (error : JsError) : M unit :=
  m <- getThis ;;
  match onRefreshError m with
  | Some callback => log (EvOnRefreshError error) ;;; lift (callback error)
  | None => ret tt
  end.

(** [if (this.onCookiesUpdated) this.onCookiesUpdated(cookies)] *)
Definition notifyCookiesUpdated (cookies : list Cookie) : M unit :=
  m <- getThis ;;
  match onCookiesUpdated m with
  | Some callback => log (EvOnCookiesUpdated cookies) ;;; lift (callback cookies)
  | None => ret tt
  end.

(** [new Error('Puppeteer not installed')] *)
Definition notInstalled : JsError := mkError "Error" "Puppeteer not installed".

(** The lazy [require('puppeteer')]: [true] when the refresh goes on,
    [false] when the method returns [null] at once. *)
Definition loadPuppeteer : M bool :=
  m <- getThis ;;
  if puppeteer m then ret true
  else
    tryCatch
      (w <- getWorld ;;
       step (requirePuppeteer w) ;;;
       modifyThis (setPuppeteer true) ;;;
       ret true)
      (fun _ =>
         notifyRefreshError notInstalled ;;;
         ret false).

(** The block that seeds the browser with the stored cookies; whatever it
    raises is swallowed. *)
Definition injectExisting (run : Session) : M unit :=
  tryCatch
    (m <- getThis ;;
     existingCookies <- loadCookies (JsString (cookiesPath m)) ;;
     match existingCookies with
     | JsArray (c :: cs) =>
         log (EvSetCookie (map toPuppeteerCookie (c :: cs))) ;;;
         step (sSetCookie run)
     | JsString (String _ _) =>
         raise (typeError "existingCookies.map is not a function")
     | _ => ret tt
     end)
    (fun _ => ret tt).

(** The loop that waits for a manual login: one probe per poll, until a
    probe answers true or the waiting time is over. *)
Fixpoint waitForLogin (polls : list (Completion bool)) : M unit :=
  match polls with
  | [] => ret tt
  | p :: rest =>
      loggedIn <- lift p ;;
      if (loggedIn : bool) then ret tt else waitForLogin rest
  end.

Definition refreshSession (run : Session) : M (option (list Cookie)) :=
  m <- getThis ;;
  log (EvLaunch (headless m)) ;;;
  step (sLaunch run) ;;;
  tryFinally
    (step (sNewPage run) ;;;
     step (sSetUserAgent run) ;;;
     injectExisting run ;;;
     log (EvGoto "https://music.youtube.com") ;;;
     step (sGoto run) ;;;
     isLoggedIn <- lift (sIsLoggedIn run) ;;
     (if negb isLoggedIn && negb (headless m)
      then waitForLogin (sLoginPolls run)
      else ret tt) ;;;
     freshCookies <- lift (sCookies run) ;;
     let formattedCookies := map formatCookie freshCookies in
     saveCookies formattedCookies ;;;
     notifyCookiesUpdated formattedCookies ;;;
     ret (Some formattedCookies))
    (log EvClose ;;; step (sClose run)).

(** [refreshCookies()]: [None] is the [null] result. *)
Definition refreshCookies : M (option (list Cookie)) :=
  log EvRefreshCookies ;;;
  tryCatch
    (proceed <- loadPuppeteer ;;
     if (proceed : bool) then
       w <- getWorld ;;
       refreshSession (browserRun w)
     else ret None)
    (fun error =>
       notifyRefreshError error ;;;
       ret None).

(* ================================================================== *)
(** * CookieManager: the periodic refresh *)
(* ================================================================== *)

Section AutoRefresh.

Variable toISOString : Z -> string.

(** The function handed to [setInterval]; [nowMs] is the reading of the
    clock when the cookies are validated. *)
Definition autoRefreshTick (nowMs : Z) : M unit :=
  tryCatch
    (m <- getThis ;;
     cookies <- loadCookies (JsString (cookiesPath m)) ;;
     m1 <- getThis ;;
     validation <- lift (validateCookies toISOString m1 nowMs cookies) ;;
     if negb (valid validation) || expiringSoon validation
     then refreshCookies ;;; ret tt
     else ret tt)
    (fun _ => ret tt).

End AutoRefresh.

(** [startAutoRefresh()]: the timer is installed unless auto-refresh is
    disabled or a timer is already running. *)
Definition startAutoRefresh : M unit :=
  m <- getThis ;;
  if negb (autoRefresh m) then ret tt
  else if refreshTimer m then ret tt
  else modifyThis (setRefreshTimer true).

Definition stopAutoRefresh : M unit :=
  m <- getThis ;;
  if refreshTimer m then modifyThis (setRefreshTimer false) else ret tt.

Definition destroy : M unit := stopAutoRefresh.

Local Close Scope m_scope.

(* ================================================================== *)
(** * Strings: [includes], [split], [Number] *)
(* ================================================================== *)

(** [s.includes(needle)] *)
Fixpoint includes (needle s : string) : bool :=
  String.prefix needle s ||
  match s with
  | EmptyString => false
  | String _ s' => includes needle s'
  end.

(** [s.split(":")]: the pieces between the colons, at least one piece. *)
Fixpoint splitColon (s : string) : list string :=
  match s with
  | EmptyString => [EmptyString]
  | String c s' =>
      if Ascii.eqb c ":" then EmptyString :: splitColon s'
      else
        match splitColon s' with
        | piece :: pieces => String c piece :: pieces
        | [] => [String c EmptyString]
        end
  end.

Module ToNumber.

(** White space of the language (WhiteSpace and LineTerminator), by the
    UTF-8 bytes of the character.  One byte: TAB, LF, VT, FF, CR and the
    space. *)
Definition isSpace (c : ascii) : bool :=
  let n := N_of_ascii c in
  ((9 <=? n)%N && (n <=? 13)%N) || (n =? 32)%N.

(** Two bytes: the no-break space U+00A0. *)
Definition isSpace2 (c d : ascii) : bool :=
  (N_of_ascii c =? 194)%N && (N_of_ascii d =? 160)%N.

(** Three bytes: U+1680, U+2000 to U+200A, the line and paragraph
    separators U+2028 and U+2029, U+202F, U+205F, U+3000 and the byte
    order mark U+FEFF. *)
Definition isSpace3 (c d e : ascii) : bool :=
  let x := N_of_ascii c in
  let y := N_of_ascii d in
  let z := N_of_ascii e in
  ((x =? 225) && (y =? 154) && (z =? 128))%N ||
  ((x =? 226) && (y =? 128) &&
   (((128 <=? z) && (z <=? 138)) || (z =? 168) || (z =? 169) || (z =? 175)))%N ||
  ((x =? 226) && (y =? 129) && (z =? 159))%N ||
  ((x =? 227) && (y =? 128) && (z =? 128))%N ||
  ((x =? 239) && (y =? 187) && (z =? 191))%N.

Fixpoint trimStart (s : string) : string :=
  match s with
  | String c s1 =>
      if isSpace c then trimStart s1
      else
        match s1 with
        | String d s2 =>
            if isSpace2 c d then trimStart s2
            else
              match s2 with
              | String e s3 => if isSpace3 c d e then trimStart s3 else s
              | EmptyString => s
              end
        | EmptyString => s
        end
  | EmptyString => EmptyString
  end.

(** A string of white space only. *)
Definition allSpace (s : string) : bool :=
  match trimStart s with
  | EmptyString => true
  | _ => false
  end.

(** The string without the white space at its end: it stops where only
    white space is left. *)
Fixpoint trimEnd (s : string) : string :=
  match s with
  | EmptyString => EmptyString
  | String c s' => if allSpace s then EmptyString else String c (trimEnd s')
  end.

(** Value of a digit in the given radix, [None] for any other character. *)
Definition digitOf (radix : N) (c : ascii) : option Z :=
  let n := N_of_ascii c in
  let v :=
    if (48 <=? n)%N && (n <=? 57)%N then Some (n - 48)%N
    else if (97 <=? n)%N && (n <=? 102)%N then Some (n - 87)%N
    else if (65 <=? n)%N && (n <=? 70)%N then Some (n - 55)%N
    else None in
  match v with
  | Some d => if (d <? radix)%N then Some (Z.of_N d) else None
  | None => None
  end.

(** Reads the longest run of digits at the head of [s]: the value it adds
    to [acc], the number of digits read, and what is left of [s]. *)
Fixpoint readDigits (radix : N) (s : string) (acc : Z) (count : nat) : Z * nat * string :=
  match s with
  | String c s' =>
      match digitOf radix c with
      | Some d => readDigits radix s' (acc * Z.of_N radix + d) (S count)
      | None => (acc, count, s)
      end
  | EmptyString => (acc, count, s)
  end.

(** A literal with a radix prefix: digits of that radix and nothing else. *)
Definition radixLiteral (radix : N) (s : string) : number :=
  match readDigits radix s 0 0 with
  | (v, S _, EmptyString) => Num.fin (inject_Z v)
  | _ => Num.NaN
  end.

(** The exponent part, after the [e]: an optional sign, digits, the end. *)
Definition exponentPart (s : string) : option Z :=
  let '(neg, body) :=
    match s with
    | String "-" r => (true, r)
    | String "+" r => (false, r)
    | _ => (false, s)
    end in
  match readDigits 10 body 0 0 with
  | (v, S _, EmptyString) => Some (if (neg : bool) then - v else v)
  | _ => None
  end.

(** An unsigned decimal literal: [Infinity], or digits with an optional
    fraction and an optional exponent. *)
Definition unsignedDecimal (s : string) : number :=
  if String.eqb s "Infinity" then Num.PosInf
  else
    let '(int, nInt, r1) := readDigits 10 s 0 0 in
    let '(mant, nFrac, r2) :=
      match r1 with
      | String "." r => readDigits 10 r int 0
      | _ => (int, 0%nat, r1)
      end in
    if (Nat.eqb (nInt + nFrac) 0) then Num.NaN
    else
      let exponent :=
        match r2 with
        | EmptyString => Some 0
        | String "e" r | String "E" r => exponentPart r
        | _ => None
        end in
      match exponent with
      | Some e => Num.fin (inject_Z mant * Qpower (inject_Z 10) (e - Z.of_nat nFrac))
      | None => Num.NaN
      end.

Definition neg (a : number) : number :=
  match a with
  | Num.PosInf => Num.NegInf
  | Num.NegInf => Num.PosInf
  | Num.Fin q => Num.fin (- q)
  | Num.NaN => Num.NaN
  end.

(** The prefix [0x], [0o] or [0b] (in either case) of a literal: its
    radix and what follows it. *)
Definition radixPrefix (t : string) : option (N * string) :=
  match t with
  | String c0 (String c1 r) =>
      if Ascii.eqb c0 "0" then
        if Ascii.eqb c1 "x" || Ascii.eqb c1 "X" then Some (16%N, r)
        else if Ascii.eqb c1 "o" || Ascii.eqb c1 "O" then Some (8%N, r)
        else if Ascii.eqb c1 "b" || Ascii.eqb c1 "B" then Some (2%N, r)
        else None
      else None
  | _ => None
  end.

(** [Number(s)] for a string [s]. *)
Definition Number (s : string) : number :=
  match trimEnd (trimStart s) with
  | EmptyString => Num.ofZ 0
  | String c0 r0 as t =>
      match radixPrefix t with
      | Some (radix, digits) => radixLiteral radix digits
      | None =>
          if Ascii.eqb c0 "-" then neg (unsignedDecimal r0)
          else if Ascii.eqb c0 "+" then unsignedDecimal r0
          else unsignedDecimal t
      end
  end.

(** A decimal digit, a non-empty string of decimal digits, and the
    integer such a string denotes. *)
Definition isDigit (c : ascii) : bool :=
  let n := N_of_ascii c in (48 <=? n)%N && (n <=? 57)%N.

Fixpoint allDigits (s : string) : bool :=
  match s with
  | EmptyString => true
  | String c s' => isDigit c && allDigits s'
  end.

Definition decimalDigits (s : string) : bool :=
  match s with
  | EmptyString => false
  | _ => allDigits s
  end.

Fixpoint decimalFrom (acc : Z) (s : string) : Z :=
  match s with
  | EmptyString => acc
  | String c s' => decimalFrom (acc * 10 + (Z.of_N (N_of_ascii c) - 48)) s'
  end.

Definition decimalValue (s : string) : Z := decimalFrom 0 s.

End ToNumber.

Export ToNumber(Number, decimalDigits, decimalValue).

(* ================================================================== *)
(** * The plugin: [convertDurationToSeconds] *)
(* ================================================================== *)

(** [convertDurationToSeconds(duration)] for a string [duration]. *)
Definition convertDurationToSeconds (duration : string) : number :=
  if String.eqb duration "" then Num.ofZ 0
  else
    let parts := map Number (splitColon duration) in
    match parts with
    | [p0; p1] => (p0 * Num.ofZ 60 + p1)%js
    | [p0; p1; p2] => (p0 * Num.ofZ 3600 + p1 * Num.ofZ 60 + p2)%js
    | _ => Num.ofZ 0
    end.

(** The two shapes that the specification names: "MM:SS" and "HH:MM:SS",
    each part a non-empty string of decimal digits. *)
Definition isMMSS (d : string) : bool :=
  match splitColon d with
  | [m; s] => decimalDigits m && decimalDigits s
  | _ => false
  end.

Definition isHHMMSS (d : string) : bool :=
  match splitColon d with
  | [h; m; s] => decimalDigits h && decimalDigits m && decimalDigits s
  | _ => false
  end.

(* ================================================================== *)
(** * The plugin: data of the host framework and of the upstream clients *)
(* ================================================================== *)

Module Plugin.

(** An object of the host framework that the plugin only passes on
    (a guild member, the caller's metadata). *)
Record HostObject : Type := mkHostObject { hostTag : nat }.

Record ResolveOptions : Type := mkResolveOptions {
  member : option HostObject;
  metadata : option HostObject
}.

Record Thumbnail : Type := mkThumbnail { url : option string }.

Record Artist : Type := mkArtist { artistName : option string }.

(** A track of the search client.  [duration] is the colon-delimited
    string that [convertDurationToSeconds] expects. *)
Record Track : Type := mkTrack {
  videoId : option string;
  title : option string;
  thumbnails : option (list Thumbnail);
  duration : option string;
  artists : option (list Artist)
}.

Record Uploader : Type := mkUploader {
  uploaderName : option string;
  uploaderUrl : option string
}.

(** The object literal handed to [new Song]; [plugin: this] is left out. *)
Record SongInfo : Type := mkSongInfo {
  songSource : string;
  songId : string;
  songName : string;
  songUrl : string;
  songThumbnail : option string;
  songDuration : number;
  songIsLive : option bool;
  songViews : option number;
  songUploader : Uploader;
  playFromSource : bool;
  songMember : option HostObject;
  songMetadata : option HostObject
}.

Record Song : Type := mkSong {
  info : SongInfo;
  songOptions : option ResolveOptions
}.

Record PlaylistInfo : Type := mkPlaylistInfo {
  plSource : string;
  plId : string;
  plName : string;
  plUrl : string;
  plThumbnail : option string;
  songs : list Song;
  plMember : option HostObject
}.

Record Playlist : Type := mkPlaylist {
  playlistInfo : PlaylistInfo;
  playlistOptions : ResolveOptions
}.

(** What [getPlaylist] and [getAlbum] answer; [tracks] is [None] when the
    property is missing, and an array otherwise. *)
Record CollectionData : Type := mkCollectionData {
  colTitle : option string;
  colThumbnails : option (list Thumbnail);
  tracks : option (list (option Track))
}.

(** What [getArtist] answers; [artistSongs] is [None] when the property is
    missing or is not an array. *)
Record ArtistData : Type := mkArtistData {
  artName : option string;
  artThumbnails : option (list Thumbnail);
  artistSongs : option (list (option Track))
}.

Record Author : Type := mkAuthor {
  authorName : option string;
  channel_url : option string
}.

Record VideoDetails : Type := mkVideoDetails {
  vdTitle : option string;
  vdThumbnails : option (list Thumbnail);
  lengthSeconds : option string;
  isLiveContent : option bool;
  viewCount : option string;
  author : option Author
}.

Record Format : Type := mkFormat {
  formatUrl : option string;
  hasAudio : bool;
  hasVideo : bool
}.

Record VideoInfo : Type := mkVideoInfo {
  formats : list Format;
  videoDetails : option VideoDetails
}.

(** The criteria object of [chooseFormat], after the host's [ytdlOptions]
    were spread over the two defaults. *)
Record Criteria : Type := mkCriteria {
  critFilter : string;
  critQuality : string
}.

Record YtdlOptions : Type := mkYtdlOptions {
  ytdlFilter : option string;
  ytdlQuality : option string
}.

(** The search client, the stream client and the host's constructors, as
    the plugin sees them at their boundary. *)
Record Upstream : Type := mkUpstream {
  getPlaylist : string -> Completion (option CollectionData);
  getAlbum : string -> Completion (option CollectionData);
  getArtist : string -> Completion (option ArtistData);
  getInfo : string -> Completion (option VideoInfo);
  validateURL : string -> bool;
  getVideoID : string -> Completion string;
  chooseFormat : list Format -> Criteria -> Completion (option Format);
  (** [new Song(info, options)] raises this error, if any *)
  songError : SongInfo -> option JsError;
  (** [new Playlist(info, options)] raises this error, if any *)
  playlistError : PlaylistInfo -> option JsError;
  (** message of [DisTubeError("INVALID_TYPE", ...)] for the named argument *)
  invalidTypeMessage : string -> string
}.

(** The options of the plugin that the methods below read; [maxViews] is
    [None] when the caller's options set the property to [undefined]. *)
Record Options : Type := mkOptions {
  emitEventsAfterFetching : bool;
  fetchBeforeQueued : bool;
  parallel : bool;
  maxViews : option number
}.

(** The plugin object: its options and the host handle set by [init]. *)
Record YouTubeMusicPlugin : Type := mkPlugin {
  options : Options;
  distube : option YtdlOptions
}.

Definition setParallel (b : bool) (this : YouTubeMusicPlugin) : YouTubeMusicPlugin :=
  {| options :=
       {| emitEventsAfterFetching := emitEventsAfterFetching (options this);
          fetchBeforeQueued := fetchBeforeQueued (options this);
          parallel := b;
          maxViews := maxViews (options this) |};
     distube := distube this |}.

(** A format with an audio track and no video track. *)
Definition audioOnly (f : Format) : bool := hasAudio f && negb (hasVideo f).

(** [new DisTubeError(code, message)] for a code of the plugin's own. *)
Definition DisTubeError (code message : string) : JsError :=
  mkError ("DisTubeError [" ++ code ++ "]") message.

Definition pluginError (message : string) : JsError :=
  DisTubeError "YTMUSIC_PLUGIN_ERROR" message.

(** The completion monad of the plugin's methods. *)
Definition cbind {A B} (c : Completion A) (k : A -> Completion B) : Completion B :=
  match c with
  | Normal a => k a
  | Throw e => Throw e
  end.

Definition ctry {A} (body : Completion A) (handler : JsError -> Completion A) : Completion A :=
  match body with
  | Normal a => Normal a
  | Throw e => handler e
  end.

Declare Scope c_scope.
Delimit Scope c_scope with C.
Notation "x <- c1 ;; c2" := (cbind c1 (fun x => c2))
  (at level 100, c1 at next level, right associativity) : c_scope.

(* ================================================================== *)
(** * The plugin: [extractId] *)
(* ================================================================== *)

Inductive IdType : Type := playlist | album | artist | video.

Definition typeName (t : IdType) : string :=
  match t with
  | playlist => "playlist"
  | album => "album"
  | artist => "artist"
  | video => "video"
  end.

Fixpoint takeWhile (p : ascii -> bool) (s : string) : string :=
  match s with
  | String c s' => if p c then String c (takeWhile p s') else EmptyString
  | EmptyString => EmptyString
  end.

Fixpoint dropPrefix (pre s : string) : option string :=
  match pre, s with
  | EmptyString, _ => Some s
  | String a pre', String b s' => if Ascii.eqb a b then dropPrefix pre' s' else None
  | String _ _, EmptyString => None
  end.

(** A group [([^...]+)]: the longest non-empty run of characters that are
    not excluded. *)
Definition capture (excluded : ascii -> bool) (s : string) : option string :=
  match takeWhile (fun c => negb (excluded c)) s with
  | EmptyString => None
  | run => Some run
  end.

(** First match of [/[?&]list=([^&]+)/], its group. *)
Fixpoint matchList (s : string) : option string :=
  match s with
  | EmptyString => None
  | String c s' =>
      let here :=
        if Ascii.eqb c "?" || Ascii.eqb c "&" then
          match dropPrefix "list=" s' with
          | Some r => capture (fun x => Ascii.eqb x "&") r
          | None => None
          end
        else None in
      match here with
      | Some id => Some id
      | None => matchList s'
      end
  end.

(** First match of [/\/album\/([^?/]+)/] (with [key] = "/album/") or of
    [/\/artist\/([^?/]+)/], its group. *)
Fixpoint matchSegment (key s : string) : option string :=
  let here :=
    match dropPrefix key s with
    | Some r => capture (fun x => Ascii.eqb x "?" || Ascii.eqb x "/") r
    | None => None
    end in
  match here with
  | Some id => Some id
  | None =>
      match s with
      | EmptyString => None
      | String _ s' => matchSegment key s'
      end
  end.

Definition extractId (up : Upstream) (url : string) : IdType * option string :=
  if includes "/playlist" url || includes "list=" url then
    (playlist, matchList url)
  else if includes "/album/" url then
    (album, matchSegment "/album/" url)
  else if includes "/artist/" url then
    (artist, matchSegment "/artist/" url)
  else if includes "/watch" url || validateURL up url then
    (video,
     match getVideoID up url with
     | Normal id => Some id
     | Throw _ => None
     end)
  else (video, None).

(* ================================================================== *)
(** * The plugin: [processPlaylistTracks] *)
(* ================================================================== *)

(** [new Song(info, options)] *)
Definition newSong (up : Upstream) (i : SongInfo) (o : option ResolveOptions) : Completion Song :=
  match songError up i with
  | Some e => Throw e
  | None => Normal (mkSong i o)
  end.

(** [new Playlist(info, options)] *)
Definition newPlaylist (up : Upstream) (i : PlaylistInfo) (o : ResolveOptions) : Completion Playlist :=
  match playlistError up i with
  | Some e => Throw e
  | None => Normal (mkPlaylist i o)
  end.

(** [ts && ts.length > 0 ? ts[ts.length - 1].url : null] *)
Definition lastThumbnail (ts : option (list Thumbnail)) : option string :=
  match ts with
  | Some l =>
      match last l with
      | Some t => url t
      | None => None
      end
  | None => None
  end.

(** [as && as.length > 0 ? as.map(artist => artist.name).join(", ")
    : "Unknown Artist"]; a missing name joins as the empty string. *)
Definition artistNames (l : option (list Artist)) : string :=
  match l with
  | Some (a :: rest) =>
      String.concat ", " (map (fun x => default "" (artistName x)) (a :: rest))
  | _ => "Unknown Artist"
  end.

(** [d ? this.convertDurationToSeconds(d) : 0] *)
Definition durationSeconds (d : option string) : number :=
  match d with
  | Some s => if String.eqb s "" then Num.ofZ 0 else convertDurationToSeconds s
  | None => Num.ofZ 0
  end.

Definition watchUrl (id : string) : string :=
  "https://music.youtube.com/watch?v=" ++ id.

Definition trackInfo (vid : string) (t : Track) (o : ResolveOptions) : SongInfo :=
  {| songSource := "youtube-music";
     songId := vid;
     songName := orString (title t) "Unknown Title";
     songUrl := watchUrl vid;
     songThumbnail := lastThumbnail (thumbnails t);
     songDuration := durationSeconds (duration t);
     songIsLive := None;
     songViews := None;
     songUploader := mkUploader (Some (artistNames (artists t))) None;
     playFromSource := true;
     songMember := member o;
     songMetadata := metadata o |}.

(** The local function [processTrack]: [None] is its [null]. *)
Definition processTrack (up : Upstream) (o : ResolveOptions) (track : option Track) : option Song :=
  match track with
  | None => None
  | Some t =>
      match videoId t with
      | None => None
      | Some vid =>
          if String.eqb vid "" then None
          else
            match newSong up (trackInfo vid t o) (Some o) with
            | Normal song => Some song
            | Throw _ => None
            end
      end
  end.

(** [results.filter(Boolean)] on an array of songs and nulls. *)
Fixpoint filterBoolean (results : list (option Song)) : list Song :=
  match results with
  | [] => []
  | Some song :: rest => song :: filterBoolean rest
  | None :: rest => filterBoolean rest
  end.

Definition processPlaylistTracks (up : Upstream) (this : YouTubeMusicPlugin)
    (trackList : list (option Track)) (o : ResolveOptions) : list Song :=
  let songList : list Song := [] in
  if parallel (options this) then
    let results := map (processTrack up o) trackList in
    songList ++ filterBoolean results
  else
    fold_left
      (fun acc track =>
         match processTrack up o track with
         | Some song => acc ++ [song]
         | None => acc
         end)
      trackList songList.

(* ================================================================== *)
(** * The plugin: [resolve] *)
(* ================================================================== *)

(** The integer that [Array.prototype.slice] makes of a finite bound:
    the fraction is cut off. *)
Definition truncate (q : Q) : Z := Z.quot (Qnum q) (Zpos (Qden q)).

(** [l.slice(0, stop)]: an undefined [stop] is the length, a negative one
    counts from the end. *)
Definition sliceFromStart {A} (l : list A) (stop : option number) : list A :=
  let len := Z.of_nat (length l) in
  let final :=
    match stop with
    | None => len
    | Some Num.NaN => 0
    | Some Num.PosInf => len
    | Some Num.NegInf => 0
    | Some (Num.Fin q) =>
        let k := truncate q in
        if (k <? 0)%Z then Z.max (len + k) 0 else Z.min k len
    end in
  firstn (Z.to_nat final) l.

(** [parseInt(s)] *)
Definition parseInt (s : string) : number :=
  let t := ToNumber.trimStart s in
  let '(negative, t1) :=
    match t with
    | String "-" r => (true, r)
    | String "+" r => (false, r)
    | _ => (false, t)
    end in
  let '(radix, t2) :=
    match t1 with
    | String "0" (String "x" r) | String "0" (String "X" r) => (16%N, r)
    | _ => (10%N, t1)
    end in
  match ToNumber.readDigits radix t2 0 0 with
  | (v, S _, _) => Num.fin (inject_Z (if (negative : bool) then - v else v))
  | _ => Num.NaN
  end.

Inductive Resolved : Type :=
| ResolvedSong (s : Song)
| ResolvedPlaylist (p : Playlist).

Local Open Scope c_scope.

(** The three collection cases of the [switch], which differ in the
    fetch, in the default name and in the words of their messages. *)
Definition resolveCollection (up : Upstream) (this : YouTubeMusicPlugin)
    (link id : string) (o : ResolveOptions)
    (fetched : option (option string * option (list Thumbnail) * option (list (option Track))))
    (what unknownName noSongs : string) : Completion Resolved :=
  match fetched with
  | Some (collectionName, thumbs, Some upstreamTracks) =>
      let limited := sliceFromStart upstreamTracks (maxViews (options this)) in
      let converted := processPlaylistTracks up this limited o in
      match converted with
      | [] => Throw (pluginError noSongs)
      | _ =>
          p <- newPlaylist up
                 {| plSource := "youtube-music";
                    plId := id;
                    plName := orString collectionName unknownName;
                    plUrl := link;
                    plThumbnail := lastThumbnail thumbs;
                    songs := converted;
                    plMember := member o |} o ;;
          Normal (ResolvedPlaylist p)
      end
  | _ => Throw (pluginError ("Could not fetch " ++ what ++ " information"))
  end.

Definition collectionFields (c : CollectionData) :=
  (colTitle c, colThumbnails c, tracks c).

Definition artistFields (a : ArtistData) :=
  (artName a, artThumbnails a, artistSongs a).

Definition resolveVideo (up : Upstream) (id : string) (o : ResolveOptions) : Completion Resolved :=
  fetched <- getInfo up (watchUrl id) ;;
  match fetched with
  | Some i =>
      match videoDetails i with
      | Some vd =>
          thumbs <-
            match vdThumbnails vd with
            | Some l => Normal l
            | None => Throw (typeError "Cannot read properties of undefined (reading 'length')")
            end ;;
          song <- newSong up
                    {| songSource := "youtube-music";
                       songId := id;
                       songName := orString (vdTitle vd) "Unknown Title";
                       songUrl := watchUrl id;
                       songThumbnail := lastThumbnail (Some thumbs);
                       songDuration :=
                         orNumber (Some (match lengthSeconds vd with
                                         | Some s => parseInt s
                                         | None => Num.NaN
                                         end)) (Num.ofZ 0);
                       songIsLive := Some (orFalse (isLiveContent vd));
                       songViews := Some (parseInt (orString (viewCount vd) "0"));
                       songUploader :=
                         match author vd with
                         | Some a => mkUploader (authorName a) (channel_url a)
                         | None => mkUploader (Some "Unknown Artist") None
                         end;
                       playFromSource := true;
                       songMember := member o;
                       songMetadata := metadata o |} (Some o) ;;
          Normal (ResolvedSong song)
      | None => Throw (pluginError "Failed to get video details")
      end
  | None => Throw (pluginError "Failed to get video details")
  end.

Definition resolve (up : Upstream) (this : YouTubeMusicPlugin)
    (link : string) (o : ResolveOptions) : Completion Resolved :=
  if String.eqb link "" then
    Throw (DisTubeError "INVALID_TYPE" (invalidTypeMessage up "url"))
  else
    let '(type, extracted) := extractId up link in
    match extracted with
    | None => Throw (pluginError "Could not extract ID from URL")
    | Some id =>
        if String.eqb id "" then Throw (pluginError "Could not extract ID from URL")
        else
          ctry
            (match type with
             | playlist =>
                 fetched <- getPlaylist up id ;;
                 resolveCollection up this link id o (collectionFields <$> fetched)
                   "playlist" "Unknown Playlist" "No playable songs found in playlist"
             | album =>
                 fetched <- getAlbum up id ;;
                 resolveCollection up this link id o (collectionFields <$> fetched)
                   "album" "Unknown Album" "No playable songs found in album"
             | artist =>
                 fetched <- getArtist up id ;;
                 resolveCollection up this link id o (artistFields <$> fetched)
                   "artist" "Unknown Artist" "No playable songs found for artist"
             | video => resolveVideo up id o
             end)
            (fun error =>
               Throw (pluginError
                        ("Failed to resolve " ++ typeName type ++ ": " ++
                         orString (Some (errMessage error)) "Unknown error")))
    end.

(* ================================================================== *)
(** * The plugin: [getStreamURL] *)
(* ================================================================== *)

(** [{ filter: "audioonly", quality: "highestaudio", ...ytdlOptions }] *)
Definition mergedCriteria (y : YtdlOptions) : Criteria :=
  {| critFilter := default "audioonly" (ytdlFilter y);
     critQuality := default "highestaudio" (ytdlQuality y) |}.

Definition noSuitableFormat : JsError :=
  mkError "Error" "No suitable audio format found".

Definition getStreamURL (up : Upstream) (this : YouTubeMusicPlugin)
    (song : option Song) : Completion string :=
  match song with
  | None => Throw (DisTubeError "INVALID_TYPE" (invalidTypeMessage up "Song"))
  | Some s =>
      if String.eqb (songId (info s)) "" then
        Throw (DisTubeError "INVALID_TYPE" (invalidTypeMessage up "Song"))
      else
        ctry
          (fetched <- getInfo up (watchUrl (songId (info s))) ;;
           available <-
             match fetched with
             | Some i => Normal (formats i)
             | None => Throw (typeError "Cannot read properties of undefined (reading 'formats')")
             end ;;
           ytdlOptions <-
             match distube this with
             | Some y => Normal y
             | None => Throw (typeError "Cannot read properties of undefined (reading 'options')")
             end ;;
           format <- chooseFormat up available (mergedCriteria ytdlOptions) ;;
           match format with
           | Some f =>
               match formatUrl f with
               | Some u => if String.eqb u "" then Throw noSuitableFormat else Normal u
               | None => Throw noSuitableFormat
               end
           | None => Throw noSuitableFormat
           end)
          (fun e =>
             Throw (pluginError (orString (Some (errMessage e)) "Failed to get stream URL")))
  end.

Local Close Scope c_scope.

(** The track list that the search client holds for an identifier of a
    collection, when the fetch succeeds. *)
Definition upstreamTracks (up : Upstream) (type : IdType) (id : string)
    : option (list (option Track)) :=
  match type with
  | playlist =>
      match getPlaylist up id with
      | Normal (Some c) => tracks c
      | _ => None
      end
  | album =>
      match getAlbum up id with
      | Normal (Some c) => tracks c
      | _ => None
      end
  | artist =>
      match getArtist up id with
      | Normal (Some a) => artistSongs a
      | _ => None
      end
  | video => None
  end.

End Plugin.

(* ================================================================== *)
(** * Sample data *)
(* ================================================================== *)

Module Sample.

Definition noOptions : ManagerOptions :=
  mkManagerOptions None None None None None None None.

(** A manager built with no options: one hour of lead time, no callbacks. *)
Definition manager : CookieManager := newCookieManager "cookies.json" noOptions.

Definition toISOString (ms : Z) : string := "<date>".

(** 14 November 2023, 22:13:20 UTC, in milliseconds. *)
Definition nowMs : Z := 1700000000000.

Definition cookie (n : string) (e : option number) : Cookie :=
  {| name := n; value := "v"; domain := Some ".youtube.com"; path := Some "/";
     secure := Some true; httpOnly := Some false; expirationDate := e;
     sameSite := Some "lax"; hostOnly := Some false; session := None |}.

(** A cookie that expired at the epoch, one that expired a second ago, one
    that expires in half an hour, one that expires in a year, and a
    session cookie. *)
Definition atEpoch : Cookie := cookie "EPOCH" (Some (Num.ofZ 0)).
Definition stale : Cookie := cookie "STALE" (Some (Num.ofZ 1699999999)).
Definition closing : Cookie := cookie "CLOSING" (Some (Num.ofZ 1700001800)).
Definition fresh : Cookie := cookie "FRESH" (Some (Num.ofZ 1731536000)).
Definition sessionOnly : Cookie := cookie "SESSION" None.

(** A browser run in which every step succeeds and the user is already
    logged in. *)
Definition pageCookie : PCookie :=
  {| pName := "SID"; pValue := "s"; pDomain := ".youtube.com"; pPath := "/";
     pExpires := Num.ofZ 1731536000; pHttpOnly := true; pSecure := true;
     pSameSite := Some "Lax" |}.

Definition run : Session :=
  {| sLaunch := None; sNewPage := None; sSetUserAgent := None;
     sSetCookie := None; sGoto := None; sIsLoggedIn := Normal true;
     sLoginPolls := []; sCookies := Normal [pageCookie]; sClose := None |}.

Definition moduleNotFound : JsError :=
  mkError "Error" "Cannot find module 'puppeteer'".

(** A world with one stored cookie file and no puppeteer module. *)
Definition world : World :=
  {| files := {[ "cookies.json" := FileJson (JsArray [fresh]) ]};
     writeError := fun _ => None;
     requirePuppeteer := Some moduleNotFound;
     browserRun := run;
     trace := [] |}.

(** The same world with the module installed. *)
Definition worldWithDriver : World :=
  {| files := files world;
     writeError := writeError world;
     requirePuppeteer := None;
     browserRun := run;
     trace := [] |}.

Definition withOnRefreshError (cb : Callback JsError) (m : CookieManager) : CookieManager :=
  {| cookiesPath := cookiesPath m;
     refreshInterval := refreshInterval m;
     refreshBeforeExpiry := refreshBeforeExpiry m;
     autoRefresh := autoRefresh m;
     headless := headless m;
     refreshTimer := refreshTimer m;
     onCookiesUpdated := onCookiesUpdated m;
     onRefreshError := Some cb;
     puppeteer := puppeteer m |}.

(** A callback that returns, and one that raises. *)
Definition quiet : Callback JsError := fun _ => Normal tt.
Definition failing : Callback JsError :=
  fun _ => Throw (mkError "Error" "callback failed").

(** A playlist of fifteen tracks, a stream client that knows one video
    with no audio-only format and whose [chooseFormat] raises when no
    format passes the filter, and constructors that never raise. *)
Definition track (vid : string) : option Plugin.Track :=
  Some {| Plugin.videoId := Some vid; Plugin.title := Some ("Track " ++ vid)%string;
          Plugin.thumbnails := None; Plugin.duration := Some "3:45";
          Plugin.artists := Some [Plugin.mkArtist (Some "A"); Plugin.mkArtist (Some "B")] |}.

Definition fifteen : list (option Plugin.Track) :=
  map track ["v01"; "v02"; "v03"; "v04"; "v05"; "v06"; "v07"; "v08"; "v09";
             "v10"; "v11"; "v12"; "v13"; "v14"; "v15"].

Definition videoOnly : Plugin.Format :=
  {| Plugin.formatUrl := Some "https://cdn/video"; Plugin.hasAudio := false;
     Plugin.hasVideo := true |}.

Definition muxed : Plugin.Format :=
  {| Plugin.formatUrl := Some "https://cdn/muxed"; Plugin.hasAudio := true;
     Plugin.hasVideo := true |}.

Definition passes (crit : Plugin.Criteria) (f : Plugin.Format) : bool :=
  if String.eqb (Plugin.critFilter crit) "audioonly" then Plugin.audioOnly f else true.

Definition chooseFormat (fs : list Plugin.Format) (crit : Plugin.Criteria)
    : Completion (option Plugin.Format) :=
  match List.find (passes crit) fs with
  | Some f => Normal (Some f)
  | None => Throw (mkError "Error" ("No such format found: " ++ Plugin.critQuality crit)%string)
  end.

Definition upstream : Plugin.Upstream :=
  {| Plugin.getPlaylist := fun _ =>
       Normal (Some (Plugin.mkCollectionData (Some "Mix") None (Some fifteen)));
     Plugin.getAlbum := fun _ => Normal None;
     Plugin.getArtist := fun _ => Normal None;
     Plugin.getInfo := fun _ =>
       Normal (Some (Plugin.mkVideoInfo [videoOnly; muxed] None));
     Plugin.validateURL := fun _ => false;
     Plugin.getVideoID := fun _ => Throw (mkError "Error" "No video id found");
     Plugin.chooseFormat := chooseFormat;
     Plugin.songError := fun _ => None;
     Plugin.playlistError := fun _ => None;
     Plugin.invalidTypeMessage := fun n => ("Invalid type for '" ++ n ++ "'")%string |}.

Definition noResolveOptions : Plugin.ResolveOptions := Plugin.mkResolveOptions None None.

(** The plugin with its default options, after [init]. *)
Definition plugin : Plugin.YouTubeMusicPlugin :=
  {| Plugin.options := Plugin.mkOptions true false true (Some (Num.ofZ 10));
     Plugin.distube := Some (Plugin.mkYtdlOptions None None) |}.

Definition playlistLink : string := "https://music.youtube.com/playlist?list=PL123&si=x".

Definition song : Plugin.Song :=
  Plugin.mkSong (Plugin.trackInfo "v01" (Plugin.mkTrack (Some "v01") None None None None)
                                  noResolveOptions) None.

End Sample.

(* ================================================================== *)
(** * Observations on a trace *)
(* ================================================================== *)

Definition isRefreshCookies (ev : Event) : bool :=
  match ev with EvRefreshCookies => true | _ => false end.

Definition isOnRefreshError (ev : Event) : bool :=
  match ev with EvOnRefreshError _ => true | _ => false end.

Definition isWriteFile (ev : Event) : bool :=
  match ev with EvWriteFile _ _ _ => true | _ => false end.

(** How many events of a trace pass a test. *)
Definition count (test : Event -> bool) (t : list Event) : nat :=
  length (List.filter test t).

(** Number of entries into [refreshCookies] recorded in the world. *)
Definition refreshCalls (s : State) : nat :=
  count isRefreshCookies (trace (world s)).

(** An event that does not write a file other than [p]. *)
Definition writesTo (p : string) (ev : Event) : Prop :=
  match ev with
  | EvWriteFile f _ _ => f = p
  | _ => True
  end.

(** An event that the body of [refreshCookies] may produce while the
    manager's path is [p]. *)
Definition emitted (p : string) (ev : Event) : Prop :=
  match ev with
  | EvRefreshCookies => False
  | EvWriteFile f _ _ => f = p
  | _ => True
  end.

(** From [s] to [s']: if the manager's path is [p] in [s] it still is in
    [s'], and the trace grew by events that [emitted p] allows. *)
Definition follows (p : string) (s s' : State) : Prop :=
  cookiesPath (this s) = p ->
  cookiesPath (this s') = p /\
  exists evs, trace (world s') = trace (world s) ++ evs /\ Forall (emitted p) evs.

(** A computation all of whose runs are related by [R]. *)
Definition respects {A} (R : State -> State -> Prop) (m : M A) : Prop :=
  forall s, R s (snd (m s)).

(* ================================================================== *)
(** * The plugin: [validate], [searchSong], [searchSongs], [getRelatedSongs] *)
(* ================================================================== *)

Module Search.

(** An entry of a search answer, with the properties the plugin reads. *)
Record SearchResult : Type := mkSearchResult {
  videoId : option string;
  name : option string;
  title : option string;
  thumbnails : option (list Plugin.Thumbnail);
  duration : option string;
  artists : option (list Plugin.Artist)
}.

(** The options object of [searchSongs]. *)
Record SearchSongsOptions : Type := mkSearchSongsOptions {
  type : option string;
  limit : option number;
  member : option Plugin.HostObject;
  metadata : option Plugin.HostObject
}.

(** What [getRelated] answers; [relatedTracks] is [None] when the property
    is missing or is not an array. *)
Record RelatedData : Type := mkRelatedData {
  relatedTracks : option (list (option Plugin.Track))
}.

(** The search methods of the search client: each answers an array (whose
    entries may be null), a falsy value ([None]), or raises. *)
Record Client : Type := mkClient {
  ytSearchSongs : string -> Completion (option (list (option SearchResult)));
  ytSearchAlbums : string -> Completion (option (list (option SearchResult)));
  ytSearchPlaylists : string -> Completion (option (list (option SearchResult)));
  ytSearchArtists : string -> Completion (option (list (option SearchResult)));
  ytGetRelated : string -> Completion (option RelatedData)
}.

(** [validate(url)]; [None] is a value that is not a string. *)
Definition validate (up : Plugin.Upstream) (link : option string) : bool :=
  match link with
  | Some u =>
      includes "music.youtube.com" u ||
      includes "youtube.com/playlist" u ||
      includes "/album/" u ||
      includes "/artist/" u ||
      Plugin.validateURL up u
  | None => false
  end.

Definition resolveOptions (o : SearchSongsOptions) : Plugin.ResolveOptions :=
  Plugin.mkResolveOptions (member o) (metadata o).

(** The object literal that both search methods hand to [new Song]. *)
Definition resultInfo (vid songTitle : string) (r : SearchResult)
    (o : Plugin.ResolveOptions) : Plugin.SongInfo :=
  {| Plugin.songSource := "youtube-music";
     Plugin.songId := vid;
     Plugin.songName := songTitle;
     Plugin.songUrl := Plugin.watchUrl vid;
     Plugin.songThumbnail := Plugin.lastThumbnail (thumbnails r);
     Plugin.songDuration := Plugin.durationSeconds (duration r);
     Plugin.songIsLive := None;
     Plugin.songViews := None;
     Plugin.songUploader := Plugin.mkUploader (Some (Plugin.artistNames (artists r))) None;
     Plugin.playFromSource := true;
     Plugin.songMember := Plugin.member o;
     Plugin.songMetadata := Plugin.metadata o |}.

Definition nullResult : JsError :=
  typeError "Cannot read properties of null (reading 'videoId')".

Local Open Scope c_scope.

Notation "x <- c1 ;; c2" := (Plugin.cbind c1 (fun x => c2))
  (at level 100, c1 at next level, right associativity) : c_scope.

(** [searchSong(query, options)]: [None] is the [null] result. *)
Definition searchSong (up : Plugin.Upstream) (yt : Client) (query : string)
    (o : Plugin.ResolveOptions) : Completion (option Plugin.Song) :=
  Plugin.ctry
    (searchResults <- ytSearchSongs yt query ;;
     match searchResults with
     | None | Some [] => Normal None
     | Some (firstResult :: _) =>
         match firstResult with
         | None => Throw nullResult
         | Some r =>
             match videoId r with
             | None => Normal None
             | Some vid =>
                 if String.eqb vid "" then Normal None
                 else
                   song <- Plugin.newSong up
                             (resultInfo vid (orString (name r) "Unknown Title") r o)
                             (Some o) ;;
                   Normal (Some song)
             end
         end
     end)
    (fun _ => Normal None).

(** The loop of [searchSongs] over the limited results. *)
Fixpoint collectResults (up : Plugin.Upstream) (o : Plugin.ResolveOptions)
    (results : list (option SearchResult)) (songList : list Plugin.Song)
    : Completion (list Plugin.Song) :=
  match results with
  | [] => Normal songList
  | None :: _ => Throw nullResult
  | Some r :: rest =>
      match videoId r with
      | None => collectResults up o rest songList
      | Some vid =>
          if String.eqb vid "" then collectResults up o rest songList
          else
            song <- Plugin.newSong up
                      (resultInfo vid
                         (orString (name r) (orString (title r) "Unknown Title")) r o)
                      (Some o) ;;
            collectResults up o rest (songList ++ [song])
      end
  end.

(** The search method that the [switch] on the type selects. *)
Definition searchMethod (yt : Client) (kind : string)
    : string -> Completion (option (list (option SearchResult))) :=
  if String.eqb kind "song" then ytSearchSongs yt
  else if String.eqb kind "album" then ytSearchAlbums yt
  else if String.eqb kind "playlist" then ytSearchPlaylists yt
  else if String.eqb kind "artist" then ytSearchArtists yt
  else ytSearchSongs yt.

(** [options.limit || 3] *)
Definition effectiveLimit (o : SearchSongsOptions) : number :=
  orNumber (limit o) (Num.ofZ 3).

(** [searchSongs(query, options)] *)
Definition searchSongs (up : Plugin.Upstream) (yt : Client) (query : string)
    (o : SearchSongsOptions) : Completion (list Plugin.Song) :=
  Plugin.ctry
    (let kind := orString (type o) "song" in
     searchResults <- searchMethod yt kind query ;;
     match searchResults with
     | None | Some [] => Normal []
     | Some found =>
         let limitedResults := Plugin.sliceFromStart found (Some (effectiveLimit o)) in
         collectResults up (resolveOptions o) limitedResults []
     end)
    (fun _ => Normal []).

(** The loop of [getRelatedSongs]; the songs are built without options. *)
Fixpoint collectRelated (up : Plugin.Upstream) (trackList : list (option Plugin.Track))
    (songList : list Plugin.Song) : Completion (list Plugin.Song) :=
  match trackList with
  | [] => Normal songList
  | None :: rest => collectRelated up rest songList
  | Some t :: rest =>
      match Plugin.videoId t with
      | None => collectRelated up rest songList
      | Some vid =>
          if String.eqb vid "" then collectRelated up rest songList
          else
            song <- Plugin.newSong up
                      (Plugin.trackInfo vid t (Plugin.mkResolveOptions None None))
                      None ;;
            collectRelated up rest (songList ++ [song])
      end
  end.

(** [getRelatedSongs(song)] *)
Definition getRelatedSongs (up : Plugin.Upstream) (yt : Client)
    (song : option Plugin.Song) : Completion (list Plugin.Song) :=
  match song with
  | None => Normal []
  | Some s =>
      if String.eqb (Plugin.songId (Plugin.info s)) "" then Normal []
      else
        Plugin.ctry
          (related <- ytGetRelated yt (Plugin.songId (Plugin.info s)) ;;
           match related with
           | Some data =>
               match relatedTracks data with
               | Some trackList => collectRelated up trackList []
               | None => Normal []
               end
           | None => Normal []
           end)
          (fun _ => Normal [])
  end.

Local Close Scope c_scope.

End Search.

(* ================================================================== *)
(** * More observations on a trace *)
(* ================================================================== *)

Definition isClose (ev : Event) : bool :=
  match ev with EvClose => true | _ => false end.

Definition isLaunch (ev : Event) : bool :=
  match ev with EvLaunch _ => true | _ => false end.

Definition isOnCookiesUpdated (ev : Event) : bool :=
  match ev with EvOnCookiesUpdated _ => true | _ => false end.

(** From [s] to [s']: the callbacks of the manager are the same and the
    trace grew by events on which [test] is false. *)
Definition grows (test : Event -> bool) (s s' : State) : Prop :=
  onRefreshError (this s') = onRefreshError (this s) /\
  onCookiesUpdated (this s') = onCookiesUpdated (this s) /\
  exists evs, trace (world s') = trace (world s) ++ evs /\
              Forall (fun ev => test ev = false) evs.

(** The world [w] with the trace [t]. *)
Definition withTrace (t : list Event) (w : World) : World :=
  {| files := files w;
     writeError := writeError w;
     requirePuppeteer := requirePuppeteer w;
     browserRun := browserRun w;
     trace := t |}.

(** The [try] block of [refreshCookies] that works on the page, and its
    [finally] block. *)
Definition sessionBody (run : Session) (m : CookieManager) : M (option (list Cookie)) :=
  (step (sNewPage run) ;;;
   step (sSetUserAgent run) ;;;
   injectExisting run ;;;
   log (EvGoto "https://music.youtube.com") ;;;
   step (sGoto run) ;;;
   isLoggedIn <- lift (sIsLoggedIn run) ;;
   (if negb isLoggedIn && negb (headless m)
    then waitForLogin (sLoginPolls run)
    else ret tt) ;;;
   freshCookies <- lift (sCookies run) ;;
   let formattedCookies := map formatCookie freshCookies in
   saveCookies formattedCookies ;;;
   notifyCookiesUpdated formattedCookies ;;;
   ret (Some formattedCookies))%M.

Definition sessionFinal (run : Session) : M unit :=
  (log EvClose ;;; step (sClose run))%M.

(** The managers [m] and [m'] agree on every field but [puppeteer]. *)
Definition sameManager (s s' : State) : Prop :=
  setPuppeteer true (this s') = setPuppeteer true (this s).

(** A step of the outside world that does not raise. *)
Definition succeeds (r : option JsError) : bool :=
  match r with None => true | Some _ => false end.

(** A cookie that [validateCookies] counts as expired, and one that it
    counts as expiring soon. *)
Definition expiredCookie (now : number) (c : Cookie) : bool :=
  match expirationDate c with
  | Some e => Num.truthy e && (e <? now)%js
  | None => false
  end.

Definition soonCookie (now threshold : number) (c : Cookie) : bool :=
  match expirationDate c with
  | Some e => Num.truthy e && negb (e <? now)%js && (e <? threshold)%js
  | None => false
  end.

(** What the loop of [validateCookies] knows of [nearestExpiry] after the cookies [seen]. *)
Definition earliest (seen : list Cookie) (n : number) : Prop :=
  (n = Num.PosInf \/
   exists c e, In c seen /\ expirationDate c = Some e /\ Num.truthy e = true /\ n = e) /\
  (forall c e, In c seen -> expirationDate c = Some e -> Num.truthy e = true ->
               (e <? n)%js = false).

(** A cookie whose expiration date [JSON.stringify] writes as it is. *)
Definition finiteDate (c : Cookie) : Prop :=
  match expirationDate c with
  | Some (Num.Fin _) | None => True
  | _ => False
  end.

(** Some character of [s] passes [p]. *)
Fixpoint hasChar (p : ascii -> bool) (s : string) : bool :=
  match s with
  | EmptyString => false
  | String c s' => p c || hasChar p s'
  end.

(** A computation whose normal results all satisfy [P]. *)
Definition returnsOnly {A} (P : A -> Prop) (m : M A) : Prop :=
  forall s a s', m s = (Normal a, s') -> P a.

(** The characters that end the identifier of a collection in a link, and
    the text that precedes it. *)
Definition idStops (t : Plugin.IdType) (c : ascii) : bool :=
  match t with
  | Plugin.playlist => Ascii.eqb c "&"
  | _ => Ascii.eqb c "?" || Ascii.eqb c "/"
  end.

Definition idMarkers (t : Plugin.IdType) : list string :=
  match t with
  | Plugin.playlist => ["?list="; "&list="]
  | Plugin.album => ["/album/"]
  | Plugin.artist => ["/artist/"]
  | Plugin.video => []
  end.

(** [id] stands in [link] right after [marker] and runs up to the first
    character that stops it, or to the end of the link. *)
Definition standsAfter (stops : ascii -> bool) (marker id link : string) : Prop :=
  exists before after,
    link = (before ++ marker ++ id ++ after)%string /\
    hasChar stops id = false /\
    match after with
    | EmptyString => True
    | String c _ => stops c = true
    end.

(** A song as every method of the plugin builds it. *)
Definition pluginSong (s : Plugin.Song) : Prop :=
  Plugin.songSource (Plugin.info s) = "youtube-music" /\
  Plugin.songId (Plugin.info s) <> "" /\
  Plugin.songUrl (Plugin.info s) = Plugin.watchUrl (Plugin.songId (Plugin.info s)) /\
  Plugin.playFromSource (Plugin.info s) = true.

(** An error of the host framework with one of the plugin's two codes. *)
Definition invalidType (up : Plugin.Upstream) (argument : string) : JsError :=
  Plugin.DisTubeError "INVALID_TYPE" (Plugin.invalidTypeMessage up argument).

(** The identifier that the loops of the plugin read from an entry: a
    missing or empty [videoId] is none. *)
Definition usableId (v : option string) : option string :=
  match v with
  | Some x => if String.eqb x "" then None else Some x
  | None => None
  end.

Definition trackId (t : option Plugin.Track) : option string :=
  match t with
  | Some t => usableId (Plugin.videoId t)
  | None => None
  end.

Definition resultId (r : option Search.SearchResult) : option string :=
  match r with
  | Some r => usableId (Search.videoId r)
  | None => None
  end.

Definition songIds (l : list Plugin.Song) : list string :=
  map (fun s => Plugin.songId (Plugin.info s)) l.

(** A cookie of the browser that names its domain and its path, expires
    at a finite positive time or carries the mark [-1] of a session
    cookie, and has one of the three policies the browser knows. *)
Definition browserForm (p : PCookie) : Prop :=
  pDomain p <> "" /\ pPath p <> "" /\
  (pExpires p = Num.ofZ (-1) \/ exists q, pExpires p = Num.Fin q /\ (0 < q)%Q) /\
  In (pSameSite p) [Some "None"; Some "Lax"; Some "Strict"].

(** A stream client that knows one video, and a search client with five
    songs and the related tracks of [Sample.fifteen]. *)
Module Fixture.

Definition details : Plugin.VideoDetails :=
  {| Plugin.vdTitle := Some "Title"; Plugin.vdThumbnails := Some [];
     Plugin.lengthSeconds := Some "215"; Plugin.isLiveContent := None;
     Plugin.viewCount := Some "many"; Plugin.author := None |}.

Definition upstream : Plugin.Upstream :=
  {| Plugin.getPlaylist := Plugin.getPlaylist Sample.upstream;
     Plugin.getAlbum := Plugin.getAlbum Sample.upstream;
     Plugin.getArtist := Plugin.getArtist Sample.upstream;
     Plugin.getInfo := fun _ =>
       Normal (Some (Plugin.mkVideoInfo [Sample.muxed] (Some details)));
     Plugin.validateURL := fun _ => true;
     Plugin.getVideoID := fun _ => Normal "dQw4w9WgXcQ";
     Plugin.chooseFormat := fun fs _ => Normal (head fs);
     Plugin.songError := fun _ => None;
     Plugin.playlistError := fun _ => None;
     Plugin.invalidTypeMessage := Plugin.invalidTypeMessage Sample.upstream |}.

(** A manager whose lead time has no bound, and a cookie that expires
    1e16 seconds after the epoch. *)
Definition patient : CookieManager :=
  newCookieManager "cookies.json"
    (mkManagerOptions None None (Some Num.PosInf) None None None None).

Definition far : Cookie := Sample.cookie "FAR" (Some (Num.ofZ 10000000000000000)).

Definition videoLink : string := "https://music.youtube.com/watch?v=dQw4w9WgXcQ".

Definition albumLink : string := "https://music.youtube.com/album/MPRE123?si=x".

Definition result (vid : string) : option Search.SearchResult :=
  Some {| Search.videoId := Some vid; Search.name := Some "Name";
          Search.title := None; Search.thumbnails := None;
          Search.duration := Some "3:45"; Search.artists := None |}.

Definition client : Search.Client :=
  {| Search.ytSearchSongs := fun _ =>
       Normal (Some (map result ["r1"; "r2"; "r3"; "r4"; "r5"]));
     Search.ytSearchAlbums := fun _ => Normal None;
     Search.ytSearchPlaylists := fun _ => Normal None;
     Search.ytSearchArtists := fun _ => Normal None;
     Search.ytGetRelated := fun _ =>
       Normal (Some (Search.mkRelatedData (Some Sample.fifteen))) |}.

Definition noSearchOptions : Search.SearchSongsOptions :=
  Search.mkSearchSongsOptions None None None None.

(** What [resolve] answers for [Sample.playlistLink]. *)
Definition resolvedMix : Plugin.Resolved :=
  Plugin.ResolvedPlaylist
    (Plugin.mkPlaylist
       {| Plugin.plSource := "youtube-music";
          Plugin.plId := "PL123";
          Plugin.plName := "Mix";
          Plugin.plUrl := Sample.playlistLink;
          Plugin.plThumbnail := None;
          Plugin.songs :=
            omap (Plugin.processTrack Sample.upstream Sample.noResolveOptions)
                 (firstn 10 Sample.fifteen);
          Plugin.plMember := None |}
       Sample.noResolveOptions).

End Fixture.

(** The probes of the login wait that are made, up to the first that
    answers true: whether each of them returns. *)
Fixpoint pollsReturn (polls : list (Completion bool)) : bool :=
  match polls with
  | [] => true
  | Normal true :: _ => true
  | Normal false :: rest => pollsReturn rest
  | Throw _ :: _ => false
  end.

(** The steps of the page work that [refreshCookies] does not guard: the
    page opens and takes the user agent, the site is reached, the login
    probes that are made return, the browser hands over its cookies and
    the update callback returns.  Seeding the browser and saving the file
    are not among them: what they raise is swallowed. *)
Definition pageSucceeds (run : Session) (m : CookieManager) : bool :=
  succeeds (sNewPage run) && succeeds (sSetUserAgent run) && succeeds (sGoto run) &&
  match sIsLoggedIn run with
  | Normal loggedIn =>
      if negb loggedIn && negb (headless m) then pollsReturn (sLoginPolls run) else true
  | Throw _ => false
  end &&
  match sCookies run with
  | Normal fresh =>
      match onCookiesUpdated m with
      | Some callback =>
          match callback (map formatCookie fresh) with
          | Normal _ => true
          | Throw _ => false
          end
      | None => true
      end
  | Throw _ => false
  end.

(** Every unguarded step of a refresh succeeds: the driver is there, the
    browser launches, the page work succeeds and the browser closes. *)
Definition stepsSucceed (m : CookieManager) (w : World) : bool :=
  (puppeteer m || succeeds (requirePuppeteer w)) &&
  succeeds (sLaunch (browserRun w)) &&
  pageSucceeds (browserRun w) m &&
  succeeds (sClose (browserRun w)).

(* ================================================================== *)
(** * Facts about numbers *)
(* ================================================================== *)

Lemma Qltb_lt (a b : Q) : Num.Qltb a b = true <-> (a < b)%Q.
Proof.
  unfold Num.Qltb. rewrite negb_true_iff. split.
  - intros H. apply Qnot_le_lt. intros Hle.
    apply Qle_bool_iff in Hle. congruence.
  - intros H. destruct (Qle_bool b a) eqn:E; [|reflexivity].
    apply Qle_bool_iff in E. exfalso. exact (Qlt_not_le _ _ H E).
Qed.

(** A number that is at least a number that is at least 1 is truthy. *)
Lemma truthy_above (a e : number) :
  (Num.ofZ 1 <=? a)%js = true -> (a <=? e)%js = true -> Num.truthy e = true.
Proof.
  destruct a as [| | |x], e as [| | |q]; cbn; try congruence.
  intros H1 H2. apply Qle_bool_iff in H1. apply Qle_bool_iff in H2.
  apply negb_true_iff. destruct (Qeq_bool q 0) eqn:E; [|reflexivity].
  apply Qeq_bool_iff in E. rewrite E in H2.
  exfalso. pose proof (Qle_trans _ _ _ H1 H2) as H. revert H.
  unfold Qle, inject_Z. cbn. lia.
Qed.

(** Rounding to binary64 leaves an integer of at most 53 bits as it is. *)
Lemma Qred_inject_Z (z : Z) : Qred (inject_Z z) = inject_Z z.
Proof.
  unfold Qred, inject_Z.
  generalize (Z.ggcd_gcd z 1) (Z.ggcd_correct_divisors z 1).
  destruct (Z.ggcd z 1) as [g [q1 q2]]. cbn [fst snd].
  rewrite Z.gcd_1_r. intros -> [H1 H2].
  rewrite Z.mul_1_l in H1, H2. subst. reflexivity.
Qed.

Lemma halfEven_one (n : Z) : Num.halfEven n 1 = n.
Proof. unfold Num.halfEven. now rewrite Z.mod_1_r, Z.div_1_r. Qed.

Lemma roundPos_int (a : Z) :
  0 < a <= 2 ^ 53 -> Num.roundPos a 1 = Num.Fin (inject_Z a).
Proof.
  intros [Hpos Hle]. unfold Num.roundPos.
  pose proof (Z.log2_spec a Hpos) as [Hlo Hhi].
  pose proof (Z.log2_nonneg a) as Hk.
  assert (Hlog : Num.log2Ratio a 1 = Z.log2 a).
  { unfold Num.log2Ratio. change (Z.log2 1) with 0. rewrite Z.sub_0_r.
    destruct (Z.leb_spec 0 (Z.log2 a)) as [_|]; [|lia].
    destruct (Z.leb_spec (1 * 2 ^ Z.log2 a) a) as [_|]; [reflexivity|lia]. }
  rewrite Hlog.
  assert (Hk53 : Z.log2 a <= 53).
  { destruct (Z.le_gt_cases (Z.log2 a) 53) as [|Hgt]; [assumption|].
    assert (Hpow : 2 ^ 54 <= 2 ^ Z.log2 a) by (apply Z.pow_le_mono_r; lia).
    change (2 ^ 54) with 18014398509481984 in Hpow.
    change (2 ^ 53) with 9007199254740992 in Hle. lia. }
  destruct (Z.eq_dec (Z.log2 a) 53) as [E|NE].
  - assert (a = 2 ^ 53) by (rewrite E in Hlo; lia). subst a. vm_compute. reflexivity.
  - rewrite Z.max_l by lia.
    set (e := Z.log2 a - 52) in *.
    assert (He : -52 <= e <= 0) by (unfold e; lia).
    destruct (Z.ltb_spec 971 e) as [|_]; [lia|].
    destruct (Z.eqb_spec e 971) as [|_]; [lia|]. cbn [orb andb].
    unfold Num.scaled.
    destruct (Z.leb_spec 0 e) as [H0|H0].
    + replace e with 0 by lia. change (2 ^ 0) with 1.
      now rewrite Z.mul_1_l, halfEven_one, Z.mul_1_r.
    + rewrite halfEven_one. f_equal.
      assert (Hp : 0 < 2 ^ (- e)) by (apply Z.pow_pos_nonneg; lia).
      rewrite <- Qred_inject_Z. apply Qred_complete.
      unfold Qeq, inject_Z. cbn [Qnum Qden].
      rewrite Z2Pos.id by exact Hp. lia.
Qed.

Lemma round_int (z : Z) :
  Z.abs z <= 2 ^ 53 -> Num.round (inject_Z z) = Num.ofZ z.
Proof.
  intros H. unfold Num.round, Num.ofZ. cbn [Qnum Qden inject_Z].
  destruct z as [|p|p]; [reflexivity| |].
  - apply roundPos_int. lia.
  - rewrite roundPos_int by lia. reflexivity.
Qed.

Lemma fin_inject_Z (q : Q) (z : Z) :
  (q == inject_Z z)%Q -> Z.abs z <= 2 ^ 53 -> Num.fin q = Num.ofZ z.
Proof.
  intros H Hz. unfold Num.fin.
  rewrite (Qred_complete _ _ H), Qred_inject_Z. now apply round_int.
Qed.

(** Sums and products of integers are exact as long as the result has at
    most 53 bits. *)
Lemma ofZ_add (a b : Z) :
  Z.abs (a + b) <= 2 ^ 53 -> (Num.ofZ a + Num.ofZ b)%js = Num.ofZ (a + b).
Proof. intros H. cbn. apply fin_inject_Z; [now rewrite inject_Z_plus|exact H]. Qed.

Lemma ofZ_mul (a b : Z) :
  Z.abs (a * b) <= 2 ^ 53 -> (Num.ofZ a * Num.ofZ b)%js = Num.ofZ (a * b).
Proof. intros H. cbn. apply fin_inject_Z; [now rewrite inject_Z_mult|exact H]. Qed.

(* ================================================================== *)
(** * [validateCookies]: the scan of the cookies *)
(* ================================================================== *)

Section ScanFacts.

Variables now threshold : number.

Let scan := scanCookie now threshold.

Lemma scan_expired_mono (st : Scan) (c : Cookie) :
  scanExpired st = true -> scanExpired (scan st c) = true.
Proof.
  intros H. unfold scan, scanCookie.
  destruct (expirationDate c) as [e|]; [|exact H].
  destruct (Num.truthy e); [|exact H].
  destruct (e <? now)%js, (e <? threshold)%js;
    cbn; repeat match goal with |- context [if ?b then _ else _] => destruct b end;
    cbn; auto.
Qed.

Lemma scan_soon_mono (st : Scan) (c : Cookie) :
  scanSoon st = true -> scanSoon (scan st c) = true.
Proof.
  intros H. unfold scan, scanCookie.
  destruct (expirationDate c) as [e|]; [|exact H].
  destruct (Num.truthy e); [|exact H].
  destruct (e <? now)%js, (e <? threshold)%js;
    cbn; repeat match goal with |- context [if ?b then _ else _] => destruct b end;
    cbn; auto.
Qed.

Lemma fold_expired_mono (cs : list Cookie) (st : Scan) :
  scanExpired st = true -> scanExpired (fold_left scan cs st) = true.
Proof.
  revert st. induction cs as [|c cs IH]; intros st H; cbn; [exact H|].
  apply IH, scan_expired_mono, H.
Qed.

Lemma fold_soon_mono (cs : list Cookie) (st : Scan) :
  scanSoon st = true -> scanSoon (fold_left scan cs st) = true.
Proof.
  revert st. induction cs as [|c cs IH]; intros st H; cbn; [exact H|].
  apply IH, scan_soon_mono, H.
Qed.

(** A cookie with a truthy date before [now] raises the expired flag. *)
Lemma scan_expired_hit (st : Scan) (c : Cookie) (e : number) :
  expirationDate c = Some e -> Num.truthy e = true -> (e <? now)%js = true ->
  scanExpired (scan st c) = true.
Proof.
  intros He Ht Hlt. unfold scan, scanCookie. rewrite He, Ht, Hlt. cbn.
  destruct (e <? scanNearest st)%js; reflexivity.
Qed.

(** A cookie whose date is not before [now] leaves the expired flag as it
    is. *)
Lemma scan_expired_keep (st : Scan) (c : Cookie) :
  (forall e, expirationDate c = Some e -> (e <? now)%js = false) ->
  scanExpired (scan st c) = scanExpired st.
Proof.
  intros H. unfold scan, scanCookie.
  destruct (expirationDate c) as [e|]; [|reflexivity].
  rewrite (H e eq_refl).
  destruct (Num.truthy e); [|reflexivity].
  destruct (e <? threshold)%js; cbn;
    match goal with |- context [if ?b then _ else _] => destruct b end; reflexivity.
Qed.

Lemma fold_expired_keep (cs : list Cookie) (st : Scan) :
  (forall c e, In c cs -> expirationDate c = Some e -> (e <? now)%js = false) ->
  scanExpired (fold_left scan cs st) = scanExpired st.
Proof.
  revert st. induction cs as [|c cs IH]; intros st H; cbn; [reflexivity|].
  rewrite IH.
  - apply scan_expired_keep. intros e He. apply (H c e); [now left|exact He].
  - intros c' e' Hin. apply H. now right.
Qed.

(** A cookie with a truthy date in the window raises the expiring-soon
    flag. *)
Lemma scan_soon_hit (st : Scan) (c : Cookie) (e : number) :
  expirationDate c = Some e -> Num.truthy e = true ->
  (e <? now)%js = false -> (e <? threshold)%js = true ->
  scanSoon (scan st c) = true.
Proof.
  intros He Ht Hge Hlt. unfold scan, scanCookie. rewrite He, Ht, Hge, Hlt. cbn.
  destruct (e <? scanNearest st)%js; reflexivity.
Qed.

Lemma fold_expired_hit (cs : list Cookie) (st : Scan) (c : Cookie) (e : number) :
  In c cs -> expirationDate c = Some e -> Num.truthy e = true ->
  (e <? now)%js = true ->
  scanExpired (fold_left scan cs st) = true.
Proof.
  intros Hin He Ht Hlt.
  destruct (in_split _ _ Hin) as (l1 & l2 & ->).
  rewrite fold_left_app. cbn.
  apply fold_expired_mono. now apply (scan_expired_hit _ c e).
Qed.

Lemma fold_soon_hit (cs : list Cookie) (st : Scan) (c : Cookie) (e : number) :
  In c cs -> expirationDate c = Some e -> Num.truthy e = true ->
  (e <? now)%js = false -> (e <? threshold)%js = true ->
  scanSoon (fold_left scan cs st) = true.
Proof.
  intros Hin He Ht Hge Hlt.
  destruct (in_split _ _ Hin) as (l1 & l2 & ->).
  rewrite fold_left_app. cbn.
  apply fold_soon_mono. now apply (scan_soon_hit _ c e).
Qed.

End ScanFacts.

Section ScanMeaning.

Variables now threshold : number.

Lemma scan_fields (st : Scan) (c : Cookie) :
  scanCookie now threshold st c =
    {| scanExpired := scanExpired st || expiredCookie now c;
       scanSoon := scanSoon st || soonCookie now threshold c;
       scanNearest :=
         match expirationDate c with
         | Some e =>
             if Num.truthy e && (e <? scanNearest st)%js then e else scanNearest st
         | None => scanNearest st
         end |}.
Proof.
  destruct st as [x y n]. unfold scanCookie, expiredCookie, soonCookie. cbn.
  destruct (expirationDate c) as [e|]; [|now rewrite !orb_false_r].
  destruct (Num.truthy e); cbn; [|now rewrite !orb_false_r].
  destruct (e <? now)%js; cbn.
  - rewrite orb_true_r, orb_false_r. now destruct (e <? n)%js.
  - rewrite orb_false_r. destruct (e <? threshold)%js; cbn.
    + rewrite orb_true_r. now destruct (e <? n)%js.
    + rewrite orb_false_r. now destruct (e <? n)%js.
Qed.

Lemma fold_flags (cs : list Cookie) (st : Scan) :
  scanExpired (fold_left (scanCookie now threshold) cs st) =
    scanExpired st || existsb (expiredCookie now) cs /\
  scanSoon (fold_left (scanCookie now threshold) cs st) =
    scanSoon st || existsb (soonCookie now threshold) cs.
Proof.
  revert st. induction cs as [|c cs IH]; intros st; cbn.
  - now rewrite !orb_false_r.
  - destruct (IH (scanCookie now threshold st c)) as [-> ->].
    rewrite scan_fields. cbn. now rewrite !orb_assoc.
Qed.

End ScanMeaning.

Lemma lt_irrefl (a : number) : (a <? a)%js = false.
Proof.
  destruct a as [| | |q]; try reflexivity. cbn.
  destruct (Num.Qltb q q) eqn:E; [|reflexivity].
  apply Qltb_lt in E. exfalso. exact (Qlt_irrefl _ E).
Qed.

(** If [a] is below [b] and [c] is not, then [c] is not below [a]. *)
Lemma lt_chain (a b c : number) :
  (a <? b)%js = true -> (c <? b)%js = false -> (c <? a)%js = false.
Proof.
  destruct a as [| | |x], b as [| | |y], c as [| | |z]; cbn;
    try congruence; try reflexivity.
  intros Hxy Hzy. apply Qltb_lt in Hxy.
  destruct (Num.Qltb z x) eqn:E; [|reflexivity].
  apply Qltb_lt in E.
  assert (Hz : Num.Qltb z y = true) by (apply Qltb_lt; eapply Qlt_trans; eauto).
  congruence.
Qed.

Section Nearest.

Variables now threshold : number.

Lemma earliest_step (seen : list Cookie) (st : Scan) (c : Cookie) :
  earliest seen (scanNearest st) ->
  earliest (seen ++ [c]) (scanNearest (scanCookie now threshold st c)).
Proof.
  intros [Hfrom Hmin]. rewrite scan_fields. cbn [scanNearest].
  destruct (expirationDate c) as [e|] eqn:He.
  - destruct (Num.truthy e) eqn:Ht; cbn [andb].
    + destruct (e <? scanNearest st)%js eqn:Hlt.
      * split.
        -- right. exists c, e. rewrite in_app_iff. cbn. auto.
        -- intros c' e' Hin He' Ht'. apply in_app_iff in Hin as [Hin|[<-|[]]].
           ++ exact (lt_chain _ _ _ Hlt (Hmin c' e' Hin He' Ht')).
           ++ rewrite He in He'. injection He' as <-. apply lt_irrefl.
      * split.
        -- destruct Hfrom as [H|(c0 & e0 & Hin & H)]; [now left|right].
           exists c0, e0. rewrite in_app_iff. tauto.
        -- intros c' e' Hin He' Ht'. apply in_app_iff in Hin as [Hin|[<-|[]]].
           ++ exact (Hmin c' e' Hin He' Ht').
           ++ rewrite He in He'. now injection He' as <-.
    + split.
      * destruct Hfrom as [H|(c0 & e0 & Hin & H)]; [now left|right].
        exists c0, e0. rewrite in_app_iff. tauto.
      * intros c' e' Hin He' Ht'. apply in_app_iff in Hin as [Hin|[<-|[]]].
        -- exact (Hmin c' e' Hin He' Ht').
        -- congruence.
  - split.
    + destruct Hfrom as [H|(c0 & e0 & Hin & H)]; [now left|right].
      exists c0, e0. rewrite in_app_iff. tauto.
    + intros c' e' Hin He' Ht'. apply in_app_iff in Hin as [Hin|[<-|[]]].
      * exact (Hmin c' e' Hin He' Ht').
      * congruence.
Qed.

Lemma earliest_fold (cs seen : list Cookie) (st : Scan) :
  earliest seen (scanNearest st) ->
  earliest (seen ++ cs) (scanNearest (fold_left (scanCookie now threshold) cs st)).
Proof.
  revert seen st. induction cs as [|c cs IH]; intros seen st H; cbn.
  - now rewrite app_nil_r.
  - replace (seen ++ c :: cs) with ((seen ++ [c]) ++ cs)
      by now rewrite <- app_assoc.
    apply IH, earliest_step, H.
Qed.

End Nearest.

(** What [validateCookies] does on a non-empty array: it raises when no
    cookie is expired, one expires soon and the nearest expiry is no valid
    date, and it returns the flags of the scan otherwise. *)
Lemma validate_flags (iso : Z -> string) (m : CookieManager) (nowMs : Z)
    (cs : list Cookie) :
  cs <> [] ->
  let st := fold_left (scanCookie (nowSeconds nowMs) (expirySoonThreshold m nowMs)) cs
                      (mkScan false false Num.PosInf) in
  let near := match scanNearest st with
              | Num.PosInf => NearestNull
              | n => NearestDate (newDate (n * Num.ofZ 1000)%js)
              end in
  (scanExpired st = false /\ scanSoon st = true /\ near = NearestDate InvalidDate /\
   validateCookies iso m nowMs (JsArray cs) = Throw invalidTimeValue) \/
  ((scanExpired st = true \/ scanSoon st = false \/ near <> NearestDate InvalidDate) /\
   exists msg,
     validateCookies iso m nowMs (JsArray cs) =
       Normal {| valid := negb (scanExpired st); expired := scanExpired st;
                 expiringSoon := scanSoon st; nearestExpiry := near;
                 message := msg |}).
Proof.
  intros Hne. destruct cs as [|c cs]; [congruence|]. cbn zeta.
  unfold validateCookies.
  destruct (scanExpired _) eqn:Hx.
  { right. split; [now left|]. eauto. }
  destruct (scanSoon _) eqn:Hs.
  2:{ right. split; [right; now left|]. eauto. }
  destruct (match scanNearest _ with
            | Num.PosInf => NearestNull
            | n => NearestDate (newDate (n * Num.ofZ 1000)%js)
            end) as [| |[|ms]] eqn:Hnear.
  - right. split; [right; right; discriminate|]. eauto.
  - right. split; [right; right; discriminate|]. eauto.
  - left. cbn. auto.
  - right. split; [right; right; discriminate|]. cbn. eauto.
Qed.

(** The nearest expiry of the scan is the date of a cookie of the array
    that no other dated cookie precedes. *)
Lemma scan_nearest (now threshold : number) (cs : list Cookie) :
  earliest cs (scanNearest (fold_left (scanCookie now threshold) cs
                              (mkScan false false Num.PosInf))).
Proof.
  apply (earliest_fold now threshold cs [] (mkScan false false Num.PosInf)).
  split; [now left|]. intros c e [].
Qed.

(* ================================================================== *)
(** * [validateCookies]: expired, expiring soon, nothing provided *)
(* ================================================================== *)

(** C1, as the specification words it, does not hold: a cookie whose
    [expirationDate] is 0 lies strictly before any present time, but the
    test [if (cookie.expirationDate)] reads 0 as "no expiration date" and
    the scan skips the cookie.  With the single cookie [Sample.atEpoch]
    the result is valid and not expired. *)
Lemma validate_expired_any_date_fails :
  ~ (forall (iso : Z -> string) (m : CookieManager) (nowMs : Z)
            (cs : list Cookie) (c : Cookie) (e : number),
        In c cs -> expirationDate c = Some e ->
        (e <? nowSeconds nowMs)%js = true ->
        exists r, validateCookies iso m nowMs (JsArray cs) = Normal r /\
                  expired r = true /\ valid r = false).
Proof.
  intros H.
  destruct (H Sample.toISOString Sample.manager Sample.nowMs
              [Sample.atEpoch] Sample.atEpoch (Num.ofZ 0)) as (r & Hr & Hexp & _).
  - now left.
  - reflexivity.
  - reflexivity.
  - vm_compute in Hr. injection Hr as <-. discriminate.
Qed.

(** C1, amended: for every array of cookies that contains at least one
    cookie whose [expirationDate] is a non-zero number (truthy: neither 0
    nor NaN) strictly before the current time in seconds,
    [validateCookies] returns [expired = true] and [valid = false],
    whatever the other cookies are. *)
Theorem validate_expired (iso : Z -> string) (m : CookieManager) (nowMs : Z)
    (cs : list Cookie) (c : Cookie) (e : number) :
  In c cs ->
  expirationDate c = Some e ->
  Num.truthy e = true ->
  (e <? nowSeconds nowMs)%js = true ->
  exists r, validateCookies iso m nowMs (JsArray cs) = Normal r /\
            expired r = true /\ valid r = false.
Proof.
  intros Hin He Ht Hlt.
  assert (Hne : cs <> []) by (intros ->; destruct Hin).
  pose proof (fold_expired_hit _ (expirySoonThreshold m nowMs) cs
                (mkScan false false Num.PosInf) c e Hin He Ht Hlt) as Hx.
  destruct (validate_flags iso m nowMs cs Hne)
    as [(Hno & _)|(_ & msg & Hrun)]; [congruence|].
  eexists. split; [exact Hrun|]. cbn. now rewrite Hx.
Qed.

Lemma validate_expired_witness :
  exists r,
    validateCookies Sample.toISOString Sample.manager Sample.nowMs
      (JsArray [Sample.fresh; Sample.stale; Sample.sessionOnly]) = Normal r /\
    expired r = true /\ valid r = false.
Proof.
  apply (validate_expired Sample.toISOString Sample.manager Sample.nowMs
           [Sample.fresh; Sample.stale; Sample.sessionOnly]
           Sample.stale (Num.ofZ 1699999999)).
  - right; left; reflexivity.
  - reflexivity.
  - reflexivity.
  - reflexivity.
Defined.

(** C2, as the specification words it, does not hold: the message of an
    expiring-soon result is built with [toISOString], which raises a
    RangeError when the nearest expiry is no valid date.  With an
    unbounded lead time, a cookie that expires 1e16 seconds after the
    epoch is not expired and lies within the lead time, and
    [validateCookies] raises instead of returning a result. *)
Lemma validate_expiring_soon_raises :
  ~ (forall (iso : Z -> string) (m : CookieManager) (nowMs : Z)
            (cs : list Cookie) (c : Cookie) (e : number),
        (Num.ofZ 1 <=? nowSeconds nowMs)%js = true ->
        (forall c' e', In c' cs -> expirationDate c' = Some e' ->
                       (e' <? nowSeconds nowMs)%js = false) ->
        In c cs -> expirationDate c = Some e ->
        (nowSeconds nowMs <=? e)%js = true ->
        (e <? expirySoonThreshold m nowMs)%js = true ->
        exists r, validateCookies iso m nowMs (JsArray cs) = Normal r /\
                  expiringSoon r = true /\ valid r = true).
Proof.
  intros H.
  destruct (H Sample.toISOString Fixture.patient Sample.nowMs
              [Fixture.far] Fixture.far (Num.ofZ 10000000000000000))
    as (r & Hr & _).
  - reflexivity.
  - intros c' e' [<-|[]] [= <-]. reflexivity.
  - now left.
  - reflexivity.
  - reflexivity.
  - reflexivity.
  - vm_compute in Hr. discriminate.
Qed.

(** A date that is not after a date below the threshold is below the
    threshold. *)
Lemma lt_below (a b t : number) :
  Num.truthy a = true -> (b <? a)%js = false -> (b <? t)%js = true ->
  (a <? t)%js = true.
Proof.
  destruct a as [| | |x], b as [| | |y], t as [| | |z]; cbn;
    try congruence; try reflexivity.
  intros _ Hyx Hyz. apply Qltb_lt in Hyz. apply Qltb_lt.
  apply negb_false_iff, Qle_bool_iff in Hyx.
  eapply Qle_lt_trans; eauto.
Qed.

(** A truthy date in the window, with no cookie before [now] and every
    date below the threshold within the range of [Date]. *)
Lemma validate_expiring_soon_truthy (iso : Z -> string) (m : CookieManager)
    (nowMs : Z) (cs : list Cookie) (c : Cookie) (e : number) :
  (forall c' e', In c' cs -> expirationDate c' = Some e' ->
                 (e' <? nowSeconds nowMs)%js = false) ->
  (forall c' e', In c' cs -> expirationDate c' = Some e' ->
                 (e' <? expirySoonThreshold m nowMs)%js = true ->
                 newDate (e' * Num.ofZ 1000)%js <> InvalidDate) ->
  In c cs ->
  expirationDate c = Some e ->
  Num.truthy e = true ->
  (e <? expirySoonThreshold m nowMs)%js = true ->
  exists r, validateCookies iso m nowMs (JsArray cs) = Normal r /\
            expiringSoon r = true /\ valid r = true.
Proof.
  intros Hnone Hdates Hin He Ht Hlt.
  assert (Hne : cs <> []) by (intros ->; destruct Hin).
  assert (Hs : scanSoon (fold_left (scanCookie (nowSeconds nowMs)
                                      (expirySoonThreshold m nowMs)) cs
                           (mkScan false false Num.PosInf)) = true).
  { apply (fold_soon_hit _ _ cs _ c e); auto. apply (Hnone c e); auto. }
  assert (Hx : scanExpired (fold_left (scanCookie (nowSeconds nowMs)
                                         (expirySoonThreshold m nowMs)) cs
                              (mkScan false false Num.PosInf)) = false).
  { rewrite fold_expired_keep; [reflexivity|exact Hnone]. }
  destruct (validate_flags iso m nowMs cs Hne)
    as [(_ & _ & Hnear & _)|(_ & msg & Hrun)].
  - exfalso.
    destruct (scan_nearest (nowSeconds nowMs) (expirySoonThreshold m nowMs) cs)
      as [[Hinf|(c0 & e0 & Hin0 & He0 & Ht0 & Hn)] Hmin].
    + rewrite Hinf in Hnear. discriminate.
    + rewrite Hn in Hnear, Hmin.
      assert (Hd : newDate (e0 * Num.ofZ 1000)%js = InvalidDate)
        by (destruct e0; congruence).
      apply (Hdates c0 e0 Hin0 He0); [|exact Hd].
      exact (lt_below e0 e _ Ht0 (Hmin c e Hin He Ht) Hlt).
  - eexists. split; [exact Hrun|]. cbn. now rewrite Hs, Hx.
Qed.

(** C2, amended: with the clock at least one second past the epoch, for
    every array of cookies in which no cookie's [expirationDate] is before
    the current time, every [expirationDate] below the threshold (the
    current time plus [refreshBeforeExpiry]) is within the range of
    [Date], and at least one cookie's [expirationDate] lies between the
    current time and the threshold, [validateCookies] returns
    [expiringSoon = true] and [valid = true]. *)
Theorem validate_expiring_soon (iso : Z -> string) (m : CookieManager)
    (nowMs : Z) (cs : list Cookie) (c : Cookie) (e : number) :
  (Num.ofZ 1 <=? nowSeconds nowMs)%js = true ->
  (forall c' e', In c' cs -> expirationDate c' = Some e' ->
                 (e' <? nowSeconds nowMs)%js = false) ->
  (forall c' e', In c' cs -> expirationDate c' = Some e' ->
                 (e' <? expirySoonThreshold m nowMs)%js = true ->
                 newDate (e' * Num.ofZ 1000)%js <> InvalidDate) ->
  In c cs ->
  expirationDate c = Some e ->
  (nowSeconds nowMs <=? e)%js = true ->
  (e <? expirySoonThreshold m nowMs)%js = true ->
  exists r, validateCookies iso m nowMs (JsArray cs) = Normal r /\
            expiringSoon r = true /\ valid r = true.
Proof.
  intros Hclock Hnone Hdates Hin He Hge Hlt.
  apply (validate_expiring_soon_truthy iso m nowMs cs c e); auto.
  exact (truthy_above _ e Hclock Hge).
Qed.

Lemma validate_expiring_soon_witness :
  exists r,
    validateCookies Sample.toISOString Sample.manager Sample.nowMs
      (JsArray [Sample.fresh; Sample.closing; Sample.sessionOnly]) = Normal r /\
    expiringSoon r = true /\ valid r = true.
Proof.
  apply (validate_expiring_soon Sample.toISOString Sample.manager Sample.nowMs
           [Sample.fresh; Sample.closing; Sample.sessionOnly]
           Sample.closing (Num.ofZ 1700001800)).
  - reflexivity.
  - intros c' e' [<-|[<-|[<-|[]]]] [= <-]; reflexivity.
  - intros c' e' [<-|[<-|[<-|[]]]] [= <-] _; vm_compute; discriminate.
  - right; left; reflexivity.
  - reflexivity.
  - reflexivity.
  - reflexivity.
Defined.

(** C3, as the specification words it, does not hold: the message of the
    result for an empty array is "No cookies provided". *)
Lemma validate_nothing_message_fails :
  ~ (forall (iso : Z -> string) (m : CookieManager) (nowMs : Z) (v : JsValue),
        isArray v = false \/ v = JsArray [] ->
        exists r, validateCookies iso m nowMs v = Normal r /\
                  valid r = false /\ message r = "No credentials provided").
Proof.
  intros H.
  destruct (H Sample.toISOString Sample.manager Sample.nowMs (JsArray []))
    as (r & Hr & _ & Hm).
  - now right.
  - cbn in Hr. injection Hr as <-. discriminate.
Qed.

(** C3, amended: [validateCookies] applied to an empty array, to null or
    to any other value that is not an array returns, without raising, the
    result with [valid = false], [expired = false], [expiringSoon = false]
    and the message "No cookies provided". *)
Theorem validate_nothing (iso : Z -> string) (m : CookieManager) (nowMs : Z)
    (v : JsValue) :
  isArray v = false \/ v = JsArray [] ->
  validateCookies iso m nowMs v =
    Normal {| valid := false; expired := false; expiringSoon := false;
              nearestExpiry := NearestMissing; message := "No cookies provided" |}.
Proof.
  intros [H| ->]; [|reflexivity].
  destruct v; try reflexivity. discriminate.
Qed.

Lemma validate_nothing_witness :
  validateCookies Sample.toISOString Sample.manager Sample.nowMs JsNull =
    Normal {| valid := false; expired := false; expiringSoon := false;
              nearestExpiry := NearestMissing; message := "No cookies provided" |}.
Proof.
  apply validate_nothing. left. reflexivity.
Defined.

(* ================================================================== *)
(** * Reasoning about runs of the manager's methods *)
(* ================================================================== *)

Lemma follows_refl (p : string) (s : State) : follows p s s.
Proof.
  intros H. split; [exact H|]. exists []. split; [now rewrite app_nil_r|constructor].
Qed.

Lemma follows_trans (p : string) (s1 s2 s3 : State) :
  follows p s1 s2 -> follows p s2 s3 -> follows p s1 s3.
Proof.
  intros H12 H23 Hp.
  destruct (H12 Hp) as (Hp2 & evs1 & Ht1 & Hf1).
  destruct (H23 Hp2) as (Hp3 & evs2 & Ht2 & Hf2).
  split; [exact Hp3|]. exists (evs1 ++ evs2). split.
  - rewrite Ht2, Ht1. now rewrite app_assoc.
  - apply Forall_app. now split.
Qed.

(** A step that leaves the manager alone and adds one allowed event. *)
Lemma follows_emit (p : string) (m : CookieManager) (w : World) (ev : Event) :
  (cookiesPath m = p -> emitted p ev) ->
  follows p (mkState m w) (mkState m (emit ev w)).
Proof.
  intros Hev Hp. split; [exact Hp|]. exists [ev]. split; [reflexivity|].
  constructor; [apply Hev, Hp|constructor].
Qed.

(** A step that changes neither the path nor the trace. *)
Lemma follows_quiet (p : string) (s s' : State) :
  cookiesPath (this s') = cookiesPath (this s) ->
  trace (world s') = trace (world s) ->
  follows p s s'.
Proof.
  intros Hpath Htrace Hp. split; [congruence|].
  exists []. split; [now rewrite app_nil_r|constructor].
Qed.

Section Respects.

Variable p : string.

Let R := follows p.

Lemma respects_ret {A} (a : A) : respects R (ret a).
Proof. intros s. apply follows_refl. Qed.

Lemma respects_raise {A} (e : JsError) : respects R (@raise A e).
Proof. intros s. apply follows_refl. Qed.

Lemma respects_step (r : option JsError) : respects R (step r).
Proof. destruct r; [apply respects_raise|apply respects_ret]. Qed.

Lemma respects_lift {A} (c : Completion A) : respects R (lift c).
Proof. destruct c; [apply respects_ret|apply respects_raise]. Qed.

Lemma respects_bind {A B} (m : M A) (k : A -> M B) :
  respects R m -> (forall a, respects R (k a)) -> respects R (bind m k).
Proof.
  intros Hm Hk s. unfold bind. specialize (Hm s).
  destruct (m s) as [[a|e] s1]; cbn in *; [|exact Hm].
  eapply follows_trans; [exact Hm|apply Hk].
Qed.

Lemma respects_tryCatch {A} (body : M A) (handler : JsError -> M A) :
  respects R body -> (forall e, respects R (handler e)) ->
  respects R (tryCatch body handler).
Proof.
  intros Hb Hh s. unfold tryCatch. specialize (Hb s).
  destruct (body s) as [[a|e] s1]; cbn in *; [exact Hb|].
  eapply follows_trans; [exact Hb|apply Hh].
Qed.

Lemma respects_tryFinally {A} (body : M A) (final : M unit) :
  respects R body -> respects R final -> respects R (tryFinally body final).
Proof.
  intros Hb Hf s. unfold tryFinally. specialize (Hb s).
  destruct (body s) as [r s1]. specialize (Hf s1).
  destruct (final s1) as [[u|e] s2]; cbn in *;
    eapply follows_trans; eauto.
Qed.

Lemma respects_getThis_bind {A} (k : CookieManager -> M A) :
  (forall s, R s (snd (k (this s) s))) -> respects R (bind getThis k).
Proof. intros H s. apply H. Qed.

Lemma respects_getWorld_bind {A} (k : World -> M A) :
  (forall s, R s (snd (k (world s) s))) -> respects R (bind getWorld k).
Proof. intros H s. apply H. Qed.

Lemma respects_getThis : respects R getThis.
Proof. intros s. apply follows_refl. Qed.

Lemma respects_getWorld : respects R getWorld.
Proof. intros s. apply follows_refl. Qed.

Lemma respects_log (ev : Event) :
  emitted p ev -> respects R (log ev).
Proof. intros H [m w]. apply follows_emit. auto. Qed.

End Respects.

Lemma bind_normal {A B} (m : M A) (k : A -> M B) (s s1 : State) (a : A) :
  m s = (Normal a, s1) -> bind m k s = k a s1.
Proof. intros H. unfold bind. now rewrite H. Qed.

(** [loadCookies] never raises, leaves the world as it is, and changes
    the manager only by storing a string source as its path. *)
Lemma loadCookies_run (source : JsValue) (s : State) :
  exists v,
    loadCookies source s =
      (Normal v,
       mkState match source with
               | JsString p => setCookiesPath p (this s)
               | _ => this s
               end (world s)).
Proof.
  destruct s as [m w].
  destruct source as [| |p| |cs]; cbn;
    unfold loadCookies, tryCatch, bind, getThis, getWorld, modifyThis, ret; cbn;
    try (destruct (files w !! _) as [[[| |q| |l]|e|e]|]; cbn; eauto; fail).
  eauto.
Qed.

Lemma loadCookies_own_path (s : State) :
  exists v, loadCookies (JsString (cookiesPath (this s))) s = (Normal v, s).
Proof.
  destruct (loadCookies_run (JsString (cookiesPath (this s))) s) as (v & H).
  exists v. rewrite H. f_equal. destruct s as [[] w]. reflexivity.
Qed.

Ltac run_step :=
  unfold saveCookies, writeFile, notifyRefreshError, notifyCookiesUpdated,
    loadPuppeteer, tryCatch, tryFinally, bind, getThis, getWorld, modifyThis,
    modifyWorld, log, step, lift, raise, ret; cbn.

Lemma saveCookies_follows (p : string) (cookies : list Cookie) :
  respects (follows p) (saveCookies cookies).
Proof.
  intros [m w]. run_step.
  destruct (writeError w (cookiesPath m)); cbn.
  - apply follows_emit. intros Hp. exact Hp.
  - eapply follows_trans.
    + apply (follows_emit p m w (EvWriteFile (cookiesPath m) cookies true)).
      intros Hp. exact Hp.
    + apply follows_quiet; reflexivity.
Qed.

Lemma notifyRefreshError_follows (p : string) (e : JsError) :
  respects (follows p) (notifyRefreshError e).
Proof.
  intros [m w]. run_step.
  destruct (onRefreshError m) as [cb|]; cbn; [|apply follows_refl].
  destruct (cb e); cbn; apply follows_emit; intros _; exact I.
Qed.

Lemma notifyCookiesUpdated_follows (p : string) (cookies : list Cookie) :
  respects (follows p) (notifyCookiesUpdated cookies).
Proof.
  intros [m w]. run_step.
  destruct (onCookiesUpdated m) as [cb|]; cbn; [|apply follows_refl].
  destruct (cb cookies); cbn; apply follows_emit; intros _; exact I.
Qed.

Lemma loadPuppeteer_follows (p : string) : respects (follows p) loadPuppeteer.
Proof.
  unfold loadPuppeteer. apply respects_getThis_bind. intros s.
  destruct (puppeteer (this s)); [apply respects_ret|].
  apply respects_tryCatch.
  - apply respects_getWorld_bind. intros [m w]. run_step.
    destruct (requirePuppeteer w); cbn; [apply follows_refl|].
    apply follows_quiet; reflexivity.
  - intros e. apply respects_bind; [apply notifyRefreshError_follows|].
    intros _. apply respects_ret.
Qed.

Lemma injectExisting_follows (p : string) (run : Session) :
  respects (follows p) (injectExisting run).
Proof.
  intros s. unfold injectExisting, tryCatch, bind, getThis. cbn.
  destruct (loadCookies_own_path s) as (v & ->).
  destruct v as [| |[|a t]| |[|c cs]]; cbn; try apply follows_refl.
  destruct s as [m w]. run_step.
  destruct (sSetCookie run); cbn; apply follows_emit; intros _; exact I.
Qed.

Lemma waitForLogin_follows (p : string) (polls : list (Completion bool)) :
  respects (follows p) (waitForLogin polls).
Proof.
  induction polls as [|poll rest IH]; cbn; [apply respects_ret|].
  apply respects_bind; [apply respects_lift|].
  intros [|]; [apply respects_ret|exact IH].
Qed.

Lemma refreshSession_follows (p : string) (run : Session) :
  respects (follows p) (refreshSession run).
Proof.
  unfold refreshSession.
  apply respects_bind; [apply respects_getThis|]. intros m.
  apply respects_bind; [now apply respects_log|]. intros _.
  apply respects_bind; [apply respects_step|]. intros _.
  apply respects_tryFinally.
  - apply respects_bind; [apply respects_step|]. intros _.
    apply respects_bind; [apply respects_step|]. intros _.
    apply respects_bind; [apply injectExisting_follows|]. intros _.
    apply respects_bind; [now apply respects_log|]. intros _.
    apply respects_bind; [apply respects_step|]. intros _.
    apply respects_bind; [apply respects_lift|]. intros isLoggedIn.
    apply respects_bind.
    { destruct (negb isLoggedIn && negb (headless m));
        [apply waitForLogin_follows|apply respects_ret]. }
    intros _.
    apply respects_bind; [apply respects_lift|]. intros freshCookies.
    apply respects_bind; [apply saveCookies_follows|]. intros _.
    apply respects_bind; [apply notifyCookiesUpdated_follows|]. intros _.
    apply respects_ret.
  - apply respects_bind; [now apply respects_log|]. intros _.
    apply respects_step.
Qed.

(** What [refreshCookies] does after the entry mark. *)
Lemma refreshCookies_run (s : State) :
  exists r s',
    refreshCookies s = (r, s') /\
    follows (cookiesPath (this s)) (mkState (this s) (emit EvRefreshCookies (world s))) s'.
Proof.
  unfold refreshCookies at 1. unfold bind at 1. unfold log, modifyWorld. cbn.
  match goal with |- context [tryCatch ?b ?h ?st] =>
    pose proof (respects_tryCatch (cookiesPath (this s)) b h) as H;
    destruct (tryCatch b h st) as [r s'] eqn:E end.
  exists r, s'. split; [reflexivity|].
  replace s' with (snd (r, s')) by reflexivity. rewrite <- E. apply H.
  - apply respects_bind; [apply loadPuppeteer_follows|]. intros [|].
    + apply respects_bind; [apply respects_getWorld|]. intros w.
      apply refreshSession_follows.
    + apply respects_ret.
  - intros e. apply respects_bind; [apply notifyRefreshError_follows|].
    intros _. apply respects_ret.
Qed.

(** Counting the entries into [refreshCookies] over a trace. *)
Lemma count_app (test : Event -> bool) (t1 t2 : list Event) :
  count test (t1 ++ t2) = (count test t1 + count test t2)%nat.
Proof. unfold count. now rewrite List.filter_app, length_app. Qed.


Lemma emitted_writesTo (p : string) (evs : list Event) :
  Forall (emitted p) evs -> Forall (writesTo p) evs.
Proof.
  intros Hall. eapply Forall_impl; [exact Hall|].
  intros [] H; cbn in *; auto.
Qed.


(* ================================================================== *)
(** * [refreshCookies] without the automation driver *)
(* ================================================================== *)

(** C4, as the specification words it, does not hold for every registered
    callback: when the callback itself raises, the exception leaves the
    inner [catch], the outer [catch] calls the callback a second time, and
    the second exception rejects the promise of [refreshCookies].  With
    [Sample.failing] registered the call raises instead of returning
    [null]. *)
Lemma refresh_without_driver_any_callback_fails :
  ~ (forall (m : CookieManager) (w : World) (cb : Callback JsError) (err : JsError),
        puppeteer m = false ->
        requirePuppeteer w = Some err ->
        onRefreshError m = Some cb ->
        let r := refreshCookies (mkState m w) in
        fst r = Normal None /\
        count isOnRefreshError (trace (world (snd r))) =
          S (count isOnRefreshError (trace w)) /\
        count isWriteFile (trace (world (snd r))) = count isWriteFile (trace w) /\
        files (world (snd r)) = files w).
Proof.
  intros H.
  destruct (H (Sample.withOnRefreshError Sample.failing Sample.manager)
              Sample.world Sample.failing Sample.moduleNotFound
              eq_refl eq_refl eq_refl) as (Hr & _).
  vm_compute in Hr. discriminate.
Qed.

(** With the raising callback the callback is called twice. *)
Example refresh_failing_callback_twice :
  let r := refreshCookies
             (mkState (Sample.withOnRefreshError Sample.failing Sample.manager)
                      Sample.world) in
  fst r = Throw (mkError "Error" "callback failed") /\
  trace (world (snd r)) =
    [EvRefreshCookies; EvOnRefreshError notInstalled;
     EvOnRefreshError (mkError "Error" "callback failed")].
Proof. split; reflexivity. Qed.

(** C4, amended: when [require('puppeteer')] fails and the registered
    [onRefreshError] callback returns normally, [refreshCookies] returns
    [null] without raising, calls the callback exactly once (with the
    error "Puppeteer not installed"), never calls [saveCookies] and leaves
    the files and the manager as they were. *)
Theorem refresh_without_driver (m : CookieManager) (w : World)
    (cb : Callback JsError) (err : JsError) :
  puppeteer m = false ->
  requirePuppeteer w = Some err ->
  onRefreshError m = Some cb ->
  cb notInstalled = Normal tt ->
  let r := refreshCookies (mkState m w) in
  fst r = Normal None /\
  this (snd r) = m /\
  files (world (snd r)) = files w /\
  trace (world (snd r)) =
    trace w ++ [EvRefreshCookies; EvOnRefreshError notInstalled].
Proof.
  intros Hp Hreq Hcb Hret.
  unfold refreshCookies, loadPuppeteer. run_step.
  rewrite Hp. cbn. rewrite Hreq. cbn. rewrite Hcb. cbn. rewrite Hret. cbn.
  repeat split. now rewrite <- app_assoc.
Qed.

Lemma refresh_without_driver_witness :
  let r := refreshCookies
             (mkState (Sample.withOnRefreshError Sample.quiet Sample.manager)
                      Sample.world) in
  fst r = Normal None /\
  this (snd r) = Sample.withOnRefreshError Sample.quiet Sample.manager /\
  files (world (snd r)) = files Sample.world /\
  trace (world (snd r)) =
    trace Sample.world ++ [EvRefreshCookies; EvOnRefreshError notInstalled].
Proof.
  apply (refresh_without_driver
           (Sample.withOnRefreshError Sample.quiet Sample.manager)
           Sample.world Sample.quiet Sample.moduleNotFound);
    reflexivity.
Defined.

(** Without a registered callback the method also returns [null], and
    nothing is called. *)
Lemma refresh_without_driver_no_callback (m : CookieManager) (w : World) (err : JsError) :
  puppeteer m = false ->
  requirePuppeteer w = Some err ->
  onRefreshError m = None ->
  refreshCookies (mkState m w) = (Normal None, mkState m (emit EvRefreshCookies w)).
Proof.
  intros Hp Hreq Hcb.
  unfold refreshCookies, loadPuppeteer. run_step.
  rewrite Hp. cbn. rewrite Hreq. cbn. rewrite Hcb. reflexivity.
Qed.

(* ================================================================== *)
(** * The periodic refresh *)
(* ================================================================== *)

(** A tick, once the cookies are loaded: the validation decides, and a
    validation that raises ends the tick. *)
Lemma autoRefreshTick_run (iso : Z -> string) (nowMs : Z) (s : State)
    (cookies : JsValue) :
  loadCookies (JsString (cookiesPath (this s))) s = (Normal cookies, s) ->
  autoRefreshTick iso nowMs s =
    match validateCookies iso (this s) nowMs cookies with
    | Normal validation =>
        if negb (valid validation) || expiringSoon validation
        then (Normal tt, snd (refreshCookies s))
        else (Normal tt, s)
    | Throw _ => (Normal tt, s)
    end.
Proof.
  intros Hload. unfold autoRefreshTick, tryCatch.
  rewrite (bind_normal getThis _ s s (this s) eq_refl).
  rewrite (bind_normal _ _ s s cookies Hload).
  rewrite (bind_normal getThis _ s s (this s) eq_refl).
  destruct (validateCookies iso (this s) nowMs cookies) as [v|e]; [|reflexivity].
  rewrite (bind_normal (lift (Normal v)) _ s s v eq_refl).
  destruct (negb _ || _); [|reflexivity].
  unfold bind. now destruct (refreshCookies s) as [[r|e] s1].
Qed.


(** A tick on valid cookies, and a tick a year later on the same file. *)
Example tick_skips_valid_cookies :
  autoRefreshTick Sample.toISOString Sample.nowMs
    (mkState Sample.manager Sample.worldWithDriver)
  = (Normal tt, mkState Sample.manager Sample.worldWithDriver).
Proof. reflexivity. Qed.

(** A tick on a cookie file for which the validation raises: the tick
    ends there, and no refresh is tried. *)
Example tick_without_a_valid_date :
  let w := {| files := {[ "cookies.json" := FileJson (JsArray [Fixture.far]) ]};
              writeError := fun _ => None;
              requirePuppeteer := None;
              browserRun := Sample.run;
              trace := [] |} in
  autoRefreshTick Sample.toISOString Sample.nowMs (mkState Fixture.patient w)
  = (Normal tt, mkState Fixture.patient w).
Proof. reflexivity. Qed.

Example tick_refreshes_expired_cookies :
  refreshCalls (snd (autoRefreshTick Sample.toISOString 1731536001000
                       (mkState Sample.manager Sample.worldWithDriver))) = 1%nat.
Proof. reflexivity. Qed.

(* ================================================================== *)
(** * [loadCookies] and the path of later saves *)
(* ================================================================== *)

(** [saveCookies] makes one write, to the manager's path. *)
Lemma saveCookies_run (cookies : list Cookie) (s : State) :
  exists ok,
    fst (saveCookies cookies s) = Normal ok /\
    this (snd (saveCookies cookies s)) = this s /\
    trace (world (snd (saveCookies cookies s))) =
      trace (world s) ++ [EvWriteFile (cookiesPath (this s)) cookies ok] /\
    files (world (snd (saveCookies cookies s))) =
      if ok then <[cookiesPath (this s) := FileJson (JsArray (map jsonCookie cookies))]>
                   (files (world s))
      else files (world s).
Proof.
  destruct s as [m w]. run_step.
  destruct (writeError w (cookiesPath m)); cbn;
    [exists false|exists true]; repeat split.
Qed.

(** C10: [loadCookies] with a string [p] stores [p] as the manager's
    [cookiesPath] and changes no other field of the manager (nor the
    world); with an array it changes nothing.  After the call with [p],
    [saveCookies] writes to [p], and a run of [refreshCookies] keeps [p]
    as the path and writes to no other file. *)
Theorem loadCookies_sets_path (p : string) (s : State) :
  let s1 := mkState (setCookiesPath p (this s)) (world s) in
  (exists v, loadCookies (JsString p) s = (Normal v, s1)) /\
  (cookiesPath (this s1) = p /\
   refreshInterval (this s1) = refreshInterval (this s) /\
   refreshBeforeExpiry (this s1) = refreshBeforeExpiry (this s) /\
   autoRefresh (this s1) = autoRefresh (this s) /\
   headless (this s1) = headless (this s) /\
   refreshTimer (this s1) = refreshTimer (this s) /\
   onCookiesUpdated (this s1) = onCookiesUpdated (this s) /\
   onRefreshError (this s1) = onRefreshError (this s) /\
   puppeteer (this s1) = puppeteer (this s)) /\
  (forall cs, loadCookies (JsArray cs) s = (Normal (JsArray cs), s)) /\
  (forall cookies, exists ok,
     fst (saveCookies cookies s1) = Normal ok /\
     trace (world (snd (saveCookies cookies s1))) =
       trace (world s) ++ [EvWriteFile p cookies ok] /\
     files (world (snd (saveCookies cookies s1))) =
       if ok then <[p := FileJson (JsArray (map jsonCookie cookies))]> (files (world s))
       else files (world s)) /\
  (exists evs,
     trace (world (snd (refreshCookies s1))) = trace (world s) ++ evs /\
     Forall (writesTo p) evs /\
     cookiesPath (this (snd (refreshCookies s1))) = p).
Proof.
  cbn zeta. split; [|split; [|split; [|split]]].
  - exact (loadCookies_run (JsString p) s).
  - cbn. repeat split.
  - intros cs. reflexivity.
  - intros cookies.
    destruct (saveCookies_run cookies (mkState (setCookiesPath p (this s)) (world s)))
      as (ok & Hr & _ & Ht & Hf).
    exists ok. repeat split; assumption.
  - destruct (refreshCookies_run (mkState (setCookiesPath p (this s)) (world s)))
      as (r & s' & -> & Hf).
    destruct (Hf eq_refl) as (Hp & evs & Ht & Hall). cbn in Hp, Ht.
    exists (EvRefreshCookies :: evs). cbn. repeat split.
    + rewrite Ht. now rewrite <- app_assoc.
    + constructor; [exact I|]. now apply emitted_writesTo.
    + exact Hp.
Qed.

(** A refresh that succeeds after [loadCookies("other.json")] saves the
    fresh cookies to "other.json", not to the path given at construction. *)
Example refresh_saves_to_loaded_path :
  let s1 := snd (loadCookies (JsString "other.json")
                   (mkState Sample.manager Sample.worldWithDriver)) in
  let r := refreshCookies s1 in
  fst r = Normal (Some [formatCookie Sample.pageCookie]) /\
  trace (world (snd r)) =
    [EvRefreshCookies; EvLaunch true; EvGoto "https://music.youtube.com";
     EvWriteFile "other.json" [formatCookie Sample.pageCookie] true; EvClose] /\
  files (world (snd r)) !! "cookies.json" = Some (FileJson (JsArray [Sample.fresh])).
Proof. vm_compute. repeat split. Qed.

(* ================================================================== *)
(** * [processPlaylistTracks]: the two modes *)
(* ================================================================== *)

Section Tracks.

Import Plugin.

Variable up : Upstream.
Variable o : ResolveOptions.

Lemma filterBoolean_map (l : list (option Track)) :
  filterBoolean (map (processTrack up o) l) = omap (processTrack up o) l.
Proof.
  induction l as [|t l IH]; [reflexivity|].
  cbn. destruct (processTrack up o t); cbn; now rewrite IH.
Qed.

Lemma sequential_fold (l : list (option Track)) (acc : list Song) :
  fold_left
    (fun acc track =>
       match processTrack up o track with
       | Some song => acc ++ [song]
       | None => acc
       end) l acc
  = acc ++ omap (processTrack up o) l.
Proof.
  revert acc. induction l as [|t l IH]; intros acc; cbn.
  - now rewrite app_nil_r.
  - rewrite IH. destruct (processTrack up o t); [|reflexivity].
    now rewrite <- app_assoc.
Qed.

Lemma processPlaylistTracks_omap (this : YouTubeMusicPlugin) (l : list (option Track)) :
  processPlaylistTracks up this l o = omap (processTrack up o) l.
Proof.
  unfold processPlaylistTracks. destruct (parallel (options this)).
  - apply filterBoolean_map.
  - apply sequential_fold.
Qed.

Lemma length_omap_le {A B} (f : A -> option B) (l : list A) :
  (length (omap f l) <= length l)%nat.
Proof.
  induction l as [|a l IH]; cbn; [lia|]. destruct (f a); cbn; lia.
Qed.

(** When [processTrack] drops a track. *)
Lemma processTrack_none (track : option Track) :
  processTrack up o track = None <->
  track = None \/
  exists t, track = Some t /\
    (videoId t = None \/ videoId t = Some "" \/
     exists vid, videoId t = Some vid /\ songError up (trackInfo vid t o) <> None).
Proof.
  unfold processTrack, newSong. split.
  - destruct track as [t|]; [|now left]. intros H. right. exists t. split; [reflexivity|].
    destruct (videoId t) as [vid|]; [|now left]. right.
    destruct (String.eqb_spec vid ""); [left; congruence|].
    right. exists vid. split; [reflexivity|].
    destruct (songError up (trackInfo vid t o)); [discriminate|discriminate].
  - intros [->|(t & -> & [H|[H|(vid & H & Herr)]])]; try reflexivity;
      rewrite H; try reflexivity.
    destruct (String.eqb vid ""); [reflexivity|].
    destruct (songError up (trackInfo vid t o)); [reflexivity|congruence].
Qed.

End Tracks.

(** C8: for every track list and every options object, the concurrent
    mode ([parallel] set) and the sequential mode of
    [processPlaylistTracks] return the same list of songs: the songs of
    the tracks that convert, in the order of the input; a track is dropped,
    in both modes, exactly when it is missing, has no [videoId], or its
    conversion raises. *)
Theorem processPlaylistTracks_modes_agree (up : Plugin.Upstream)
    (this : Plugin.YouTubeMusicPlugin) (l : list (option Plugin.Track))
    (o : Plugin.ResolveOptions) :
  Plugin.processPlaylistTracks up (Plugin.setParallel true this) l o =
    Plugin.processPlaylistTracks up (Plugin.setParallel false this) l o /\
  Plugin.processPlaylistTracks up this l o = omap (Plugin.processTrack up o) l /\
  (forall track,
     Plugin.processTrack up o track = None <->
     track = None \/
     exists t, track = Some t /\
       (Plugin.videoId t = None \/ Plugin.videoId t = Some "" \/
        exists vid, Plugin.videoId t = Some vid /\
                    Plugin.songError up (Plugin.trackInfo vid t o) <> None)).
Proof.
  split; [|split].
  - now rewrite !processPlaylistTracks_omap.
  - apply processPlaylistTracks_omap.
  - apply processTrack_none.
Qed.

(* ================================================================== *)
(** * [resolve]: the cap on a collection *)
(* ================================================================== *)

Lemma sliceFromStart_prefix {A} (l : list A) (stop : option number) :
  Plugin.sliceFromStart l stop `prefix_of` l.
Proof. unfold Plugin.sliceFromStart. apply prefix_take. Qed.

(** The integer part of a rational that is not negative is below it. *)
Lemma truncate_le (q : Q) : (0 <= q)%Q -> (inject_Z (Plugin.truncate q) <= q)%Q.
Proof.
  intros H. destruct q as [n d]. unfold Plugin.truncate. cbn [Qnum Qden].
  assert (Hn : 0 <= n) by (revert H; unfold Qle; cbn; lia).
  rewrite Z.quot_div_nonneg by lia.
  apply (Qfloor_le (n # d)).
Qed.

Lemma truncate_nonneg (q : Q) : (0 <= q)%Q -> 0 <= Plugin.truncate q.
Proof.
  intros H. destruct q as [n d]. unfold Plugin.truncate. cbn [Qnum Qden].
  assert (Hn : 0 <= n) by (revert H; unfold Qle; cbn; lia).
  apply Z.quot_pos; lia.
Qed.

(** With a cap that is not negative, the slice is no longer than the
    cap. *)
Lemma sliceFromStart_bound {A} (l : list A) (cap : number) :
  (Num.ofZ 0 <=? cap)%js = true ->
  (Num.ofZ (Z.of_nat (length (Plugin.sliceFromStart l (Some cap)))) <=? cap)%js = true.
Proof.
  destruct cap as [| | |q]; cbn; try congruence.
  intros H. apply Qle_bool_iff in H. apply Qle_bool_iff.
  pose proof (truncate_nonneg q H) as Hk.
  pose proof (truncate_le q H) as Hq.
  unfold Plugin.sliceFromStart.
  destruct (Z.ltb_spec (Plugin.truncate q) 0) as [Hneg|_]; [lia|].
  eapply Qle_trans; [|exact Hq].
  rewrite <- Zle_Qle. rewrite length_take. lia.
Qed.

(** With a cap that is not negative, the slice holds the first tracks of
    the list, as many as the whole part of the cap, and the whole list
    when it is shorter or the cap is infinite. *)
Lemma sliceFromStart_exact {A} (l : list A) (cap : number) :
  (Num.ofZ 0 <=? cap)%js = true ->
  Plugin.sliceFromStart l (Some cap) =
    match cap with
    | Num.Fin q => firstn (Z.to_nat (Qfloor q)) l
    | _ => l
    end.
Proof.
  destruct cap as [| | |q]; cbn [Num.le Num.ofZ]; try congruence.
  - intros _. unfold Plugin.sliceFromStart. rewrite Nat2Z.id. apply firstn_all.
  - intros H. apply Qle_bool_iff in H.
    pose proof (truncate_nonneg q H) as Hk.
    assert (Hfloor : Plugin.truncate q = Qfloor q).
    { destruct q as [n d]. unfold Plugin.truncate, Qfloor. cbn [Qnum Qden].
      assert (Hn : 0 <= n) by (revert H; unfold Qle; cbn; lia).
      apply Z.quot_div_nonneg; lia. }
    unfold Plugin.sliceFromStart. rewrite <- Hfloor.
    destruct (Z.ltb_spec (Plugin.truncate q) 0) as [Hneg|_]; [lia|].
    destruct (Z.le_gt_cases (Plugin.truncate q) (Z.of_nat (length l))) as [Hle|Hgt].
    + now rewrite Z.min_l by exact Hle.
    + rewrite Z.min_r by lia. rewrite Nat2Z.id.
      rewrite firstn_all. symmetry. apply firstn_all2. lia.
Qed.

Lemma le_trans_ofZ (a b : Z) (cap : number) :
  a <= b -> (Num.ofZ b <=? cap)%js = true -> (Num.ofZ a <=? cap)%js = true.
Proof.
  intros Hab. destruct cap as [| | |q]; cbn; try congruence.
  intros H. apply Qle_bool_iff in H. apply Qle_bool_iff.
  eapply Qle_trans; [|exact H]. now rewrite <- Zle_Qle.
Qed.

Section Resolve.

Import Plugin.

Variable up : Upstream.
Variable this : YouTubeMusicPlugin.
Variable link : string.
Variable o : ResolveOptions.

(** What [resolve] does on a link of a collection whose track list was
    fetched: the three cases of the [switch] end in the same way. *)
Lemma resolve_collection (type : IdType) (id : string) (ts : list (option Track)) :
  link <> "" ->
  extractId up link = (type, Some id) ->
  id <> "" ->
  upstreamTracks up type id = Some ts ->
  exists collectionName thumbs unknownName noSongs,
    resolve up this link o =
      match processPlaylistTracks up this
              (sliceFromStart ts (maxViews (options this))) o with
      | [] =>
          Throw (pluginError
                   ("Failed to resolve " ++ typeName type ++ ": " ++ noSongs))
      | converted =>
          let i := {| plSource := "youtube-music";
                      plId := id;
                      plName := orString collectionName unknownName;
                      plUrl := link;
                      plThumbnail := lastThumbnail thumbs;
                      songs := converted;
                      plMember := member o |} in
          match playlistError up i with
          | Some e =>
              Throw (pluginError
                       ("Failed to resolve " ++ typeName type ++ ": " ++
                        orString (Some (errMessage e)) "Unknown error"))
          | None => Normal (ResolvedPlaylist (mkPlaylist i o))
          end
      end /\ noSongs <> "".
Proof.
  intros Hlink Hext Hid Hup.
  apply String.eqb_neq in Hlink. apply String.eqb_neq in Hid.
  unfold resolve. rewrite Hlink, Hext, Hid.
  destruct type; cbn in Hup.
  - destruct (getPlaylist up id) as [[c|]|e]; try discriminate.
    exists (colTitle c), (colThumbnails c), "Unknown Playlist",
      "No playable songs found in playlist".
    split; [|discriminate].
    cbn. unfold collectionFields. rewrite Hup. unfold resolveCollection.
    destruct (processPlaylistTracks _ _ _ _); [reflexivity|].
    unfold newPlaylist, cbind, ctry.
    now destruct (playlistError up _).
  - destruct (getAlbum up id) as [[c|]|e]; try discriminate.
    exists (colTitle c), (colThumbnails c), "Unknown Album",
      "No playable songs found in album".
    split; [|discriminate].
    cbn. unfold collectionFields. rewrite Hup. unfold resolveCollection.
    destruct (processPlaylistTracks _ _ _ _); [reflexivity|].
    unfold newPlaylist, cbind, ctry.
    now destruct (playlistError up _).
  - destruct (getArtist up id) as [[a|]|e]; try discriminate.
    exists (artName a), (artThumbnails a), "Unknown Artist",
      "No playable songs found for artist".
    split; [|discriminate].
    cbn. unfold artistFields. rewrite Hup. unfold resolveCollection.
    destruct (processPlaylistTracks _ _ _ _); [reflexivity|].
    unfold newPlaylist, cbind, ctry.
    now destruct (playlistError up _).
  - discriminate.
Qed.

End Resolve.

(** C7: for every link of a playlist, an album or an artist whose track
    list was fetched, and every cap [maxViews] that is not negative,
    [resolve] truncates the track list to the cap before it converts: the
    slice it converts is exactly the first tracks of the fetched list, as
    many as the whole part of the cap (all of them when the list is
    shorter or the cap is infinite), so at most [maxViews] tracks; a
    returned collection holds exactly the songs converted from the slice,
    so at most [maxViews] songs; and a collection is returned as soon as
    one track of the slice converts and the [Playlist] constructor does
    not raise. *)
Theorem resolve_truncates (up : Plugin.Upstream) (this : Plugin.YouTubeMusicPlugin)
    (link : string) (o : Plugin.ResolveOptions)
    (type : Plugin.IdType) (id : string) (ts : list (option Plugin.Track))
    (cap : number) :
  link <> "" ->
  Plugin.extractId up link = (type, Some id) ->
  id <> "" ->
  Plugin.upstreamTracks up type id = Some ts ->
  Plugin.maxViews (Plugin.options this) = Some cap ->
  (Num.ofZ 0 <=? cap)%js = true ->
  let limited := Plugin.sliceFromStart ts (Some cap) in
  limited = match cap with
            | Num.Fin q => firstn (Z.to_nat (Qfloor q)) ts
            | _ => ts
            end /\
  limited `prefix_of` ts /\
  (Num.ofZ (Z.of_nat (length limited)) <=? cap)%js = true /\
  (forall r, Plugin.resolve up this link o = Normal r ->
     exists pl,
       r = Plugin.ResolvedPlaylist pl /\
       Plugin.songs (Plugin.playlistInfo pl) =
         Plugin.processPlaylistTracks up this limited o /\
       (length (Plugin.songs (Plugin.playlistInfo pl)) <= length limited)%nat /\
       (Num.ofZ (Z.of_nat (length (Plugin.songs (Plugin.playlistInfo pl)))) <=? cap)%js
         = true) /\
  (Plugin.processPlaylistTracks up this limited o <> [] ->
   (forall i, Plugin.playlistError up i = None) ->
   exists pl, Plugin.resolve up this link o = Normal (Plugin.ResolvedPlaylist pl)).
Proof.
  intros Hlink Hext Hid Hup Hmax Hcap. cbn zeta.
  pose proof (sliceFromStart_bound ts _ Hcap) as Hbound.
  destruct (resolve_collection up this link o type id ts Hlink Hext Hid Hup)
    as (cn & th & un & ns & Hres & _).
  rewrite Hmax in Hres.
  split; [exact (sliceFromStart_exact ts cap Hcap)|].
  split; [apply sliceFromStart_prefix|]. split; [exact Hbound|]. split.
  - intros r Hr. rewrite Hres in Hr.
    destruct (Plugin.processPlaylistTracks up this _ o) as [|sg sgs] eqn:Hconv;
      [discriminate|].
    assert (Hlen : (length (sg :: sgs) <=
                    length (Plugin.sliceFromStart ts (Some cap)))%nat).
    { rewrite <- Hconv, processPlaylistTracks_omap. apply length_omap_le. }
    cbn zeta in Hr.
    destruct (Plugin.playlistError up _); [discriminate|].
    injection Hr as <-. eexists. split; [reflexivity|].
    split; [reflexivity|]. split; [exact Hlen|].
    apply Nat2Z.inj_le in Hlen.
    exact (le_trans_ofZ _ _ _ Hlen Hbound).
  - intros Hne Hctor. rewrite Hres.
    destruct (Plugin.processPlaylistTracks up this _ o) as [|sg sgs];
      [congruence|].
    cbn zeta. rewrite Hctor. eauto.
Qed.

Lemma resolve_truncates_witness :
  let cap := Num.ofZ 10 in
  let limited := Plugin.sliceFromStart Sample.fifteen (Some cap) in
  limited = firstn 10 Sample.fifteen /\
  limited `prefix_of` Sample.fifteen /\
  (Num.ofZ (Z.of_nat (length limited)) <=? cap)%js = true /\
  (forall r, Plugin.resolve Sample.upstream Sample.plugin Sample.playlistLink
               Sample.noResolveOptions = Normal r ->
     exists pl,
       r = Plugin.ResolvedPlaylist pl /\
       Plugin.songs (Plugin.playlistInfo pl) =
         Plugin.processPlaylistTracks Sample.upstream Sample.plugin limited
           Sample.noResolveOptions /\
       (length (Plugin.songs (Plugin.playlistInfo pl)) <= length limited)%nat /\
       (Num.ofZ (Z.of_nat (length (Plugin.songs (Plugin.playlistInfo pl)))) <=? cap)%js
         = true) /\
  (Plugin.processPlaylistTracks Sample.upstream Sample.plugin limited
     Sample.noResolveOptions <> [] ->
   (forall i, Plugin.playlistError Sample.upstream i = None) ->
   exists pl, Plugin.resolve Sample.upstream Sample.plugin Sample.playlistLink
                Sample.noResolveOptions = Normal (Plugin.ResolvedPlaylist pl)).
Proof.
  apply (resolve_truncates Sample.upstream Sample.plugin Sample.playlistLink
           Sample.noResolveOptions Plugin.playlist "PL123" Sample.fifteen
           (Num.ofZ 10)).
  - discriminate.
  - reflexivity.
  - discriminate.
  - reflexivity.
  - reflexivity.
  - reflexivity.
Defined.

(** Fifteen tracks upstream and a cap of ten: ten songs come back, those
    of the first ten tracks. *)
Example resolve_fifteen_cap_ten :
  exists pl,
    Plugin.resolve Sample.upstream Sample.plugin Sample.playlistLink
      Sample.noResolveOptions = Normal (Plugin.ResolvedPlaylist pl) /\
    map (fun s => Plugin.songId (Plugin.info s)) (Plugin.songs (Plugin.playlistInfo pl)) =
      ["v01"; "v02"; "v03"; "v04"; "v05"; "v06"; "v07"; "v08"; "v09"; "v10"].
Proof. eexists. split; vm_compute; reflexivity. Qed.

(* ================================================================== *)
(** * [getStreamURL]: the message when no format is found *)
(* ================================================================== *)

(** C9: the code at an input without an audio-only format.  The stream
    client of [Sample.upstream] offers a video-only and a muxed format;
    [chooseFormat] finds none that passes the filter and raises, as its
    contract says.  The plugin's own test, which would report "No suitable
    audio format found", is not reached: the [catch] passes the message of
    the stream client on, and the error of [getStreamURL] does not contain
    the message that the specification names. *)
Theorem getStreamURL_no_audio_only :
  (forall f, In f [Sample.videoOnly; Sample.muxed] -> Plugin.audioOnly f = false) /\
  Plugin.getInfo Sample.upstream
    (Plugin.watchUrl (Plugin.songId (Plugin.info Sample.song))) =
    Normal (Some (Plugin.mkVideoInfo [Sample.videoOnly; Sample.muxed] None)) /\
  Plugin.chooseFormat Sample.upstream [Sample.videoOnly; Sample.muxed]
    (Plugin.mergedCriteria (Plugin.mkYtdlOptions None None)) =
    Throw (mkError "Error" "No such format found: highestaudio") /\
  Plugin.getStreamURL Sample.upstream Sample.plugin (Some Sample.song) =
    Throw (Plugin.pluginError "No such format found: highestaudio") /\
  includes "No suitable audio format found"
    (errMessage (Plugin.pluginError "No such format found: highestaudio")) = false.
Proof.
  split; [|repeat split].
  intros f [<-|[<-|[]]]; reflexivity.
Qed.

(* ================================================================== *)
(** * [convertDurationToSeconds] *)
(* ================================================================== *)

Module DigitFacts.

Import ToNumber.

Lemma isDigit_cases (c : ascii) :
  isDigit c = true ->
  In c ["0"; "1"; "2"; "3"; "4"; "5"; "6"; "7"; "8"; "9"]%char.
Proof.
  destruct c as [[] [] [] [] [] [] [] []]; cbv; intros H; try discriminate;
    repeat (first [left; reflexivity | right]).
Qed.

Ltac digit_cases H :=
  apply isDigit_cases in H; cbn in H;
  repeat (destruct H as [<-|H]; [|]); [..|destruct H].

Lemma digit_not_space (c : ascii) : isDigit c = true -> isSpace c = false.
Proof. intros H. digit_cases H; reflexivity. Qed.

Lemma digit_value (c : ascii) :
  isDigit c = true -> digitOf 10 c = Some (Z.of_N (N_of_ascii c) - 48).
Proof. intros H. digit_cases H; reflexivity. Qed.

Lemma digit_not_colon (c : ascii) : isDigit c = true -> Ascii.eqb c ":" = false.
Proof. intros H. digit_cases H; reflexivity. Qed.

Lemma digit_head (c : ascii) (r : string) :
  isDigit c = true ->
  Ascii.eqb c "-" = false /\ Ascii.eqb c "+" = false /\
  String.eqb (String c r) "Infinity" = false.
Proof. intros H. digit_cases H; repeat split. Qed.

Lemma digit_no_radix (c0 c1 : ascii) (r : string) :
  isDigit c1 = true -> radixPrefix (String c0 (String c1 r)) = None.
Proof.
  intros H. unfold radixPrefix. destruct (Ascii.eqb c0 "0"); [|reflexivity].
  digit_cases H; reflexivity.
Qed.

Lemma readDigits_all (s : string) (acc : Z) (n : nat) :
  allDigits s = true ->
  readDigits 10 s acc n = (decimalFrom acc s, (n + String.length s)%nat, EmptyString).
Proof.
  revert acc n. induction s as [|c s IH]; intros acc n H; cbn.
  - now rewrite Nat.add_0_r.
  - cbn in H. apply andb_true_iff in H as [Hc Hs].
    rewrite (digit_value c Hc). rewrite IH by exact Hs.
    cbn. repeat f_equal. lia.
Qed.

(** A digit starts no white space, so nothing is trimmed off a string of
    digits. *)
Lemma trimStart_digit (c : ascii) (r : string) :
  isDigit c = true -> trimStart (String c r) = String c r.
Proof.
  intros H. cbn [trimStart]. rewrite (digit_not_space c H).
  destruct r as [|d [|e r]]; [reflexivity| |];
    digit_cases H; try reflexivity.
Qed.

Lemma allSpace_digit (c : ascii) (r : string) :
  isDigit c = true -> allSpace (String c r) = false.
Proof. intros H. unfold allSpace. now rewrite (trimStart_digit c r H). Qed.

Lemma trimEnd_digits (s : string) : allDigits s = true -> trimEnd s = s.
Proof.
  induction s as [|c s IH]; intros H; [reflexivity|].
  cbn in H. apply andb_true_iff in H as [Hc Hs].
  cbn [trimEnd]. now rewrite (allSpace_digit c s Hc), (IH Hs).
Qed.

Lemma decimalFrom_nonneg (s : string) (acc : Z) :
  allDigits s = true -> 0 <= acc -> 0 <= decimalFrom acc s.
Proof.
  revert acc. induction s as [|c s IH]; intros acc H Hacc; [exact Hacc|].
  cbn in H. apply andb_true_iff in H as [Hc Hs]. cbn [decimalFrom].
  apply IH; [exact Hs|]. digit_cases Hc; cbn; lia.
Qed.

(** [Number] reads a string of decimal digits as the integer it denotes,
    as long as the integer has at most 53 bits. *)
Lemma Number_digits (s : string) :
  decimalDigits s = true -> decimalValue s <= 2 ^ 53 ->
  Number s = Num.ofZ (decimalValue s).
Proof.
  destruct s as [|c r]; [discriminate|]. cbn [decimalDigits]. intros H Hle.
  pose proof H as Hall. cbn in H. apply andb_true_iff in H as [Hc Hr].
  unfold Number.
  rewrite (trimStart_digit c r Hc).
  rewrite (trimEnd_digits _ Hall).
  assert (Hradix : radixPrefix (String c r) = None).
  { destruct r as [|c1 r']; [reflexivity|].
    cbn in Hr. apply andb_true_iff in Hr as [Hc1 _].
    now apply digit_no_radix. }
  rewrite Hradix.
  destruct (digit_head c r Hc) as (-> & -> & Hinf).
  unfold unsignedDecimal. rewrite Hinf.
  rewrite (readDigits_all _ 0 0%nat Hall). cbn [Nat.add String.length Nat.eqb].
  cbv iota beta.
  pose proof (decimalFrom_nonneg (String c r) 0 Hall ltac:(lia)) as Hpos.
  apply fin_inject_Z.
  - unfold decimalValue.
    change (Qpower (inject_Z 10) (0 - Z.of_nat 0)) with 1%Q.
    apply Qmult_1_r.
  - unfold decimalValue in *. lia.
Qed.

Lemma splitColon_digits (s : string) : allDigits s = true -> splitColon s = [s].
Proof.
  induction s as [|c s IH]; intros H; [reflexivity|].
  cbn in H. apply andb_true_iff in H as [Hc Hs].
  cbn. rewrite (digit_not_colon c Hc), (IH Hs). reflexivity.
Qed.

Lemma splitColon_app (m rest : string) :
  allDigits m = true ->
  splitColon (m ++ String ":" rest) = m :: splitColon rest.
Proof.
  induction m as [|c m IH]; intros H; [reflexivity|].
  cbn in H. apply andb_true_iff in H as [Hc Hm].
  change (splitColon (String c (m ++ String ":" rest)%string) =
          String c m :: splitColon rest).
  cbn. rewrite (digit_not_colon c Hc), (IH Hm). reflexivity.
Qed.

Lemma digits_all (s : string) : decimalDigits s = true -> allDigits s = true.
Proof. destruct s; [discriminate|auto]. Qed.

Lemma decimalValue_nonneg (s : string) :
  decimalDigits s = true -> 0 <= decimalValue s.
Proof.
  intros H. apply decimalFrom_nonneg; [now apply digits_all|lia].
Qed.

Lemma digits_append_nonempty (m rest : string) :
  decimalDigits m = true -> String.eqb (m ++ rest) "" = false.
Proof. destruct m; [discriminate|reflexivity]. Qed.

End DigitFacts.

Lemma convert_two_parts (d a b : string) :
  splitColon d = [a; b] ->
  convertDurationToSeconds d = (Number a * Num.ofZ 60 + Number b)%js.
Proof.
  intros H. unfold convertDurationToSeconds.
  destruct (String.eqb_spec d "") as [->|_]; [discriminate|].
  now rewrite H.
Qed.

Lemma convert_three_parts (d a b c : string) :
  splitColon d = [a; b; c] ->
  convertDurationToSeconds d =
    (Number a * Num.ofZ 3600 + Number b * Num.ofZ 60 + Number c)%js.
Proof.
  intros H. unfold convertDurationToSeconds.
  destruct (String.eqb_spec d "") as [->|_]; [discriminate|].
  now rewrite H.
Qed.

Lemma convert_other_parts (d : string) :
  length (splitColon d) <> 2%nat ->
  length (splitColon d) <> 3%nat ->
  convertDurationToSeconds d = Num.ofZ 0.
Proof.
  intros H2 H3. unfold convertDurationToSeconds.
  destruct (String.eqb d ""); [reflexivity|].
  rewrite <- (length_map Number) in H2, H3.
  destruct (map Number (splitColon d)) as [|p0 [|p1 [|p2 [|p3 l]]]];
    cbn in *; congruence.
Qed.

(** C6, as the specification words it, does not hold: an input that is
    neither an "MM:SS" nor an "HH:MM:SS" string does not always give 0.
    Only the number of colon-delimited parts is looked at, and "a:b", with
    its two parts, does not give 0. *)
Lemma convert_other_shape_not_zero :
  ~ (forall d, isMMSS d = false -> isHHMMSS d = false ->
               convertDurationToSeconds d = Num.ofZ 0).
Proof.
  intros H. specialize (H "a:b" eq_refl eq_refl). vm_compute in H. discriminate.
Qed.

(** Beyond 53 bits the parts and their products are rounded: 2^53 + 1
    minutes are read as 2^53 minutes. *)
Example convert_long_digits_rounds :
  convertDurationToSeconds "9007199254740993:0" = Num.ofZ 540431955284459520 /\
  decimalValue "9007199254740993" * 60 + decimalValue "0" = 540431955284459580.
Proof. split; vm_compute; reflexivity. Qed.

(** C6, amended: [convertDurationToSeconds] maps an "MM:SS" string, two
    parts of decimal digits, to minutes*60+seconds, and an "HH:MM:SS"
    string to hours*3600+minutes*60+seconds, as long as that number of
    seconds has at most 53 bits (beyond, the arithmetic of the language
    rounds); so "3:45" gives 225 and "1:02:03" gives 3723.  Every input
    with a number of colon-delimited parts other than two or three gives
    0, in particular "garbage" and the empty string. *)
Theorem convertDurationToSeconds_shapes :
  (forall m s,
     decimalDigits m = true -> decimalDigits s = true ->
     decimalValue m * 60 + decimalValue s <= 2 ^ 53 ->
     convertDurationToSeconds (m ++ ":" ++ s) =
       Num.ofZ (decimalValue m * 60 + decimalValue s)) /\
  (forall h m s,
     decimalDigits h = true -> decimalDigits m = true -> decimalDigits s = true ->
     decimalValue h * 3600 + decimalValue m * 60 + decimalValue s <= 2 ^ 53 ->
     convertDurationToSeconds (h ++ ":" ++ m ++ ":" ++ s) =
       Num.ofZ (decimalValue h * 3600 + decimalValue m * 60 + decimalValue s)) /\
  convertDurationToSeconds "3:45" = Num.ofZ 225 /\
  convertDurationToSeconds "1:02:03" = Num.ofZ 3723 /\
  (forall d,
     length (splitColon d) <> 2%nat -> length (splitColon d) <> 3%nat ->
     convertDurationToSeconds d = Num.ofZ 0) /\
  convertDurationToSeconds "garbage" = Num.ofZ 0 /\
  convertDurationToSeconds "" = Num.ofZ 0.
Proof.
  split; [|split; [|split; [|split; [|split; [|split]]]]].
  - intros m s Hm Hs Hle.
    pose proof (DigitFacts.decimalValue_nonneg m Hm) as Hm0.
    pose proof (DigitFacts.decimalValue_nonneg s Hs) as Hs0.
    rewrite (convert_two_parts _ m s).
    + rewrite (DigitFacts.Number_digits m Hm), (DigitFacts.Number_digits s Hs) by lia.
      rewrite ofZ_mul by lia. now rewrite ofZ_add by lia.
    + change (splitColon (m ++ String ":" s)%string = [m; s]).
      rewrite DigitFacts.splitColon_app by now apply DigitFacts.digits_all.
      now rewrite DigitFacts.splitColon_digits by now apply DigitFacts.digits_all.
  - intros h m s Hh Hm Hs Hle.
    pose proof (DigitFacts.decimalValue_nonneg h Hh) as Hh0.
    pose proof (DigitFacts.decimalValue_nonneg m Hm) as Hm0.
    pose proof (DigitFacts.decimalValue_nonneg s Hs) as Hs0.
    rewrite (convert_three_parts _ h m s).
    + rewrite (DigitFacts.Number_digits h Hh), (DigitFacts.Number_digits m Hm),
        (DigitFacts.Number_digits s Hs) by lia.
      rewrite !ofZ_mul by lia. rewrite ofZ_add by lia. now rewrite ofZ_add by lia.
    + change (splitColon (h ++ String ":" (m ++ String ":" s))%string = [h; m; s]).
      rewrite !DigitFacts.splitColon_app by now apply DigitFacts.digits_all.
      now rewrite DigitFacts.splitColon_digits by now apply DigitFacts.digits_all.
  - vm_compute. reflexivity.
  - vm_compute. reflexivity.
  - apply convert_other_parts.
  - reflexivity.
  - reflexivity.
Qed.

Lemma convertDurationToSeconds_shapes_witness :
  convertDurationToSeconds ("12" ++ ":" ++ "07") =
    Num.ofZ (decimalValue "12" * 60 + decimalValue "07") /\
  convertDurationToSeconds ("1" ++ ":" ++ "02" ++ ":" ++ "03") =
    Num.ofZ (decimalValue "1" * 3600 + decimalValue "02" * 60 + decimalValue "03") /\
  convertDurationToSeconds "a:b:c:d" = Num.ofZ 0.
Proof.
  destruct convertDurationToSeconds_shapes
    as (Htwo & Hthree & _ & _ & Hother & _ & _).
  split; [|split].
  - apply Htwo; [reflexivity|reflexivity|vm_compute; discriminate].
  - apply Hthree; [reflexivity|reflexivity|reflexivity|vm_compute; discriminate].
  - apply Hother; vm_compute; discriminate.
Defined.

(* ================================================================== *)
(** * Runs of the methods under an arbitrary preorder on states *)
(* ================================================================== *)

Section Preorder.

Variable R : State -> State -> Prop.
Hypothesis R_refl : forall s, R s s.
Hypothesis R_trans : forall s1 s2 s3, R s1 s2 -> R s2 s3 -> R s1 s3.

Lemma keeps_ret {A} (a : A) : respects R (ret a).
Proof. intros s. apply R_refl. Qed.

Lemma keeps_raise {A} (e : JsError) : respects R (@raise A e).
Proof. intros s. apply R_refl. Qed.

Lemma keeps_step (r : option JsError) : respects R (step r).
Proof. destruct r; [apply keeps_raise|apply keeps_ret]. Qed.

Lemma keeps_lift {A} (c : Completion A) : respects R (lift c).
Proof. destruct c; [apply keeps_ret|apply keeps_raise]. Qed.

Lemma keeps_getThis : respects R getThis.
Proof. intros s. apply R_refl. Qed.

Lemma keeps_getWorld : respects R getWorld.
Proof. intros s. apply R_refl. Qed.

Lemma keeps_bind {A B} (m : M A) (k : A -> M B) :
  respects R m -> (forall a, respects R (k a)) -> respects R (bind m k).
Proof.
  intros Hm Hk s. unfold bind. specialize (Hm s).
  destruct (m s) as [[a|e] s1]; cbn in *; [|exact Hm].
  eapply R_trans; [exact Hm|apply Hk].
Qed.

Lemma keeps_tryCatch {A} (body : M A) (handler : JsError -> M A) :
  respects R body -> (forall e, respects R (handler e)) ->
  respects R (tryCatch body handler).
Proof.
  intros Hb Hh s. unfold tryCatch. specialize (Hb s).
  destruct (body s) as [[a|e] s1]; cbn in *; [exact Hb|].
  eapply R_trans; [exact Hb|apply Hh].
Qed.

Lemma keeps_tryFinally {A} (body : M A) (final : M unit) :
  respects R body -> respects R final -> respects R (tryFinally body final).
Proof.
  intros Hb Hf s. unfold tryFinally. specialize (Hb s).
  destruct (body s) as [r s1]. specialize (Hf s1).
  destruct (final s1) as [[u|e] s2]; cbn in *; eapply R_trans; eauto.
Qed.

Lemma keeps_waitForLogin (polls : list (Completion bool)) :
  respects R (waitForLogin polls).
Proof.
  induction polls as [|poll rest IH]; cbn; [apply keeps_ret|].
  apply keeps_bind; [apply keeps_lift|].
  intros [|]; [apply keeps_ret|exact IH].
Qed.

(** The methods, from what their primitive steps are assumed to keep. *)
Hypothesis R_log_write : forall m w cs ok,
  R (mkState m w) (mkState m (emit (EvWriteFile (cookiesPath m) cs ok) w)).
Hypothesis R_setFile : forall m w f d, R (mkState m w) (mkState m (setFile f d w)).
Hypothesis R_log_error : forall m w e, R (mkState m w) (mkState m (emit (EvOnRefreshError e) w)).
Hypothesis R_log_updated : forall m w cs,
  R (mkState m w) (mkState m (emit (EvOnCookiesUpdated cs) w)).
Hypothesis R_log_setCookie : forall m w cs, R (mkState m w) (mkState m (emit (EvSetCookie cs) w)).
Hypothesis R_loaded : forall m w, R (mkState m w) (mkState (setPuppeteer true m) w).

Lemma keeps_saveCookies (cookies : list Cookie) : respects R (saveCookies cookies).
Proof.
  intros [m w]. run_step.
  destruct (writeError w (cookiesPath m)); cbn; [apply R_log_write|].
  eapply R_trans; [apply (R_log_write m w cookies true)|apply R_setFile].
Qed.

Lemma keeps_notifyRefreshError (e : JsError) : respects R (notifyRefreshError e).
Proof.
  intros [m w]. run_step.
  destruct (onRefreshError m) as [cb|]; cbn; [|apply R_refl].
  destruct (cb e); cbn; apply R_log_error.
Qed.

Lemma keeps_notifyCookiesUpdated (cookies : list Cookie) :
  respects R (notifyCookiesUpdated cookies).
Proof.
  intros [m w]. run_step.
  destruct (onCookiesUpdated m) as [cb|]; cbn; [|apply R_refl].
  destruct (cb cookies); cbn; apply R_log_updated.
Qed.

Lemma keeps_injectExisting (run : Session) : respects R (injectExisting run).
Proof.
  intros s. unfold injectExisting, tryCatch, bind, getThis. cbn.
  destruct (loadCookies_own_path s) as (v & ->).
  destruct v as [| |[|a t]| |[|c cs]]; cbn; try apply R_refl.
  destruct s as [m w]. run_step.
  destruct (sSetCookie run); cbn; apply R_log_setCookie.
Qed.

Lemma keeps_loadPuppeteer : respects R loadPuppeteer.
Proof.
  unfold loadPuppeteer. apply keeps_bind; [apply keeps_getThis|]. intros m.
  destruct (puppeteer m); [apply keeps_ret|].
  apply keeps_tryCatch.
  - apply keeps_bind; [apply keeps_getWorld|]. intros w.
    apply keeps_bind; [apply keeps_step|]. intros _.
    apply keeps_bind; [|intros _; apply keeps_ret].
    intros [m' w']. apply R_loaded.
  - intros e. apply keeps_bind; [apply keeps_notifyRefreshError|].
    intros _. apply keeps_ret.
Qed.

(** The body of the [try] in [refreshSession], before the browser is
    closed. *)
Lemma keeps_session_body (run : Session) (m : CookieManager)
    (Hgoto : forall m' w', R (mkState m' w')
               (mkState m' (emit (EvGoto "https://music.youtube.com") w'))) :
  respects R (sessionBody run m).
Proof.
  unfold sessionBody.
  apply keeps_bind; [apply keeps_step|]. intros _.
  apply keeps_bind; [apply keeps_step|]. intros _.
  apply keeps_bind; [apply keeps_injectExisting|]. intros _.
  apply keeps_bind; [intros [m' w']; apply Hgoto|]. intros _.
  apply keeps_bind; [apply keeps_step|]. intros _.
  apply keeps_bind; [apply keeps_lift|]. intros isLoggedIn.
  apply keeps_bind.
  { destruct (negb isLoggedIn && negb (headless m));
      [apply keeps_waitForLogin|apply keeps_ret]. }
  intros _.
  apply keeps_bind; [apply keeps_lift|]. intros freshCookies.
  apply keeps_bind; [apply keeps_saveCookies|]. intros _.
  apply keeps_bind; [apply keeps_notifyCookiesUpdated|]. intros _.
  apply keeps_ret.
Qed.

End Preorder.

(* ================================================================== *)
(** * Two preorders: events of one kind, and the manager's fields *)
(* ================================================================== *)

Lemma grows_refl (test : Event -> bool) (s : State) : grows test s s.
Proof.
  repeat split. exists []. split; [now rewrite app_nil_r|constructor].
Qed.

Lemma grows_trans (test : Event -> bool) (s1 s2 s3 : State) :
  grows test s1 s2 -> grows test s2 s3 -> grows test s1 s3.
Proof.
  intros (He1 & Hu1 & evs1 & Ht1 & Hf1) (He2 & Hu2 & evs2 & Ht2 & Hf2).
  split; [congruence|]. split; [congruence|].
  exists (evs1 ++ evs2). split.
  - rewrite Ht2, Ht1. now rewrite app_assoc.
  - apply Forall_app. now split.
Qed.

Lemma grows_emit (test : Event -> bool) (m : CookieManager) (w : World) (ev : Event) :
  test ev = false -> grows test (mkState m w) (mkState m (emit ev w)).
Proof.
  intros H. repeat split. exists [ev]. split; [reflexivity|]. now constructor.
Qed.

Lemma grows_quiet (test : Event -> bool) (s s' : State) :
  onRefreshError (this s') = onRefreshError (this s) ->
  onCookiesUpdated (this s') = onCookiesUpdated (this s) ->
  trace (world s') = trace (world s) ->
  grows test s s'.
Proof.
  intros He Hu Ht. split; [exact He|]. split; [exact Hu|].
  exists []. split; [now rewrite app_nil_r|constructor].
Qed.

Lemma grows_count (test : Event -> bool) (s s' : State) :
  grows test s s' -> count test (trace (world s')) = count test (trace (world s)).
Proof.
  intros (_ & _ & evs & -> & Hall). rewrite count_app.
  assert (count test evs = 0%nat) as ->; [|lia].
  induction Hall as [|ev evs Hev _ IH]; [reflexivity|].
  unfold count in *. cbn. now rewrite Hev.
Qed.

Lemma sameManager_refl (s : State) : sameManager s s.
Proof. reflexivity. Qed.

Lemma sameManager_trans (s1 s2 s3 : State) :
  sameManager s1 s2 -> sameManager s2 s3 -> sameManager s1 s3.
Proof. unfold sameManager. congruence. Qed.

(** The instances of the lemmas of the methods for [grows test], given
    the kinds of events on which [test] is false. *)
Section Grows.

Variable test : Event -> bool.
Hypothesis no_write : forall f cs ok, test (EvWriteFile f cs ok) = false.
Hypothesis no_setCookie : forall cs, test (EvSetCookie cs) = false.
Hypothesis no_goto : forall u, test (EvGoto u) = false.

Section WithCallbacks.

Hypothesis no_error : forall e, test (EvOnRefreshError e) = false.
Hypothesis no_updated : forall cs, test (EvOnCookiesUpdated cs) = false.

Lemma grows_session_body (run : Session) (m : CookieManager) :
  respects (grows test) (sessionBody run m).
Proof.
  apply (keeps_session_body (grows test) (grows_refl test) (grows_trans test));
    intros; try (apply grows_emit; auto); apply grows_quiet; reflexivity.
Qed.

Lemma grows_notifyRefreshError (e : JsError) :
  respects (grows test) (notifyRefreshError e).
Proof.
  apply (keeps_notifyRefreshError (grows test) (grows_refl test)).
  intros. now apply grows_emit.
Qed.

End WithCallbacks.

End Grows.

(** [refreshSession] in two steps: the launch, then the page work with
    the browser closed at the end. *)
Lemma refreshSession_eq (run : Session) (m : CookieManager) (w : World) :
  refreshSession run (mkState m w) =
    match sLaunch run with
    | Some e => (Throw e, mkState m (emit (EvLaunch (headless m)) w))
    | None =>
        tryFinally (sessionBody run m) (sessionFinal run)
          (mkState m (emit (EvLaunch (headless m)) w))
    end.
Proof.
  unfold refreshSession. destruct (sLaunch run) eqn:E; unfold bind at 1;
    unfold getThis; cbn [this]; unfold bind at 1; unfold log at 1;
    unfold modifyWorld at 1; cbn [this world]; unfold bind at 1; rewrite ?E;
    reflexivity.
Qed.

(** Closing the browser: once for every launch that succeeded. *)
Lemma refreshSession_close (run : Session) (s : State) :
  count isClose (trace (world (snd (refreshSession run s)))) =
    (count isClose (trace (world s)) + if succeeds (sLaunch run) then 1 else 0)%nat.
Proof.
  destruct s as [m w]. rewrite refreshSession_eq.
  destruct (sLaunch run) as [e|]; cbn [succeeds].
  - cbn [snd world trace emit]. rewrite count_app. cbn. lia.
  - unfold tryFinally.
    assert (Hbody : grows isClose (mkState m (emit (EvLaunch (headless m)) w))
                      (snd (sessionBody run m
                              (mkState m (emit (EvLaunch (headless m)) w)))))
      by (apply grows_session_body; reflexivity).
    destruct (sessionBody run m _) as [r s1].
    apply grows_count in Hbody. cbn [snd] in Hbody.
    destruct s1 as [m1 w1]. cbn [world trace emit] in Hbody.
    assert (Hc : count isClose (trace w1 ++ [EvClose]) =
                 (count isClose (trace w) + 1)%nat).
    { rewrite count_app, Hbody, count_app. cbn. lia. }
    unfold sessionFinal, bind, log, modifyWorld, step, raise, ret.
    destruct (sClose run); cbn [fst snd this world trace emit]; exact Hc.
Qed.

Lemma refreshCookies_eq (m : CookieManager) (w : World) :
  refreshCookies (mkState m w) =
    tryCatch
      (bind loadPuppeteer (fun proceed : bool =>
         if proceed then bind getWorld (fun w' => refreshSession (browserRun w'))
         else ret None))
      (fun error => bind (notifyRefreshError error) (fun _ => ret None))
      (mkState m (emit EvRefreshCookies w)).
Proof. reflexivity. Qed.

Lemma loadPuppeteer_ok (m : CookieManager) (w : World) :
  puppeteer m || succeeds (requirePuppeteer w) = true ->
  loadPuppeteer (mkState m w) =
    (Normal true, mkState (if puppeteer m then m else setPuppeteer true m) w).
Proof.
  intros H. unfold loadPuppeteer. run_step.
  destruct (puppeteer m); [reflexivity|]. cbn in *.
  destruct (requirePuppeteer w); [discriminate|reflexivity].
Qed.

Lemma loadPuppeteer_missing (m : CookieManager) (w : World) :
  puppeteer m || succeeds (requirePuppeteer w) = false ->
  fst (loadPuppeteer (mkState m w)) <> Normal true.
Proof.
  intros H. unfold loadPuppeteer. run_step.
  destruct (puppeteer m); [discriminate|]. cbn in *.
  destruct (requirePuppeteer w); [|discriminate]. cbn.
  destruct (onRefreshError m) as [cb|]; cbn; [|discriminate].
  destruct (cb notInstalled); cbn; discriminate.
Qed.

Lemma grows_loadPuppeteer (test : Event -> bool) :
  (forall e, test (EvOnRefreshError e) = false) ->
  respects (grows test) loadPuppeteer.
Proof.
  intros H.
  apply (keeps_loadPuppeteer (grows test) (grows_refl test) (grows_trans test));
    intros; [now apply grows_emit|apply grows_quiet; reflexivity].
Qed.

Lemma respects_count (test : Event -> bool) {A} (m : M A) (s : State) :
  respects (grows test) m ->
  count test (trace (world (snd (m s)))) = count test (trace (world s)).
Proof. intros H. apply grows_count, H. Qed.

(** The [catch] of [refreshCookies] adds no event other than the call of
    the error callback. *)
Lemma grows_handler (test : Event -> bool) (e : JsError) :
  (forall e', test (EvOnRefreshError e') = false) ->
  respects (grows test)
    (bind (notifyRefreshError e) (fun _ => @ret (option (list Cookie)) None)).
Proof.
  intros H. apply (keeps_bind (grows test) (grows_trans test)).
  - now apply grows_notifyRefreshError.
  - intros _. apply keeps_ret, grows_refl.
Qed.

(** X1: [refreshCookies] closes the browser exactly once when the driver
    is there and the launch succeeds, whatever happens afterwards, and
    never otherwise. *)
Theorem refreshCookies_closes_browser (s : State) :
  let launched :=
    (puppeteer (this s) || succeeds (requirePuppeteer (world s)))
    && succeeds (sLaunch (browserRun (world s))) in
  count isClose (trace (world (snd (refreshCookies s)))) =
    (count isClose (trace (world s)) + if launched then 1 else 0)%nat.
Proof.
  destruct s as [m w]. cbn [this world]. cbn zeta.
  rewrite refreshCookies_eq. unfold tryCatch.
  assert (Hmark : count isClose (trace (emit EvRefreshCookies w)) =
                  count isClose (trace w)).
  { cbn [trace emit]. rewrite count_app. cbn. lia. }
  destruct (puppeteer m || succeeds (requirePuppeteer w)) eqn:Hdrv.
  - rewrite (bind_normal _ _ _ _ _
               (loadPuppeteer_ok m (emit EvRefreshCookies w) Hdrv)).
    cbn [andb]. unfold bind at 1. unfold getWorld. cbn [world browserRun emit].
    pose proof (refreshSession_close (browserRun w)
                  (mkState (if puppeteer m then m else setPuppeteer true m)
                           (emit EvRefreshCookies w))) as Hclose.
    destruct (refreshSession (browserRun w) _) as [[r|e] s1];
      cbn [fst snd world] in *.
    + rewrite Hclose, Hmark. reflexivity.
    + rewrite (respects_count isClose _ s1 (grows_handler isClose e
                 ltac:(reflexivity))).
      rewrite Hclose, Hmark. reflexivity.
  - cbn [andb]. rewrite Nat.add_0_r.
    pose proof (loadPuppeteer_missing m (emit EvRefreshCookies w) Hdrv) as Hno.
    pose proof (respects_count isClose loadPuppeteer
                  (mkState m (emit EvRefreshCookies w))
                  (grows_loadPuppeteer isClose ltac:(reflexivity))) as Hload.
    unfold bind at 1.
    destruct (loadPuppeteer _) as [[[|]|e] s1]; cbn [fst snd] in *.
    + congruence.
    + cbn. rewrite Hload. exact Hmark.
    + rewrite (respects_count isClose _ s1 (grows_handler isClose e
                 ltac:(reflexivity))).
      rewrite Hload. exact Hmark.
Qed.

Section SessionPreorder.

Variable R : State -> State -> Prop.
Hypothesis R_refl : forall s, R s s.
Hypothesis R_trans : forall s1 s2 s3, R s1 s2 -> R s2 s3 -> R s1 s3.
Hypothesis R_emit : forall m w ev,
  isOnRefreshError ev = false -> R (mkState m w) (mkState m (emit ev w)).
Hypothesis R_setFile : forall m w f d, R (mkState m w) (mkState m (setFile f d w)).

(** A whole browser session, from the launch to the closing. *)
Lemma keeps_refreshSession (run : Session) : respects R (refreshSession run).
Proof.
  intros [m w]. rewrite refreshSession_eq.
  destruct (sLaunch run) as [e|]; [now apply R_emit|].
  eapply R_trans; [apply (R_emit m w (EvLaunch (headless m))); reflexivity|].
  apply (keeps_tryFinally R R_trans).
  - apply (keeps_session_body R R_refl R_trans); intros; auto.
  - unfold sessionFinal. apply (keeps_bind R R_trans).
    + intros [m' w']. now apply R_emit.
    + intros _. apply keeps_step, R_refl.
Qed.

End SessionPreorder.

Lemma grows_refreshSession (run : Session) :
  respects (grows isOnRefreshError) (refreshSession run).
Proof.
  apply (keeps_refreshSession _ (grows_refl _) (grows_trans _)); intros.
  - now apply grows_emit.
  - apply grows_quiet; reflexivity.
Qed.

(** Normal results of composed computations. *)
Lemma returnsOnly_ret {A} (P : A -> Prop) (a : A) : P a -> returnsOnly P (ret a).
Proof. intros H s a' s' [= <- _]. exact H. Qed.

Lemma returnsOnly_bind {A B} (P : B -> Prop) (m : M A) (k : A -> M B) :
  (forall a, returnsOnly P (k a)) -> returnsOnly P (bind m k).
Proof.
  intros Hk s b s'. unfold bind.
  destruct (m s) as [[a|e] s1]; [apply Hk|discriminate].
Qed.

Lemma returnsOnly_tryFinally {A} (P : A -> Prop) (body : M A) (final : M unit) :
  returnsOnly P body -> returnsOnly P (tryFinally body final).
Proof.
  intros Hb s a s'. unfold tryFinally.
  destruct (body s) as [r s1] eqn:E.
  destruct (final s1) as [[u|e] s2]; [|discriminate].
  intros [= -> _]. exact (Hb s a s1 E).
Qed.

(** A session that returns, returns cookies: never [null]. *)
Lemma refreshSession_returns (run : Session) :
  returnsOnly (fun r => r <> None) (refreshSession run).
Proof.
  intros [m w] a s' H. rewrite refreshSession_eq in H.
  destruct (sLaunch run); [discriminate|].
  assert (Hbody : returnsOnly (fun r : option (list Cookie) => r <> None)
                    (sessionBody run m)).
  { unfold sessionBody.
    repeat (apply returnsOnly_bind; intros ?).
    now apply returnsOnly_ret. }
  exact (returnsOnly_tryFinally _ _ _ Hbody _ _ _ H).
Qed.

Lemma notifyRefreshError_run (m : CookieManager) (w : World) (e : JsError) :
  (forall cb, onRefreshError m = Some cb -> forall e', cb e' = Normal tt) ->
  notifyRefreshError e (mkState m w) =
    (Normal tt,
     mkState m match onRefreshError m with
               | Some _ => emit (EvOnRefreshError e) w
               | None => w
               end).
Proof.
  intros H. run_step. destruct (onRefreshError m) as [cb|]; [|reflexivity].
  cbn. now rewrite (H cb eq_refl e).
Qed.

(* ================================================================== *)
(** * What a refresh and a tick leave of the manager *)
(* ================================================================== *)

Lemma sameManager_refreshSession (run : Session) :
  respects sameManager (refreshSession run).
Proof.
  apply (keeps_refreshSession _ sameManager_refl sameManager_trans);
    intros; reflexivity.
Qed.

Lemma sameManager_refreshCookies : respects sameManager refreshCookies.
Proof.
  unfold refreshCookies.
  apply (keeps_bind _ sameManager_trans); [intros [m w]; reflexivity|].
  intros _. apply (keeps_tryCatch _ sameManager_trans).
  - apply (keeps_bind _ sameManager_trans).
    + apply (keeps_loadPuppeteer _ sameManager_refl sameManager_trans);
        intros; reflexivity.
    + intros [|]; [|apply keeps_ret, sameManager_refl].
      apply (keeps_bind _ sameManager_trans);
        [apply keeps_getWorld, sameManager_refl|].
      intros w. apply sameManager_refreshSession.
  - intros e. apply (keeps_bind _ sameManager_trans).
    + apply (keeps_notifyRefreshError _ sameManager_refl). intros; reflexivity.
    + intros _. apply keeps_ret, sameManager_refl.
Qed.

Lemma sameManager_fields (s s' : State) :
  sameManager s s' ->
  cookiesPath (this s') = cookiesPath (this s) /\
  refreshInterval (this s') = refreshInterval (this s) /\
  refreshBeforeExpiry (this s') = refreshBeforeExpiry (this s) /\
  autoRefresh (this s') = autoRefresh (this s) /\
  headless (this s') = headless (this s) /\
  refreshTimer (this s') = refreshTimer (this s) /\
  onCookiesUpdated (this s') = onCookiesUpdated (this s) /\
  onRefreshError (this s') = onRefreshError (this s).
Proof.
  unfold sameManager. intros H.
  repeat split;
    [exact (f_equal cookiesPath H)|exact (f_equal refreshInterval H)
    |exact (f_equal refreshBeforeExpiry H)|exact (f_equal autoRefresh H)
    |exact (f_equal headless H)|exact (f_equal refreshTimer H)
    |exact (f_equal onCookiesUpdated H)|exact (f_equal onRefreshError H)].
Qed.

(** X3: a tick of the scheduler never raises, even when [refreshCookies]
    does, and it changes no field of the manager other than [puppeteer]:
    the path, the intervals, the callbacks and the running timer are
    those of before. *)
Theorem autoRefreshTick_safe (iso : Z -> string) (nowMs : Z) (s : State) :
  let s' := snd (autoRefreshTick iso nowMs s) in
  fst (autoRefreshTick iso nowMs s) = Normal tt /\
  cookiesPath (this s') = cookiesPath (this s) /\
  refreshInterval (this s') = refreshInterval (this s) /\
  refreshBeforeExpiry (this s') = refreshBeforeExpiry (this s) /\
  autoRefresh (this s') = autoRefresh (this s) /\
  headless (this s') = headless (this s) /\
  refreshTimer (this s') = refreshTimer (this s) /\
  onCookiesUpdated (this s') = onCookiesUpdated (this s) /\
  onRefreshError (this s') = onRefreshError (this s).
Proof.
  cbn zeta.
  destruct (loadCookies_own_path s) as (cookies & Hload).
  rewrite (autoRefreshTick_run iso nowMs s cookies Hload).
  destruct (validateCookies iso (this s) nowMs cookies) as [v|e];
    [destruct (negb _ || _)|]; cbn [fst snd]; (split; [reflexivity|]).
  - apply sameManager_fields, sameManager_refreshCookies.
  - repeat split.
  - repeat split.
Qed.

(* ================================================================== *)
(** * A refresh in which every step succeeds *)
(* ================================================================== *)

Lemma withTrace_same (w : World) : withTrace (trace w) w = w.
Proof. now destruct w. Qed.

(** Seeding the browser never raises and only adds, at most, the call of
    [page.setCookie] to the trace. *)
Lemma injectExisting_run (run : Session) (m : CookieManager) (w : World) :
  exists evs,
    (evs = [] \/ exists cs, evs = [EvSetCookie cs]) /\
    injectExisting run (mkState m w) =
      (Normal tt, mkState m (withTrace (trace w ++ evs) w)).
Proof.
  unfold injectExisting, tryCatch, bind, getThis. cbn [this].
  destruct (loadCookies_own_path (mkState m w)) as (v & Hload).
  cbn [this] in Hload. rewrite Hload.
  assert (Hquiet : (Normal tt, mkState m w) =
                   (Normal tt, mkState m (withTrace (trace w ++ []) w))).
  { now rewrite app_nil_r, withTrace_same. }
  destruct v as [| |[|a t]| |[|c cs]]; cbn;
    try (exists []; split; [now left|exact Hquiet]).
  exists [EvSetCookie (map toPuppeteerCookie (c :: cs))].
  split; [right; eauto|].
  unfold log, modifyWorld, step, raise, ret.
  destruct (sSetCookie run); reflexivity.
Qed.

Lemma waitForLogin_normal (polls : list (Completion bool)) (s : State) :
  Forall (fun poll => exists b, poll = Normal b) polls ->
  waitForLogin polls s = (Normal tt, s).
Proof.
  induction 1 as [|poll rest (b & ->) _ IH]; [reflexivity|].
  cbn. unfold bind, lift, ret. destruct b; [reflexivity|exact IH].
Qed.

Lemma saveCookies_ok (cookies : list Cookie) (m : CookieManager) (w : World) :
  writeError w (cookiesPath m) = None ->
  saveCookies cookies (mkState m w) =
    (Normal true,
     mkState m (setFile (cookiesPath m) (FileJson (JsArray (map jsonCookie cookies)))
                  (emit (EvWriteFile (cookiesPath m) cookies true) w))).
Proof. intros H. run_step. now rewrite H. Qed.

Lemma notifyCookiesUpdated_run (m : CookieManager) (w : World) (cookies : list Cookie) :
  (forall cb, onCookiesUpdated m = Some cb -> cb cookies = Normal tt) ->
  notifyCookiesUpdated cookies (mkState m w) =
    (Normal tt,
     mkState m match onCookiesUpdated m with
               | Some _ => emit (EvOnCookiesUpdated cookies) w
               | None => w
               end).
Proof.
  intros H. run_step. destruct (onCookiesUpdated m) as [cb|]; [|reflexivity].
  cbn. now rewrite (H cb eq_refl).
Qed.

Lemma bind_ret {A B} (a : A) (k : A -> M B) (s : State) : bind (ret a) k s = k a s.
Proof. reflexivity. Qed.

(** The page work of a session whose steps all succeed. *)
Lemma sessionBody_ok (run : Session) (m0 m : CookieManager) (w : World)
    (fresh : list PCookie) (loggedIn : bool) :
  sNewPage run = None -> sSetUserAgent run = None -> sGoto run = None ->
  sIsLoggedIn run = Normal loggedIn ->
  Forall (fun poll => exists b, poll = Normal b) (sLoginPolls run) ->
  sCookies run = Normal fresh ->
  writeError w (cookiesPath m) = None ->
  (forall cb, onCookiesUpdated m = Some cb ->
              cb (map formatCookie fresh) = Normal tt) ->
  exists evs,
    (evs = [] \/ exists cs, evs = [EvSetCookie cs]) /\
    sessionBody run m0 (mkState m w) =
      (Normal (Some (map formatCookie fresh)),
       mkState m
         {| files := <[cookiesPath m :=
                        FileJson (JsArray (map jsonCookie (map formatCookie fresh)))]>
                       (files w);
            writeError := writeError w;
            requirePuppeteer := requirePuppeteer w;
            browserRun := browserRun w;
            trace := (trace w ++ evs)
                     ++ [EvGoto "https://music.youtube.com";
                         EvWriteFile (cookiesPath m) (map formatCookie fresh) true]
                     ++ match onCookiesUpdated m with
                        | Some _ => [EvOnCookiesUpdated (map formatCookie fresh)]
                        | None => []
                        end |}).
Proof.
  intros Hnp Hua Hgoto Hlog Hpolls Hck Hwr Hcb.
  destruct (injectExisting_run run m w) as (evs & Hevs & Hinj).
  exists evs. split; [exact Hevs|].
  unfold sessionBody. rewrite Hnp, Hua, Hgoto, Hlog, Hck.
  cbn [step lift]. rewrite !bind_ret.
  rewrite (bind_normal _ _ _ _ _ Hinj).
  unfold bind at 1. unfold log, modifyWorld. cbn [this world].
  rewrite !bind_ret.
  assert (Hwait : forall s,
            (if negb loggedIn && negb (headless m0)
             then waitForLogin (sLoginPolls run) else ret tt) s = (Normal tt, s)).
  { intros s. destruct (negb loggedIn && negb (headless m0));
      [now apply waitForLogin_normal|reflexivity]. }
  rewrite (bind_normal _ _ _ _ _ (Hwait _)).
  rewrite bind_ret. cbn zeta.
  erewrite (bind_normal (saveCookies _)); [|apply saveCookies_ok; exact Hwr].
  erewrite (bind_normal (notifyCookiesUpdated _));
    [|apply notifyCookiesUpdated_run; exact Hcb].
  unfold ret. f_equal. f_equal.
  destruct (onCookiesUpdated m); unfold emit, setFile, withTrace;
    cbn [files writeError requirePuppeteer browserRun trace]; f_equal;
    now rewrite <- ?app_assoc, ?app_nil_r.
Qed.

(* ================================================================== *)
(** * Which failures a refresh reports *)
(* ================================================================== *)

Lemma bind_raise {A B} (e : JsError) (k : A -> M B) (s : State) :
  bind (raise e) k s = (Throw e, s).
Proof. reflexivity. Qed.

Lemma bind_throw {A B} (m : M A) (k : A -> M B) (s s' : State) (e : JsError) :
  m s = (Throw e, s') -> bind m k s = (Throw e, s').
Proof. intros H. unfold bind. now rewrite H. Qed.

Lemma waitForLogin_run (polls : list (Completion bool)) (s : State) :
  exists c, waitForLogin polls s = (c, s) /\
            (if pollsReturn polls then c = Normal tt else exists e, c = Throw e).
Proof.
  induction polls as [|[[|]|e] rest IH]; cbn.
  - eauto.
  - eauto.
  - exact IH.
  - eauto.
Qed.

Lemma sessionBody_result (run : Session) (m : CookieManager) (w : World) :
  this (snd (sessionBody run m (mkState m w))) = m /\
  match fst (sessionBody run m (mkState m w)) with
  | Normal r =>
      pageSucceeds run m = true /\
      exists fresh, sCookies run = Normal fresh /\ r = Some (map formatCookie fresh)
  | Throw _ => pageSucceeds run m = false
  end.
Proof.
  destruct (sessionBody run m (mkState m w)) as [res s'] eqn:Hrun. cbn [fst snd].
  unfold sessionBody in Hrun. unfold pageSucceeds.
  destruct (sNewPage run) as [e|]; cbn [step succeeds andb] in *.
  { rewrite bind_raise in Hrun. injection Hrun as <- <-. now split. }
  rewrite bind_ret in Hrun.
  destruct (sSetUserAgent run) as [e|]; cbn [step succeeds andb] in *.
  { rewrite bind_raise in Hrun. injection Hrun as <- <-. now split. }
  rewrite bind_ret in Hrun.
  destruct (injectExisting_run run m w) as (evs & _ & Hinj).
  rewrite (bind_normal _ _ _ _ _ Hinj) in Hrun.
  unfold bind at 1 in Hrun. unfold log, modifyWorld in Hrun. cbn [this world] in Hrun.
  destruct (sGoto run) as [e|]; cbn [step succeeds andb] in *.
  { rewrite bind_raise in Hrun. injection Hrun as <- <-. now split. }
  rewrite bind_ret in Hrun.
  destruct (sIsLoggedIn run) as [loggedIn|e]; cbn [lift] in Hrun.
  2:{ rewrite bind_raise in Hrun. injection Hrun as <- <-. now split. }
  rewrite bind_ret in Hrun.
  match type of Hrun with bind ?wait _ ?st = _ =>
    assert (Hwait : exists c, wait st = (c, st) /\
              (if (if negb loggedIn && negb (headless m)
                   then pollsReturn (sLoginPolls run) else true)
               then c = Normal tt else exists e, c = Throw e))
  end.
  { destruct (negb loggedIn && negb (headless m)).
    - apply waitForLogin_run.
    - eexists. split; reflexivity. }
  destruct Hwait as (c & Hwait & Hc).
  destruct (if negb loggedIn && negb (headless m)
            then pollsReturn (sLoginPolls run) else true).
  2:{ destruct Hc as (e & ->). rewrite (bind_throw _ _ _ _ _ Hwait) in Hrun.
      injection Hrun as <- <-. now split. }
  subst c. rewrite (bind_normal _ _ _ _ _ Hwait) in Hrun. cbn [andb].
  destruct (sCookies run) as [fresh|e]; cbn [lift] in Hrun.
  2:{ rewrite bind_raise in Hrun. injection Hrun as <- <-. now split. }
  rewrite bind_ret in Hrun. cbn zeta in Hrun.
  unfold bind at 1 in Hrun.
  match type of Hrun with context [saveCookies ?cs ?st] =>
    pose proof (saveCookies_run cs st) as (ok & Hok & Hthis & _);
    destruct (saveCookies cs st) as [saved [m2 w2]]
  end.
  cbn [fst snd this] in Hok, Hthis. subst saved m2.
  unfold bind at 1 in Hrun. unfold notifyCookiesUpdated in Hrun.
  unfold bind at 1 in Hrun. unfold getThis in Hrun. cbn [this] in Hrun.
  destruct (onCookiesUpdated m) as [cb|].
  - unfold bind at 1 in Hrun. unfold log, modifyWorld in Hrun.
    cbn [this world] in Hrun.
    destruct (cb (map formatCookie fresh)) as [[]|e]; cbn in Hrun;
      injection Hrun as <- <-; cbn [this].
    + split; [reflexivity|]. split; [reflexivity|]. eauto.
    + now split.
  - cbn in Hrun. injection Hrun as <- <-. cbn [this].
    split; [reflexivity|]. split; [reflexivity|]. eauto.
Qed.

Lemma refreshSession_result (run : Session) (m : CookieManager) (w : World) :
  match fst (refreshSession run (mkState m w)) with
  | Normal r =>
      succeeds (sLaunch run) && pageSucceeds run m && succeeds (sClose run) = true /\
      exists fresh, sCookies run = Normal fresh /\ r = Some (map formatCookie fresh)
  | Throw _ =>
      succeeds (sLaunch run) && pageSucceeds run m && succeeds (sClose run) = false
  end.
Proof.
  rewrite refreshSession_eq.
  destruct (sLaunch run) as [e|]; [reflexivity|]. cbn [succeeds andb].
  unfold tryFinally.
  pose proof (sessionBody_result run m (emit (EvLaunch (headless m)) w)) as [_ Hbody].
  destruct (sessionBody run m _) as [res [m1 w1]]. cbn [fst] in Hbody.
  unfold sessionFinal, bind, log, modifyWorld. cbn [this world].
  destruct (sClose run) as [e|]; cbn [step raise ret fst succeeds].
  - now rewrite andb_false_r.
  - rewrite andb_true_r. exact Hbody.
Qed.

Lemma pageSucceeds_puppeteer (run : Session) (m : CookieManager) :
  pageSucceeds run (setPuppeteer true m) = pageSucceeds run m.
Proof. reflexivity. Qed.

(** X2: with an error callback that does not raise (or none at all),
    [refreshCookies] never raises; it returns [null] exactly when a step
    failed (the driver is missing, the launch, the page, the navigation, a
    login probe that is made, the reading of the cookies, the update
    callback or the closing of the browser raises), and the cookies of the
    page in their stored form otherwise; and it has called the registered
    error callback once when it returns [null], and not at all
    otherwise. *)
Theorem refreshCookies_reports_failures (s : State) :
  (forall cb, onRefreshError (this s) = Some cb -> forall e, cb e = Normal tt) ->
  exists r,
    fst (refreshCookies s) = Normal r /\
    (r = None <-> stepsSucceed (this s) (world s) = false) /\
    (forall cookies, r = Some cookies ->
       exists fresh, sCookies (browserRun (world s)) = Normal fresh /\
                     cookies = map formatCookie fresh) /\
    count isOnRefreshError (trace (world (snd (refreshCookies s)))) =
      (count isOnRefreshError (trace (world s)) +
       match r, onRefreshError (this s) with
       | None, Some _ => 1
       | _, _ => 0
       end)%nat.
Proof.
  destruct s as [m w]. cbn [this world]. intros Hcb.
  destruct (refreshCookies (mkState m w)) as [res s'] eqn:Hrun. cbn [fst snd].
  rewrite refreshCookies_eq in Hrun. unfold tryCatch in Hrun.
  assert (Hmark : count isOnRefreshError (trace (emit EvRefreshCookies w)) =
                  count isOnRefreshError (trace w)).
  { cbn [trace emit]. rewrite count_app. cbn. lia. }
  unfold stepsSucceed.
  destruct (puppeteer m || succeeds (requirePuppeteer w)) eqn:Hdrv.
  - rewrite (bind_normal _ _ _ _ _
               (loadPuppeteer_ok m (emit EvRefreshCookies w) Hdrv)) in Hrun.
    unfold bind at 1 in Hrun. unfold getWorld in Hrun.
    cbn [world browserRun emit] in Hrun.
    pose (s1 := mkState (if puppeteer m then m else setPuppeteer true m)
                        (emit EvRefreshCookies w)).
    pose proof (grows_refreshSession (browserRun w) s1) as Hg.
    pose proof (refreshSession_result (browserRun w)
                  (if puppeteer m then m else setPuppeteer true m)
                  (emit EvRefreshCookies w)) as Hres.
    assert (Hpage : pageSucceeds (browserRun w)
                      (if puppeteer m then m else setPuppeteer true m) =
                    pageSucceeds (browserRun w) m)
      by (now destruct (puppeteer m)).
    rewrite Hpage in Hres. cbn [andb].
    unfold s1 in Hg.
    destruct (refreshSession (browserRun w) _) as [[r|e] [m2 w2]];
      cbn [fst snd] in Hg, Hres.
    + injection Hrun as <- <-. exists r.
      destruct Hres as (Hok & fresh & Hfresh & ->).
      split; [reflexivity|]. split; [|split].
      * rewrite Hok. split; discriminate.
      * intros cookies [= <-]. eauto.
      * apply grows_count in Hg. cbn [world] in *. rewrite Hg, Hmark.
        destruct (onRefreshError m); lia.
    + assert (Hw2 : count isOnRefreshError (trace w2) =
                    count isOnRefreshError (trace w)).
      { rewrite <- Hmark. exact (grows_count _ _ _ Hg). }
      destruct Hg as (Herr & _ & _). cbn [this] in Herr.
      assert (Hm2 : onRefreshError m2 = onRefreshError m).
      { rewrite Herr. now destruct (puppeteer m). }
      assert (Hcb2 : forall cb, onRefreshError m2 = Some cb ->
                                forall e', cb e' = Normal tt).
      { intros cb Hc. apply Hcb. congruence. }
      unfold bind in Hrun. rewrite (notifyRefreshError_run m2 w2 e Hcb2) in Hrun.
      injection Hrun as <- <-. exists None.
      split; [reflexivity|]. split; [|split].
      * now split.
      * discriminate.
      * rewrite Hm2. destruct (onRefreshError m); cbn [world trace emit].
        -- rewrite count_app, Hw2. reflexivity.
        -- rewrite Hw2. lia.
  - assert (Hp : puppeteer m = false) by (now destruct (puppeteer m)).
    assert (Hreq : exists err, requirePuppeteer w = Some err).
    { rewrite Hp in Hdrv. destruct (requirePuppeteer w); [eauto|discriminate]. }
    destruct Hreq as (err & Hreq).
    unfold bind at 1 in Hrun. unfold loadPuppeteer in Hrun.
    unfold bind at 1 in Hrun. unfold getThis in Hrun. cbn [this] in Hrun.
    rewrite Hp in Hrun.
    unfold tryCatch in Hrun. unfold bind at 1 in Hrun. unfold getWorld in Hrun.
    cbn [world requirePuppeteer emit] in Hrun. rewrite Hreq in Hrun.
    unfold bind at 1 in Hrun. cbn [step raise] in Hrun.
    unfold bind at 1 in Hrun.
    rewrite (notifyRefreshError_run m (emit EvRefreshCookies w) notInstalled Hcb)
      in Hrun.
    cbn [ret] in Hrun. injection Hrun as <- <-.
    exists None. split; [reflexivity|]. split; [|split].
    + now split.
    + discriminate.
    + destruct (onRefreshError m); cbn [world trace emit].
      * rewrite !count_app. cbn. lia.
      * rewrite count_app. cbn. lia.
Qed.

Lemma refreshCookies_reports_failures_witness :
  let s := mkState (Sample.withOnRefreshError Sample.quiet Sample.manager)
                   Sample.worldWithDriver in
  exists r,
    fst (refreshCookies s) = Normal r /\
    (r = None <-> stepsSucceed (this s) (world s) = false) /\
    (forall cookies, r = Some cookies ->
       exists fresh, sCookies (browserRun (world s)) = Normal fresh /\
                     cookies = map formatCookie fresh) /\
    count isOnRefreshError (trace (world (snd (refreshCookies s)))) =
      (count isOnRefreshError (trace (world s)) +
       match r, onRefreshError (this s) with
       | None, Some _ => 1
       | _, _ => 0
       end)%nat.
Proof.
  apply (refreshCookies_reports_failures
           (mkState (Sample.withOnRefreshError Sample.quiet Sample.manager)
                    Sample.worldWithDriver)).
  intros cb [= <-] e. reflexivity.
Defined.

(** X4: when the driver is there, every browser step succeeds, the file
    can be written and the update callback (if any) returns,
    [refreshCookies] returns the cookies of the page in their stored form,
    writes exactly them to the manager's path, calls the update callback
    with them, closes the browser, and does not call the error callback.
    A failure to seed the browser with the old cookies does not matter. *)
Theorem refreshCookies_success (m : CookieManager) (w : World)
    (fresh : list PCookie) (loggedIn : bool) :
  puppeteer m || succeeds (requirePuppeteer w) = true ->
  sLaunch (browserRun w) = None ->
  sNewPage (browserRun w) = None ->
  sSetUserAgent (browserRun w) = None ->
  sGoto (browserRun w) = None ->
  sIsLoggedIn (browserRun w) = Normal loggedIn ->
  Forall (fun poll => exists b, poll = Normal b) (sLoginPolls (browserRun w)) ->
  sCookies (browserRun w) = Normal fresh ->
  sClose (browserRun w) = None ->
  writeError w (cookiesPath m) = None ->
  (forall cb, onCookiesUpdated m = Some cb ->
              cb (map formatCookie fresh) = Normal tt) ->
  let formatted := map formatCookie fresh in
  let r := refreshCookies (mkState m w) in
  fst r = Normal (Some formatted) /\
  this (snd r) = (if puppeteer m then m else setPuppeteer true m) /\
  files (world (snd r)) =
    <[cookiesPath m := FileJson (JsArray (map jsonCookie formatted))]> (files w) /\
  exists evs,
    (evs = [] \/ exists cs, evs = [EvSetCookie cs]) /\
    trace (world (snd r)) =
      trace w ++ [EvRefreshCookies; EvLaunch (headless m)] ++ evs
        ++ [EvGoto "https://music.youtube.com";
            EvWriteFile (cookiesPath m) formatted true]
        ++ match onCookiesUpdated m with
           | Some _ => [EvOnCookiesUpdated formatted]
           | None => []
           end
        ++ [EvClose].
Proof.
  intros Hdrv Hlaunch Hnp Hua Hgoto Hlog Hpolls Hck Hclose Hwr Hcb. cbn zeta.
  remember (if puppeteer m then m else setPuppeteer true m) as m' eqn:Hm'.
  assert (Hpath : cookiesPath m' = cookiesPath m)
    by (subst m'; now destruct (puppeteer m)).
  assert (Hhead : headless m' = headless m)
    by (subst m'; now destruct (puppeteer m)).
  assert (Hupd : onCookiesUpdated m' = onCookiesUpdated m)
    by (subst m'; now destruct (puppeteer m)).
  destruct (sessionBody_ok (browserRun w) m' m'
              (emit (EvLaunch (headless m')) (emit EvRefreshCookies w))
              fresh loggedIn Hnp Hua Hgoto Hlog Hpolls Hck)
    as (evs & Hevs & Hbody).
  { rewrite Hpath. exact Hwr. }
  { rewrite Hupd. exact Hcb. }
  assert (Hrun : refreshCookies (mkState m w) =
                 (Normal (Some (map formatCookie fresh)),
                  snd (sessionFinal (browserRun w)
                         (snd (sessionBody (browserRun w) m'
                                 (mkState m' (emit (EvLaunch (headless m'))
                                                (emit EvRefreshCookies w)))))))).
  { rewrite refreshCookies_eq. unfold tryCatch.
    rewrite (bind_normal _ _ _ _ _
               (loadPuppeteer_ok m (emit EvRefreshCookies w) Hdrv)).
    rewrite <- Hm'. unfold bind at 1. unfold getWorld. cbn [world browserRun emit].
    rewrite refreshSession_eq, Hlaunch. unfold tryFinally.
    rewrite Hbody. unfold sessionFinal, bind, log, modifyWorld. cbn [this world].
    rewrite Hclose. reflexivity. }
  rewrite Hrun, Hbody. unfold sessionFinal, bind, log, modifyWorld.
  cbn [this world snd]. rewrite Hclose.
  cbn [step ret fst snd this world files trace emit].
  rewrite Hpath, Hhead, Hupd.
  repeat split. exists evs. split; [exact Hevs|].
  destruct (onCookiesUpdated m); cbn; now rewrite <- !app_assoc.
Qed.

Lemma refreshCookies_success_witness :
  let formatted := map formatCookie [Sample.pageCookie] in
  let r := refreshCookies (mkState Sample.manager Sample.worldWithDriver) in
  fst r = Normal (Some formatted) /\
  this (snd r) = setPuppeteer true Sample.manager /\
  files (world (snd r)) =
    <["cookies.json" := FileJson (JsArray (map jsonCookie formatted))]>
      (files Sample.worldWithDriver) /\
  exists evs,
    (evs = [] \/ exists cs, evs = [EvSetCookie cs]) /\
    trace (world (snd r)) =
      [] ++ [EvRefreshCookies; EvLaunch true] ++ evs
        ++ [EvGoto "https://music.youtube.com";
            EvWriteFile "cookies.json" formatted true]
        ++ [] ++ [EvClose].
Proof.
  apply (refreshCookies_success Sample.manager Sample.worldWithDriver
           [Sample.pageCookie] true); try reflexivity.
  - constructor.
  - intros cb H. discriminate H.
Defined.

(* ================================================================== *)
(** * [validateCookies]: what the flags and the nearest expiry mean *)
(* ================================================================== *)

Lemma existsb_expired (now : number) (cs : list Cookie) :
  existsb (expiredCookie now) cs = true <->
  exists c e, In c cs /\ expirationDate c = Some e /\ Num.truthy e = true /\
              (e <? now)%js = true.
Proof.
  rewrite existsb_exists. unfold expiredCookie. split.
  - intros (c & Hin & Hc). destruct (expirationDate c) as [e|] eqn:He;
      [|discriminate].
    apply andb_true_iff in Hc as [Ht Hl]. now exists c, e.
  - intros (c & e & Hin & He & Ht & Hl). exists c. split; [exact Hin|].
    now rewrite He, Ht, Hl.
Qed.

Lemma existsb_soon (now threshold : number) (cs : list Cookie) :
  existsb (soonCookie now threshold) cs = true <->
  exists c e, In c cs /\ expirationDate c = Some e /\ Num.truthy e = true /\
              (e <? now)%js = false /\ (e <? threshold)%js = true.
Proof.
  rewrite existsb_exists. unfold soonCookie. split.
  - intros (c & Hin & Hc). destruct (expirationDate c) as [e|] eqn:He;
      [|discriminate].
    apply andb_true_iff in Hc as [Hc Hth]. apply andb_true_iff in Hc as [Ht Hl].
    apply negb_true_iff in Hl. now exists c, e.
  - intros (c & e & Hin & He & Ht & Hl & Hth). exists c. split; [exact Hin|].
    now rewrite He, Ht, Hl, Hth.
Qed.

(** X5: for any array, [validateCookies] either returns or raises a
    RangeError.  When it returns, [expired] is set exactly when some
    cookie has a non-zero expiration date before the current time, and
    [expiringSoon] exactly when some cookie has a non-zero expiration date
    that is not before the current time and is before the threshold,
    whether or not other cookies have expired; [valid] is the negation of
    [expired] on a non-empty array.  It raises exactly when no cookie is
    expired, some cookie expires soon and the nearest expiry, times 1000,
    is no valid date. *)
Theorem validateCookies_flags (iso : Z -> string) (m : CookieManager)
    (nowMs : Z) (cs : list Cookie) :
  let someExpired :=
    exists c e, In c cs /\ expirationDate c = Some e /\ Num.truthy e = true /\
                (e <? nowSeconds nowMs)%js = true in
  let someSoon :=
    exists c e, In c cs /\ expirationDate c = Some e /\ Num.truthy e = true /\
                (e <? nowSeconds nowMs)%js = false /\
                (e <? expirySoonThreshold m nowMs)%js = true in
  match validateCookies iso m nowMs (JsArray cs) with
  | Normal r =>
      (expired r = true <-> someExpired) /\
      (expiringSoon r = true <-> someSoon) /\
      (cs <> [] -> valid r = negb (expired r)) /\
      (expired r = true \/ expiringSoon r = false \/
       nearestExpiry r <> NearestDate InvalidDate)
  | Throw error =>
      error = invalidTimeValue /\ ~ someExpired /\ someSoon /\
      exists c e,
        In c cs /\ expirationDate c = Some e /\ Num.truthy e = true /\
        (forall c' e', In c' cs -> expirationDate c' = Some e' ->
                       Num.truthy e' = true -> (e' <? e)%js = false) /\
        newDate (e * Num.ofZ 1000)%js = InvalidDate
  end.
Proof.
  cbn zeta.
  destruct cs as [|c0 cs].
  { cbn. split; [|split; [|split]].
    - split; [discriminate|]. now intros (c & e & [] & _).
    - split; [discriminate|]. now intros (c & e & [] & _).
    - congruence.
    - right. now left. }
  pose proof (fold_flags (nowSeconds nowMs) (expirySoonThreshold m nowMs)
                (c0 :: cs) (mkScan false false Num.PosInf)) as [Hx Hs].
  cbn [scanExpired scanSoon orb] in Hx, Hs.
  pose proof (existsb_expired (nowSeconds nowMs) (c0 :: cs)) as Hex.
  pose proof (existsb_soon (nowSeconds nowMs) (expirySoonThreshold m nowMs)
                (c0 :: cs)) as Hes.
  destruct (validate_flags iso m nowMs (c0 :: cs) ltac:(discriminate))
    as [(Hnx & Hys & Hnear & ->)|(Hwhy & msg & ->)].
  - split; [reflexivity|]. rewrite Hx in Hnx. rewrite Hs in Hys.
    split; [|split].
    + intros H. apply Hex in H. congruence.
    + now apply Hes.
    + destruct (scan_nearest (nowSeconds nowMs) (expirySoonThreshold m nowMs)
                  (c0 :: cs)) as [[Hinf|(c & e & Hin & He & Ht & Hn)] Hmin].
      * rewrite Hinf in Hnear. discriminate.
      * exists c, e. rewrite Hn in Hnear, Hmin.
        repeat split; try assumption.
        destruct e; congruence.
  - cbn [expired expiringSoon valid nearestExpiry]. rewrite Hx, Hs.
    split; [exact Hex|]. split; [exact Hes|]. split; [reflexivity|].
    rewrite Hx, Hs in Hwhy. exact Hwhy.
Qed.

(** X6: when [validateCookies] returns on a non-empty array,
    [nearestExpiry] is the [Date] made of the expiration date, times 1000,
    of the cookie that expires first among those with a non-zero
    expiration date (no such cookie has an earlier date): the fraction of
    a millisecond is cut, and the date is invalid beyond the range of
    [Date].  It is [null] only if no cookie has a non-zero expiration date
    other than Infinity.  The property is missing from the result only for
    the empty array. *)
Theorem validateCookies_nearest (iso : Z -> string) (m : CookieManager)
    (nowMs : Z) (cs : list Cookie) :
  match validateCookies iso m nowMs (JsArray cs) with
  | Normal r =>
      match nearestExpiry r with
      | NearestMissing => cs = []
      | NearestNull =>
          cs <> [] /\
          forall c e, In c cs -> expirationDate c = Some e -> Num.truthy e = true ->
                      e = Num.PosInf
      | NearestDate d =>
          exists c e,
            In c cs /\ expirationDate c = Some e /\ Num.truthy e = true /\
            d = newDate (e * Num.ofZ 1000)%js /\
            forall c' e', In c' cs -> expirationDate c' = Some e' ->
                          Num.truthy e' = true -> (e' <? e)%js = false
      end
  | Throw _ => cs <> []
  end.
Proof.
  destruct cs as [|c0 cs]; [reflexivity|].
  destruct (scan_nearest (nowSeconds nowMs) (expirySoonThreshold m nowMs)
              (c0 :: cs)) as [Hfrom Hmin].
  destruct (validate_flags iso m nowMs (c0 :: cs) ltac:(discriminate))
    as [(_ & _ & _ & ->)|(_ & msg & ->)]; [discriminate|].
  cbn [nearestExpiry].
  destruct (scanNearest _) as [| | |q] eqn:Hn.
  - destruct Hfrom as [H|(c & e & Hin & He & Ht & H)]; [discriminate|].
    subst e. discriminate.
  - split; [discriminate|]. intros c e Hin He Ht. specialize (Hmin c e Hin He Ht).
    destruct e; cbn in *; congruence.
  - destruct Hfrom as [H|(c & e & Hin & He & Ht & H)]; [discriminate|].
    exists c, e. subst e. repeat split; auto.
  - destruct Hfrom as [H|(c & e & Hin & He & Ht & H)]; [discriminate|].
    exists c, e. subst e. repeat split; auto.
Qed.

(** X7: an array of session cookies only (no cookie has an expiration
    date) is valid, has nothing expiring soon and no nearest expiry. *)
Theorem validateCookies_session_only (iso : Z -> string) (m : CookieManager)
    (nowMs : Z) (cs : list Cookie) :
  cs <> [] ->
  (forall c, In c cs -> expirationDate c = None) ->
  validateCookies iso m nowMs (JsArray cs) =
    Normal {| valid := true; expired := false; expiringSoon := false;
              nearestExpiry := NearestNull; message := "All cookies are valid" |}.
Proof.
  intros Hne Hall.
  assert (Hfold : forall st,
            fold_left (scanCookie (nowSeconds nowMs) (expirySoonThreshold m nowMs))
              cs st = st).
  { clear Hne. induction cs as [|c cs IH]; intros st; [reflexivity|]. cbn.
    unfold scanCookie at 2. rewrite (Hall c) by now left.
    apply IH. intros c' Hin. apply Hall. now right. }
  destruct cs as [|c cs]; [congruence|].
  unfold validateCookies. rewrite Hfold. reflexivity.
Qed.

Lemma validateCookies_session_only_witness :
  validateCookies Sample.toISOString Sample.manager Sample.nowMs
    (JsArray [Sample.sessionOnly; Sample.sessionOnly]) =
    Normal {| valid := true; expired := false; expiringSoon := false;
              nearestExpiry := NearestNull; message := "All cookies are valid" |}.
Proof.
  apply validateCookies_session_only.
  - discriminate.
  - intros c [<-|[<-|[]]]; reflexivity.
Defined.

(* ================================================================== *)
(** * [loadCookies] and [saveCookies]: failures and the round trip *)
(* ================================================================== *)

Lemma loadCookies_result (source : JsValue) (s : State) :
  isArray source = false ->
  let p := match source with JsString p => p | _ => cookiesPath (this s) end in
  fst (loadCookies source s) =
    Normal match files (world s) !! p with
           | Some (FileJson JsNull) | Some (FileJson JsUndefined) => JsArray []
           | Some (FileJson v) => v
           | Some (FileMalformed _) | Some (FileUnreadable _) | None => JsArray []
           end.
Proof.
  intros Hsrc. destruct s as [m w].
  destruct source as [| |p| |cs]; try discriminate; cbn;
    unfold loadCookies, tryCatch, bind, getThis, getWorld, modifyThis, ret; cbn;
    (destruct (files w !! _) as [[[| |q| |l]|e|e]|]; reflexivity).
Qed.

(** X8: [loadCookies] never raises.  With a source that is not an array it
    returns the empty array when the file is missing, cannot be read,
    does not parse, or holds [null]; otherwise it returns what the file
    holds. *)
Theorem loadCookies_safe (source : JsValue) (s : State) :
  isArray source = false ->
  let p := match source with JsString p => p | _ => cookiesPath (this s) end in
  fst (loadCookies source s) =
    Normal match files (world s) !! p with
           | Some (FileJson JsNull) | Some (FileJson JsUndefined) => JsArray []
           | Some (FileJson v) => v
           | Some (FileMalformed _) | Some (FileUnreadable _) | None => JsArray []
           end.
Proof. exact (loadCookies_result source s). Qed.

Lemma loadCookies_safe_witness :
  fst (loadCookies (JsString "missing.json")
         (mkState Sample.manager Sample.world)) = Normal (JsArray []).
Proof.
  exact (loadCookies_safe (JsString "missing.json")
           (mkState Sample.manager Sample.world) eq_refl).
Defined.

Lemma jsonCookie_finite (c : Cookie) : finiteDate c -> jsonCookie c = c.
Proof.
  destruct c as [n v d p s h e ss ho se]. unfold finiteDate, jsonCookie. cbn.
  destruct e as [[| | |q]|]; intros H; try destruct H; reflexivity.
Qed.

Lemma jsonCookie_idem (c : Cookie) : jsonCookie (jsonCookie c) = jsonCookie c.
Proof.
  destruct c as [n v d p s h e ss ho se]. unfold jsonCookie. cbn.
  now destruct e as [[| | |q]|].
Qed.

(** X9: a save that succeeds followed by a load from the same path gives
    back the saved cookies, each with an expiration date that is not a
    finite number dropped; cookies whose dates are finite or missing come
    back unchanged, and saving what was loaded stores the same content
    again. *)
Theorem save_load_round_trip (cookies : list Cookie) (s : State) :
  writeError (world s) (cookiesPath (this s)) = None ->
  let s1 := snd (saveCookies cookies s) in
  let stored := map jsonCookie cookies in
  fst (saveCookies cookies s) = Normal true /\
  fst (loadCookies (JsString (cookiesPath (this s))) s1) = Normal (JsArray stored) /\
  (Forall finiteDate cookies -> stored = cookies) /\
  files (world (snd (saveCookies stored s1))) = files (world s1).
Proof.
  intros Hwr. destruct s as [m w]. cbn [this world] in *. cbn zeta.
  rewrite (saveCookies_ok cookies m w Hwr). cbn [fst snd].
  split; [reflexivity|]. split; [|split].
  - rewrite loadCookies_result by reflexivity. cbn [this world files setFile emit].
    rewrite lookup_insert_eq.
    now destruct (map jsonCookie cookies).
  - intros Hall. induction Hall as [|c l Hc _ IH]; [reflexivity|].
    cbn. now rewrite IH, (jsonCookie_finite c Hc).
  - rewrite saveCookies_ok by exact Hwr.
    cbn [snd world files setFile emit this].
    rewrite map_map. rewrite (map_ext _ _ jsonCookie_idem).
    apply insert_insert_eq.
Qed.

Lemma save_load_round_trip_witness :
  let s := mkState Sample.manager Sample.world in
  let s1 := snd (saveCookies [Sample.fresh; Sample.sessionOnly] s) in
  let stored := map jsonCookie [Sample.fresh; Sample.sessionOnly] in
  fst (saveCookies [Sample.fresh; Sample.sessionOnly] s) = Normal true /\
  fst (loadCookies (JsString (cookiesPath (this s))) s1) = Normal (JsArray stored) /\
  (Forall finiteDate [Sample.fresh; Sample.sessionOnly] ->
   stored = [Sample.fresh; Sample.sessionOnly]) /\
  files (world (snd (saveCookies stored s1))) = files (world s1).
Proof.
  apply (save_load_round_trip [Sample.fresh; Sample.sessionOnly]
           (mkState Sample.manager Sample.world)).
  reflexivity.
Defined.

(* ================================================================== *)
(** * The timer of the periodic refresh *)
(* ================================================================== *)

(** X10: [startAutoRefresh] leaves a timer running exactly when
    auto-refresh is enabled or a timer ran already, and a second call
    changes nothing; [stopAutoRefresh] and [destroy] leave no timer, a
    second call changes nothing, and stopping after a start from a stopped
    manager gives the manager back as it was.  None of them raises or
    touches the world. *)
Theorem autoRefresh_timer (s : State) :
  let started := snd (startAutoRefresh s) in
  let stopped := snd (stopAutoRefresh s) in
  fst (startAutoRefresh s) = Normal tt /\
  fst (stopAutoRefresh s) = Normal tt /\
  refreshTimer (this started) = autoRefresh (this s) || refreshTimer (this s) /\
  world started = world s /\
  snd (startAutoRefresh started) = started /\
  refreshTimer (this stopped) = false /\
  world stopped = world s /\
  snd (stopAutoRefresh stopped) = stopped /\
  destroy s = stopAutoRefresh s /\
  (refreshTimer (this s) = false -> snd (stopAutoRefresh started) = s).
Proof.
  destruct s as [[p ri rb ar hl rt cu ce pu] w]. cbn zeta.
  unfold destroy, startAutoRefresh, stopAutoRefresh, bind, getThis, modifyThis,
    ret, setRefreshTimer.
  cbn. destruct ar, rt; cbn; repeat split; try discriminate.
Qed.

(* ================================================================== *)
(** * [extractId]: the identifier of a collection *)
(* ================================================================== *)

Lemma append_cons (c : ascii) (a b : string) :
  (String c a ++ b)%string = String c (a ++ b)%string.
Proof. reflexivity. Qed.

Lemma append_nil (b : string) : (EmptyString ++ b)%string = b.
Proof. reflexivity. Qed.

Lemma dropPrefix_app (pre s r : string) :
  Plugin.dropPrefix pre s = Some r -> s = (pre ++ r)%string.
Proof.
  revert s. induction pre as [|a pre IH]; intros s H; cbn in H.
  - now injection H as <-.
  - destruct s as [|b s]; [discriminate|].
    destruct (Ascii.eqb_spec a b) as [<-|]; [|discriminate].
    change (String a s = String a (pre ++ r)%string).
    f_equal. exact (IH s H).
Qed.

Lemma takeWhile_run (p : ascii -> bool) (s : string) :
  exists after,
    s = (Plugin.takeWhile p s ++ after)%string /\
    hasChar (fun c => negb (p c)) (Plugin.takeWhile p s) = false /\
    match after with
    | EmptyString => True
    | String c _ => p c = false
    end.
Proof.
  induction s as [|c s (after & Hs & Hno & Hend)]; cbn [Plugin.takeWhile].
  - now exists EmptyString.
  - destruct (p c) eqn:Hc.
    + exists after. rewrite append_cons, <- Hs. cbn [hasChar]. rewrite Hc.
      now repeat split.
    + exists (String c s). rewrite append_nil. cbn [hasChar]. now repeat split.
Qed.

Lemma capture_run (stops : ascii -> bool) (s id : string) :
  Plugin.capture stops s = Some id ->
  id <> "" /\
  exists after,
    s = (id ++ after)%string /\
    hasChar stops id = false /\
    match after with
    | EmptyString => True
    | String c _ => stops c = true
    end.
Proof.
  unfold Plugin.capture. intros H.
  destruct (takeWhile_run (fun c => negb (stops c)) s) as (after & Hs & Hno & Hend).
  destruct (Plugin.takeWhile _ s) as [|c run] eqn:Hrun; [discriminate|].
  injection H as <-. split; [discriminate|].
  exists after. split; [exact Hs|]. split.
  - rewrite <- Hno. clear. generalize (String c run). intros r.
    induction r as [|x r IH]; [reflexivity|].
    cbn. now rewrite IH, negb_involutive.
  - destruct after as [|x after]; [exact I|].
    now apply negb_false_iff in Hend.
Qed.

Lemma standsAfter_later (stops : ascii -> bool) (marker id link : string) (c : ascii) :
  standsAfter stops marker id link -> standsAfter stops marker id (String c link).
Proof.
  intros (before & after & -> & Hno & Hend).
  now exists (String c before), after.
Qed.

Lemma matchSegment_run (key s id : string) :
  Plugin.matchSegment key s = Some id ->
  id <> "" /\
  standsAfter (fun x => Ascii.eqb x "?" || Ascii.eqb x "/") key id s.
Proof.
  induction s as [|c s IH]; cbn [Plugin.matchSegment].
  - destruct (Plugin.dropPrefix key "") as [r|] eqn:Hdrop.
    + destruct (Plugin.capture _ r) as [found|] eqn:Hcap; [|discriminate].
      intros [= ->]. apply dropPrefix_app in Hdrop.
      destruct (capture_run _ _ _ Hcap) as (Hne & after & -> & Hno & Hend).
      split; [exact Hne|]. now exists EmptyString, after.
    + discriminate.
  - destruct (match Plugin.dropPrefix key (String c s) with
              | Some r => Plugin.capture _ r
              | None => None
              end) as [found|] eqn:Hhere.
    + intros [= ->].
      destruct (Plugin.dropPrefix key (String c s)) as [r|] eqn:Hdrop; [|discriminate].
      apply dropPrefix_app in Hdrop.
      destruct (capture_run _ _ _ Hhere) as (Hne & after & -> & Hno & Hend).
      split; [exact Hne|]. now exists EmptyString, after.
    + intros H. destruct (IH H) as [Hne Hst].
      split; [exact Hne|]. now apply standsAfter_later.
Qed.

Lemma matchList_run (s id : string) :
  Plugin.matchList s = Some id ->
  id <> "" /\
  exists marker, In marker ["?list="; "&list="] /\
                 standsAfter (fun x => Ascii.eqb x "&") marker id s.
Proof.
  induction s as [|c s IH]; cbn [Plugin.matchList]; [discriminate|].
  destruct (if Ascii.eqb c "?" || Ascii.eqb c "&"
            then match Plugin.dropPrefix "list=" s with
                 | Some r => Plugin.capture (fun x => Ascii.eqb x "&") r
                 | None => None
                 end
            else None) as [found|] eqn:Hhere.
  - intros [= ->].
    destruct (Ascii.eqb c "?" || Ascii.eqb c "&") eqn:Hsep; [|discriminate].
    destruct (Plugin.dropPrefix "list=" s) as [r|] eqn:Hdrop; [|discriminate].
    apply dropPrefix_app in Hdrop.
    destruct (capture_run _ _ _ Hhere) as (Hne & after & -> & Hno & Hend).
    split; [exact Hne|].
    apply orb_true_iff in Hsep as [Hc|Hc]; apply Ascii.eqb_eq in Hc; subst c s.
    + exists "?list=". split; [now left|]. now exists EmptyString, after.
    + exists "&list=". split; [right; now left|]. now exists EmptyString, after.
  - intros H. destruct (IH H) as (Hne & marker & Hin & Hst).
    split; [exact Hne|]. exists marker. split; [exact Hin|].
    now apply standsAfter_later.
Qed.

(** X11: when [extractId] finds the identifier of a playlist, an album or an
    artist, the identifier is not empty, it stands in the link right after
    [?list=] or [&list=] (for a playlist), [/album/] or [/artist/], it
    holds none of the characters that end it ([&] for a playlist, [?] and
    [/] otherwise), and it runs up to the first such character or to the
    end of the link. *)
Theorem extractId_collection (up : Plugin.Upstream) (link id : string) (t : Plugin.IdType) :
  Plugin.extractId up link = (t, Some id) ->
  t <> Plugin.video ->
  id <> "" /\
  exists marker, In marker (idMarkers t) /\ standsAfter (idStops t) marker id link.
Proof.
  unfold Plugin.extractId. intros H Ht.
  destruct (includes "/playlist" link || includes "list=" link).
  { injection H as <- Hid. exact (matchList_run _ _ Hid). }
  destruct (includes "/album/" link).
  { injection H as <- Hid. destruct (matchSegment_run _ _ _ Hid) as [Hne Hst].
    split; [exact Hne|]. exists "/album/". split; [now left|exact Hst]. }
  destruct (includes "/artist/" link).
  { injection H as <- Hid. destruct (matchSegment_run _ _ _ Hid) as [Hne Hst].
    split; [exact Hne|]. exists "/artist/". split; [now left|exact Hst]. }
  destruct (includes "/watch" link || Plugin.validateURL up link);
    injection H as <- _; now destruct Ht.
Qed.

Lemma extractId_collection_witness :
  "PL123"%string <> ""%string /\
  exists marker, In marker (idMarkers Plugin.playlist) /\
                 standsAfter (idStops Plugin.playlist) marker "PL123" Sample.playlistLink.
Proof.
  apply (extractId_collection Sample.upstream Sample.playlistLink "PL123" Plugin.playlist).
  - reflexivity.
  - discriminate.
Defined.

(* ================================================================== *)
(** * [resolve]: what it returns and what it raises *)
(* ================================================================== *)

Lemma orString_filled (s : option string) (d : string) : d <> "" -> orString s d <> "".
Proof.
  intros Hd. unfold orString. destruct s as [x|]; [|exact Hd].
  destruct (String.eqb_spec x ""); [exact Hd|assumption].
Qed.

Lemma newSong_normal (up : Plugin.Upstream) (i : Plugin.SongInfo)
    (o : option Plugin.ResolveOptions) (s : Plugin.Song) :
  Plugin.newSong up i o = Normal s -> s = Plugin.mkSong i o.
Proof.
  unfold Plugin.newSong. destruct (Plugin.songError up i); [discriminate|].
  now intros [= <-].
Qed.

Lemma processTrack_some (up : Plugin.Upstream) (o : Plugin.ResolveOptions)
    (track : option Plugin.Track) (s : Plugin.Song) :
  Plugin.processTrack up o track = Some s ->
  pluginSong s /\ Plugin.songOptions s = Some o /\
  trackId track = Some (Plugin.songId (Plugin.info s)).
Proof.
  unfold Plugin.processTrack, trackId, usableId.
  destruct track as [t|]; [|discriminate].
  destruct (Plugin.videoId t) as [vid|]; [|discriminate].
  destruct (String.eqb_spec vid ""); [discriminate|].
  destruct (Plugin.newSong up _ _) as [song|e] eqn:Hnew; [|discriminate].
  intros [= <-]. apply newSong_normal in Hnew. subst song.
  now repeat split.
Qed.

Lemma omap_processTrack (up : Plugin.Upstream) (o : Plugin.ResolveOptions)
    (l : list (option Plugin.Track)) :
  Forall (fun s => pluginSong s /\ Plugin.songOptions s = Some o)
         (omap (Plugin.processTrack up o) l).
Proof.
  induction l as [|t l IH]; cbn; [constructor|].
  destruct (Plugin.processTrack up o t) as [s|] eqn:Ht; [|exact IH].
  constructor; [|exact IH].
  destruct (processTrack_some _ _ _ _ Ht) as (H1 & H2 & _). now split.
Qed.

Lemma resolveCollection_normal (up : Plugin.Upstream) (this : Plugin.YouTubeMusicPlugin)
    (link id : string) (o : Plugin.ResolveOptions) fetched (what unknownName noSongs : string)
    (r : Plugin.Resolved) :
  Plugin.resolveCollection up this link id o fetched what unknownName noSongs = Normal r ->
  exists p, r = Plugin.ResolvedPlaylist p /\
    Plugin.plSource (Plugin.playlistInfo p) = "youtube-music" /\
    Plugin.plId (Plugin.playlistInfo p) = id /\
    Plugin.plUrl (Plugin.playlistInfo p) = link /\
    Plugin.songs (Plugin.playlistInfo p) <> [] /\
    Forall (fun s => pluginSong s /\ Plugin.songOptions s = Some o)
           (Plugin.songs (Plugin.playlistInfo p)) /\
    Plugin.playlistOptions p = o.
Proof.
  unfold Plugin.resolveCollection.
  destruct fetched as [[[cn th] [ts|]]|]; try discriminate.
  pose proof (omap_processTrack up o
                (Plugin.sliceFromStart ts (Plugin.maxViews (Plugin.options this)))) as Hall.
  rewrite <- processPlaylistTracks_omap with (this := this) in Hall.
  destruct (Plugin.processPlaylistTracks up this _ o) as [|sg sgs] eqn:Hconv;
    [discriminate|].
  unfold Plugin.newPlaylist, Plugin.cbind.
  destruct (Plugin.playlistError up _); [discriminate|].
  intros [= <-]. eexists. split; [reflexivity|]. cbn.
  repeat split; try exact Hall. discriminate.
Qed.

Lemma resolveVideo_normal (up : Plugin.Upstream) (id : string) (o : Plugin.ResolveOptions)
    (r : Plugin.Resolved) :
  id <> "" ->
  Plugin.resolveVideo up id o = Normal r ->
  exists s, r = Plugin.ResolvedSong s /\ pluginSong s /\
            Plugin.songId (Plugin.info s) = id /\ Plugin.songOptions s = Some o.
Proof.
  intros Hid. unfold Plugin.resolveVideo, Plugin.cbind.
  destruct (Plugin.getInfo up _) as [[i|]|e]; try discriminate.
  destruct (Plugin.videoDetails i) as [vd|]; [|discriminate].
  destruct (Plugin.vdThumbnails vd) as [l|]; [|discriminate].
  destruct (Plugin.newSong up _ _) as [song|e] eqn:Hnew; [|discriminate].
  intros [= <-]. apply newSong_normal in Hnew. subst song.
  eexists. split; [reflexivity|]. now repeat split.
Qed.

(** X12: what [resolve] returns.  A result comes only from a link that is
    not empty and from which [extractId] read an identifier that is not
    empty.  A song is returned only for a link of the kind "video": it
    carries the identifier, the watch address of the identifier and the
    caller's options.  A collection is returned only for the three other
    kinds: it carries the identifier and the link, and its song list is not
    empty and holds only songs with an identifier, the watch address of
    that identifier and the caller's options. *)
Theorem resolve_result (up : Plugin.Upstream) (this : Plugin.YouTubeMusicPlugin)
    (link : string) (o : Plugin.ResolveOptions) (r : Plugin.Resolved) :
  Plugin.resolve up this link o = Normal r ->
  link <> "" /\
  exists id, snd (Plugin.extractId up link) = Some id /\ id <> "" /\
    match r with
    | Plugin.ResolvedSong s =>
        fst (Plugin.extractId up link) = Plugin.video /\
        pluginSong s /\ Plugin.songId (Plugin.info s) = id /\
        Plugin.songOptions s = Some o
    | Plugin.ResolvedPlaylist p =>
        fst (Plugin.extractId up link) <> Plugin.video /\
        Plugin.plSource (Plugin.playlistInfo p) = "youtube-music" /\
        Plugin.plId (Plugin.playlistInfo p) = id /\
        Plugin.plUrl (Plugin.playlistInfo p) = link /\
        Plugin.songs (Plugin.playlistInfo p) <> [] /\
        Forall (fun s => pluginSong s /\ Plugin.songOptions s = Some o)
               (Plugin.songs (Plugin.playlistInfo p)) /\
        Plugin.playlistOptions p = o
    end.
Proof.
  unfold Plugin.resolve.
  destruct (String.eqb_spec link "") as [|Hlink]; [discriminate|].
  destruct (Plugin.extractId up link) as [t [id|]]; [|discriminate].
  destruct (String.eqb_spec id "") as [|Hid]; [discriminate|].
  intros H. split; [exact Hlink|]. exists id. split; [reflexivity|].
  split; [exact Hid|]. cbn [fst snd].
  unfold Plugin.ctry in H.
  destruct t; cbn [Plugin.cbind] in H.
  - destruct (Plugin.getPlaylist up id) as [fetched|e]; cbn in H; [|discriminate].
    destruct (Plugin.resolveCollection _ _ _ _ _ _ _ _ _) as [r'|e] eqn:Hcol;
      [|discriminate].
    injection H as <-.
    destruct (resolveCollection_normal _ _ _ _ _ _ _ _ _ _ Hcol) as (p & -> & Hp).
    split; [discriminate|exact Hp].
  - destruct (Plugin.getAlbum up id) as [fetched|e]; cbn in H; [|discriminate].
    destruct (Plugin.resolveCollection _ _ _ _ _ _ _ _ _) as [r'|e] eqn:Hcol;
      [|discriminate].
    injection H as <-.
    destruct (resolveCollection_normal _ _ _ _ _ _ _ _ _ _ Hcol) as (p & -> & Hp).
    split; [discriminate|exact Hp].
  - destruct (Plugin.getArtist up id) as [fetched|e]; cbn in H; [|discriminate].
    destruct (Plugin.resolveCollection _ _ _ _ _ _ _ _ _) as [r'|e] eqn:Hcol;
      [|discriminate].
    injection H as <-.
    destruct (resolveCollection_normal _ _ _ _ _ _ _ _ _ _ Hcol) as (p & -> & Hp).
    split; [discriminate|exact Hp].
  - destruct (Plugin.resolveVideo up id o) as [r'|e] eqn:Hvid; [|discriminate].
    injection H as <-.
    destruct (resolveVideo_normal _ _ _ _ Hid Hvid) as (s & -> & Hs).
    split; [reflexivity|exact Hs].
Qed.

(** X13: what [resolve] raises.  An empty link is refused with the
    INVALID_TYPE error of the host, and nothing else is.  Every other
    error is a YTMUSIC_PLUGIN_ERROR: "Could not extract ID from URL" when
    [extractId] read no identifier or an empty one, and otherwise "Failed
    to resolve", the kind of the link and a cause that is never empty, so
    that no error of the upstream clients or of the constructors leaves
    [resolve] as it was raised. *)
Theorem resolve_errors (up : Plugin.Upstream) (this : Plugin.YouTubeMusicPlugin)
    (link : string) (o : Plugin.ResolveOptions) :
  (link = "" -> Plugin.resolve up this link o = Throw (invalidType up "url")) /\
  (forall e, Plugin.resolve up this link o = Throw e ->
     (link = "" /\ e = invalidType up "url") \/
     (link <> "" /\
      (snd (Plugin.extractId up link) = None \/ snd (Plugin.extractId up link) = Some "") /\
      e = Plugin.pluginError "Could not extract ID from URL") \/
     (link <> "" /\
      exists id cause,
        snd (Plugin.extractId up link) = Some id /\ id <> "" /\ cause <> "" /\
        e = Plugin.pluginError
              ("Failed to resolve " ++ Plugin.typeName (fst (Plugin.extractId up link)) ++
               ": " ++ cause))).
Proof.
  unfold Plugin.resolve, invalidType. split.
  - now intros ->.
  - intros e.
    destruct (String.eqb_spec link "") as [|Hlink].
    { intros [= <-]. now left. }
    destruct (Plugin.extractId up link) as [t [id|]]; cbn [fst snd].
    2:{ intros [= <-]. right. left. split; [exact Hlink|]. split; [now left|reflexivity]. }
    destruct (String.eqb_spec id "") as [->|Hid].
    { intros [= <-]. right. left. split; [exact Hlink|]. split; [now right|reflexivity]. }
    unfold Plugin.ctry.
    match goal with |- match ?body with _ => _ end = _ -> _ => destruct body as [r|e0] end;
      [discriminate|].
    intros [= <-]. right. right. split; [exact Hlink|].
    exists id, (orString (Some (errMessage e0)) "Unknown error").
    split; [reflexivity|]. split; [exact Hid|].
    split; [now apply orString_filled|reflexivity].
Qed.

(* ================================================================== *)
(** * [getStreamURL]: every outcome *)
(* ================================================================== *)

(** X14: every outcome of [getStreamURL].  A returned address is never
    empty.  A missing song or a song without an identifier is refused
    with the INVALID_TYPE error of the host, and nothing else is; every
    other error is a YTMUSIC_PLUGIN_ERROR with a message that is not
    empty, whatever the stream client raised and also when the plugin has
    no host yet. *)
Theorem getStreamURL_outcomes (up : Plugin.Upstream) (this : Plugin.YouTubeMusicPlugin)
    (song : option Plugin.Song) :
  let missing :=
    match song with
    | Some s => String.eqb (Plugin.songId (Plugin.info s)) ""
    | None => true
    end in
  match Plugin.getStreamURL up this song with
  | Normal address => address <> "" /\ missing = false
  | Throw e =>
      (missing = true /\ e = invalidType up "Song") \/
      (missing = false /\ exists cause, cause <> "" /\ e = Plugin.pluginError cause)
  end.
Proof.
  cbn zeta. unfold Plugin.getStreamURL, invalidType.
  destruct song as [s|]; [|now left].
  destruct (String.eqb (Plugin.songId (Plugin.info s)) ""); [now left|].
  unfold Plugin.ctry.
  match goal with |- match (match ?body with _ => _ end) with _ => _ end =>
    destruct body as [address|e0] eqn:Hbody end.
  - split; [|reflexivity].
    unfold Plugin.cbind in Hbody.
    destruct (Plugin.getInfo up _) as [[i|]|e]; try discriminate.
    destruct (Plugin.distube this) as [y|]; [|discriminate].
    destruct (Plugin.chooseFormat up _ _) as [[f|]|e]; try discriminate.
    destruct (Plugin.formatUrl f) as [u|]; [|discriminate].
    destruct (String.eqb_spec u ""); [discriminate|].
    now injection Hbody as <-.
  - right. split; [reflexivity|].
    exists (orString (Some (errMessage e0)) "Failed to get stream URL").
    split; [now apply orString_filled|reflexivity].
Qed.

(* ================================================================== *)
(** * [processPlaylistTracks]: the identifiers of the songs *)
(* ================================================================== *)

Lemma omap_processTrack_ids (up : Plugin.Upstream) (o : Plugin.ResolveOptions)
    (l : list (option Plugin.Track)) :
  (forall i, Plugin.songError up i = None) ->
  songIds (omap (Plugin.processTrack up o) l) = omap trackId l.
Proof.
  intros Hctor. induction l as [|t l IH]; [reflexivity|].
  cbn [omap list_omap]. unfold Plugin.processTrack at 1, trackId at 1, usableId at 1.
  destruct t as [t|]; [|exact IH].
  destruct (Plugin.videoId t) as [vid|]; [|exact IH].
  destruct (String.eqb vid ""); [exact IH|].
  unfold Plugin.newSong. rewrite Hctor. cbn. f_equal. exact IH.
Qed.

(** X15: when the [Song] constructor does not raise, the songs that
    [processPlaylistTracks] returns carry, in the order of the tracks, the
    identifiers of the tracks that have one, each with its watch address
    and the caller's member and metadata. *)
Theorem processPlaylistTracks_ids (up : Plugin.Upstream) (this : Plugin.YouTubeMusicPlugin)
    (l : list (option Plugin.Track)) (o : Plugin.ResolveOptions) :
  (forall i, Plugin.songError up i = None) ->
  songIds (Plugin.processPlaylistTracks up this l o) = omap trackId l /\
  Forall (fun s => pluginSong s /\
                   Plugin.songMember (Plugin.info s) = Plugin.member o /\
                   Plugin.songMetadata (Plugin.info s) = Plugin.metadata o /\
                   Plugin.songOptions s = Some o)
         (Plugin.processPlaylistTracks up this l o).
Proof.
  intros Hctor. rewrite processPlaylistTracks_omap. split.
  - now apply omap_processTrack_ids.
  - clear Hctor. induction l as [|t l IH]; cbn; [constructor|].
    destruct (Plugin.processTrack up o t) as [s|] eqn:Ht; [|exact IH].
    constructor; [|exact IH].
    destruct (processTrack_some _ _ _ _ Ht) as (H1 & H2 & _).
    unfold Plugin.processTrack in Ht.
    destruct t as [t|]; [|discriminate].
    destruct (Plugin.videoId t) as [vid|]; [|discriminate].
    destruct (String.eqb vid ""); [discriminate|].
    destruct (Plugin.newSong up _ _) as [song|e] eqn:Hnew; [|discriminate].
    injection Ht as <-. apply newSong_normal in Hnew. subst song.
    split; [exact H1|]. now repeat split.
Qed.

Lemma processPlaylistTracks_ids_witness :
  songIds (Plugin.processPlaylistTracks Sample.upstream Sample.plugin
             [Sample.track "v01"; None; Sample.track ""; Sample.track "v02"]
             Sample.noResolveOptions) = ["v01"; "v02"].
Proof.
  exact (proj1 (processPlaylistTracks_ids Sample.upstream Sample.plugin
                  [Sample.track "v01"; None; Sample.track ""; Sample.track "v02"]
                  Sample.noResolveOptions (fun _ => eq_refl))).
Defined.

(* ================================================================== *)
(** * [searchSong], [searchSongs] and [getRelatedSongs] *)
(* ================================================================== *)

Lemma collectResults_normal (up : Plugin.Upstream) (o : Plugin.ResolveOptions)
    (results : list (option Search.SearchResult)) (acc l : list Plugin.Song) :
  Search.collectResults up o results acc = Normal l ->
  exists new,
    l = acc ++ new /\
    songIds new = omap resultId results /\
    Forall (fun s => pluginSong s /\ Plugin.songOptions s = Some o) new.
Proof.
  revert acc. induction results as [|r results IH]; intros acc; cbn [Search.collectResults].
  - intros [= <-]. exists []. now rewrite app_nil_r.
  - destruct r as [r|]; [|discriminate].
    cbn [omap list_omap resultId]. unfold usableId.
    destruct (Search.videoId r) as [vid|]; [|exact (IH acc)].
    destruct (String.eqb_spec vid "") as [|Hvid]; [exact (IH acc)|].
    unfold Plugin.cbind.
    destruct (Plugin.newSong up _ _) as [song|e] eqn:Hnew; [|discriminate].
    apply newSong_normal in Hnew. intros H.
    destruct (IH _ H) as (new & -> & Hids & Hall).
    exists (song :: new). rewrite <- app_assoc. split; [reflexivity|].
    subst song. split.
    + cbn. now rewrite <- Hids.
    + constructor; [|exact Hall]. now repeat split.
Qed.

Lemma collectRelated_normal (up : Plugin.Upstream)
    (trackList : list (option Plugin.Track)) (acc l : list Plugin.Song) :
  Search.collectRelated up trackList acc = Normal l ->
  exists new,
    l = acc ++ new /\
    songIds new = omap trackId trackList /\
    Forall (fun s => pluginSong s /\ Plugin.songOptions s = None /\
                     Plugin.songMember (Plugin.info s) = None /\
                     Plugin.songMetadata (Plugin.info s) = None) new.
Proof.
  revert acc. induction trackList as [|t trackList IH]; intros acc;
    cbn [Search.collectRelated].
  - intros [= <-]. exists []. now rewrite app_nil_r.
  - cbn [omap list_omap]. unfold trackId at 1, usableId.
    destruct t as [t|]; [|exact (IH acc)].
    destruct (Plugin.videoId t) as [vid|]; [|exact (IH acc)].
    destruct (String.eqb_spec vid "") as [|Hvid]; [exact (IH acc)|].
    unfold Plugin.cbind.
    destruct (Plugin.newSong up _ _) as [song|e] eqn:Hnew; [|discriminate].
    apply newSong_normal in Hnew. intros H.
    destruct (IH _ H) as (new & -> & Hids & Hall).
    exists (song :: new). rewrite <- app_assoc. split; [reflexivity|].
    subst song. split.
    + cbn. now rewrite <- Hids.
    + constructor; [|exact Hall]. now repeat split.
Qed.

Lemma collectResults_null (up : Plugin.Upstream) (o : Plugin.ResolveOptions)
    (results : list (option Search.SearchResult)) :
  In None results ->
  forall acc l, Search.collectResults up o results acc <> Normal l.
Proof.
  induction results as [|r rs IH]; intros Hin acc l; [destruct Hin|].
  cbn [Search.collectResults]. destruct Hin as [->|Hin]; [discriminate|].
  destruct r as [r|]; [|discriminate].
  destruct (Search.videoId r) as [vid|]; [|exact (IH Hin acc l)].
  destruct (String.eqb vid ""); [exact (IH Hin acc l)|].
  unfold Plugin.cbind. destruct (Plugin.newSong up _ _); [|discriminate].
  exact (IH Hin _ l).
Qed.

Lemma songIds_length (l : list Plugin.Song) : length (songIds l) = length l.
Proof. apply length_map. Qed.

Lemma ofZ_le (a b : Z) : (Num.ofZ a <=? Num.ofZ b)%js = true <-> a <= b.
Proof.
  unfold Num.ofZ. cbn. rewrite Qle_bool_iff. now rewrite Zle_Qle.
Qed.

(** X16: [searchSongs] never raises.  It returns songs that carry an
    identifier, its watch address and the caller's options; with a limit
    that is not negative it returns no more songs than the limit, and three
    at most when no limit is given. *)
Theorem searchSongs_limit (up : Plugin.Upstream) (yt : Search.Client) (query : string)
    (o : Search.SearchSongsOptions) :
  exists l,
    Search.searchSongs up yt query o = Normal l /\
    Forall (fun s => pluginSong s /\
                     Plugin.songOptions s = Some (Search.resolveOptions o)) l /\
    ((Num.ofZ 0 <=? Search.effectiveLimit o)%js = true ->
     (Num.ofZ (Z.of_nat (length l)) <=? Search.effectiveLimit o)%js = true) /\
    (Search.limit o = None -> (length l <= 3)%nat).
Proof.
  assert (Hempty : forall cap,
             Forall (fun s => pluginSong s /\
                              Plugin.songOptions s = Some (Search.resolveOptions o)) [] /\
             ((Num.ofZ 0 <=? cap)%js = true ->
              (Num.ofZ (Z.of_nat (@length Plugin.Song [])) <=? cap)%js = true) /\
             (Search.limit o = None -> (@length Plugin.Song [] <= 3)%nat)).
  { intros cap. split; [constructor|]. split; [now intros H|]. cbn. lia. }
  unfold Search.searchSongs, Plugin.ctry, Plugin.cbind.
  destruct (Search.searchMethod yt _ query) as [[found|]|e];
    try (exists []; split; [reflexivity|apply Hempty]).
  destruct found as [|r0 found]; [exists []; split; [reflexivity|apply Hempty]|].
  destruct (Search.collectResults up _ _ []) as [l|e] eqn:Hcol;
    [|exists []; split; [reflexivity|apply Hempty]].
  exists l. split; [reflexivity|].
  destruct (collectResults_normal _ _ _ _ _ Hcol) as (new & -> & Hids & Hall).
  cbn [app]. split; [exact Hall|].
  assert (Hlen : (length new <=
                  length (Plugin.sliceFromStart (r0 :: found)
                            (Some (Search.effectiveLimit o))))%nat).
  { rewrite <- songIds_length, Hids. apply length_omap_le. }
  split.
  - intros Hcap.
    pose proof (sliceFromStart_bound (r0 :: found) _ Hcap) as Hbound.
    apply Nat2Z.inj_le in Hlen.
    exact (le_trans_ofZ _ _ _ Hlen Hbound).
  - intros Hnone.
    assert (Hthree : Search.effectiveLimit o = Num.ofZ 3)
      by (unfold Search.effectiveLimit; now rewrite Hnone).
    rewrite Hthree in Hlen.
    pose proof (sliceFromStart_bound (r0 :: found) (Num.ofZ 3) eq_refl) as Hbound.
    apply ofZ_le in Hbound. lia.
Qed.

(** X17: [searchSongs] returns all or nothing.  Either the list is empty,
    or the search answered an array and the list holds, in the order of
    the answer, one song for every entry with an identifier among the
    entries up to the limit: an entry that is null or a [Song] constructor
    that raises loses the songs found before it, where
    [processPlaylistTracks] drops the one track only. *)
Theorem searchSongs_all_or_nothing (up : Plugin.Upstream) (yt : Search.Client)
    (query : string) (o : Search.SearchSongsOptions) :
  exists l,
    Search.searchSongs up yt query o = Normal l /\
    (l = [] \/
     exists found,
       Search.searchMethod yt (orString (Search.type o) "song") query = Normal (Some found) /\
       songIds l =
         omap resultId (Plugin.sliceFromStart found (Some (Search.effectiveLimit o)))) /\
    (forall found,
       Search.searchMethod yt (orString (Search.type o) "song") query = Normal (Some found) ->
       In None (Plugin.sliceFromStart found (Some (Search.effectiveLimit o))) ->
       l = []).
Proof.
  unfold Search.searchSongs, Plugin.ctry, Plugin.cbind.
  destruct (Search.searchMethod yt _ query) as [[found|]|e];
    try (exists []; split; [reflexivity|]; split; [now left|reflexivity]).
  destruct found as [|r0 found];
    [exists []; split; [reflexivity|]; split; [now left|reflexivity]|].
  destruct (Search.collectResults up _ _ []) as [l|e] eqn:Hcol;
    [|exists []; split; [reflexivity|]; split; [now left|reflexivity]].
  exists l. split; [reflexivity|].
  destruct (collectResults_normal _ _ _ _ _ Hcol) as (new & -> & Hids & Hall).
  cbn [app]. split.
  - right. exists (r0 :: found). split; [reflexivity|exact Hids].
  - intros found' [= <-] Hin. exfalso.
    exact (collectResults_null _ _ _ Hin _ _ Hcol).
Qed.

(** X18: [searchSong] never raises, and a song it returns is built from the
    first entry of the answer alone: it carries the identifier of that
    entry, which is not empty, its watch address, the name of the entry
    or "Unknown Title", and the caller's options. *)
Theorem searchSong_first (up : Plugin.Upstream) (yt : Search.Client) (query : string)
    (o : Plugin.ResolveOptions) :
  exists r,
    Search.searchSong up yt query o = Normal r /\
    forall s, r = Some s ->
      pluginSong s /\ Plugin.songOptions s = Some o /\
      exists firstResult rest,
        Search.ytSearchSongs yt query = Normal (Some (Some firstResult :: rest)) /\
        Search.videoId firstResult = Some (Plugin.songId (Plugin.info s)) /\
        Plugin.songName (Plugin.info s) = orString (Search.name firstResult) "Unknown Title" /\
        Plugin.songDuration (Plugin.info s) =
          Plugin.durationSeconds (Search.duration firstResult).
Proof.
  unfold Search.searchSong, Plugin.ctry, Plugin.cbind.
  destruct (Search.ytSearchSongs yt query) as [[[|[r|] rest]|]|e];
    try (exists None; split; [reflexivity|discriminate]).
  destruct (Search.videoId r) as [vid|] eqn:Hvid;
    [|exists None; split; [reflexivity|discriminate]].
  destruct (String.eqb_spec vid "") as [|Hne];
    [exists None; split; [reflexivity|discriminate]|].
  destruct (Plugin.newSong up _ _) as [song|e] eqn:Hnew;
    [|exists None; split; [reflexivity|discriminate]].
  apply newSong_normal in Hnew. subst song.
  eexists. split; [reflexivity|]. intros s [= <-].
  split; [now repeat split|]. split; [reflexivity|].
  exists r, rest. now repeat split.
Qed.

(** X19: [getRelatedSongs] never raises.  Its songs carry an identifier and
    its watch address but neither options, member nor metadata.  Either
    the list is empty, or the song had an identifier, the client answered
    a track array for it, and the list holds, in order, one song for every
    track with an identifier; a null track is passed over. *)
Theorem getRelatedSongs_safe (up : Plugin.Upstream) (yt : Search.Client)
    (song : option Plugin.Song) :
  exists l,
    Search.getRelatedSongs up yt song = Normal l /\
    Forall (fun s => pluginSong s /\ Plugin.songOptions s = None /\
                     Plugin.songMember (Plugin.info s) = None /\
                     Plugin.songMetadata (Plugin.info s) = None) l /\
    (l = [] \/
     exists s data trackList,
       song = Some s /\ Plugin.songId (Plugin.info s) <> "" /\
       Search.ytGetRelated yt (Plugin.songId (Plugin.info s)) = Normal (Some data) /\
       Search.relatedTracks data = Some trackList /\
       songIds l = omap trackId trackList).
Proof.
  unfold Search.getRelatedSongs.
  destruct song as [s|];
    [|exists []; split; [reflexivity|]; split; [constructor|now left]].
  destruct (String.eqb_spec (Plugin.songId (Plugin.info s)) "") as [|Hid];
    [exists []; split; [reflexivity|]; split; [constructor|now left]|].
  unfold Plugin.ctry, Plugin.cbind.
  destruct (Search.ytGetRelated yt _) as [[data|]|e] eqn:Hrel;
    try (exists []; split; [reflexivity|]; split; [constructor|now left]).
  destruct (Search.relatedTracks data) as [trackList|] eqn:Htracks;
    [|exists []; split; [reflexivity|]; split; [constructor|now left]].
  destruct (Search.collectRelated up trackList []) as [l|e] eqn:Hcol;
    [|exists []; split; [reflexivity|]; split; [constructor|now left]].
  exists l. split; [reflexivity|].
  destruct (collectRelated_normal _ _ _ _ Hcol) as (new & -> & Hids & Hall).
  cbn [app]. split; [exact Hall|].
  right. exists s, data, trackList. now repeat split.
Qed.

(* ================================================================== *)
(** * The two forms of a cookie *)
(* ================================================================== *)

Lemma truthy_positive (q : Q) : (0 < q)%Q -> Num.truthy (Num.Fin q) = true.
Proof.
  intros Hq. cbn. apply negb_true_iff.
  destruct (Qeq_bool q 0) eqn:E; [|reflexivity].
  apply Qeq_bool_iff in E. rewrite E in Hq. now apply Qlt_irrefl in Hq.
Qed.

Lemma round_trip_one (p : PCookie) :
  browserForm p ->
  toPuppeteerCookie (jsonCookie (formatCookie p)) = p.
Proof.
  destruct p as [n v d pa e ho se ss].
  intros (Hd & Hp & He & Hss). cbn in Hd, Hp, He, Hss.
  unfold toPuppeteerCookie, jsonCookie, formatCookie.
  cbn -[orString orNumber convertSameSite convertSameSiteToString Num.truthy Num.lt].
  assert (Hdom : orString (Some d) ".youtube.com" = d).
  { unfold orString. now destruct (String.eqb_spec d ""). }
  assert (Hpath : orString (Some pa) "/" = pa).
  { unfold orString. now destruct (String.eqb_spec pa ""). }
  assert (Hsame : convertSameSite (Some (convertSameSiteToString ss)) =
                  default "" ss /\ ss = Some (default "" ss)).
  { destruct Hss as [<-|[<-|[<-|[]]]]; now split. }
  destruct Hsame as [Hsame Hss'].
  assert (Hexp : orNumber
                   match (if Num.truthy e && (Num.ofZ 0 <? e)%js then Some e else None) with
                   | Some (Num.Fin q) => Some (Num.Fin q)
                   | _ => None
                   end (Num.ofZ (-1)) = e).
  { destruct He as [->|(q & -> & Hq)]; [reflexivity|].
    rewrite (truthy_positive q Hq).
    assert (Hlt : (Num.ofZ 0 <? Num.Fin q)%js = true) by now apply Qltb_lt.
    rewrite Hlt. cbn [andb orNumber]. now rewrite (truthy_positive q Hq). }
  rewrite Hdom, Hpath, Hsame, Hexp, <- Hss'. reflexivity.
Qed.

(** X20: a cookie read from the browser, written to the cookie file and
    read back is handed to the browser again as it was, provided it names
    its domain and its path, expires at a finite positive time or is
    marked [-1], and has one of the policies None, Lax and Strict: the
    conversion of [refreshCookies] to the stored form, the file, and the
    conversion back undo one another. *)
Theorem browser_cookie_round_trip (p : PCookie) :
  browserForm p ->
  toPuppeteerCookie (jsonCookie (formatCookie p)) = p.
Proof. exact (round_trip_one p). Qed.

Lemma browser_cookie_round_trip_witness :
  toPuppeteerCookie (jsonCookie (formatCookie Sample.pageCookie)) = Sample.pageCookie.
Proof.
  apply (browser_cookie_round_trip Sample.pageCookie).
  split; [discriminate|]. split; [discriminate|]. split.
  - right. exists (inject_Z 1731536000). split; reflexivity.
  - right. now left.
Defined.

(** X21: the stored form that [refreshCookies] gives a cookie of the
    browser.  The stored cookie has an expiration date exactly when the
    browser's [expires] is above zero, and the date is that number; a
    cookie stored as a session cookie has no date; and [validateCookies]
    counts a stored cookie as expired only when the browser's [expires]
    is above zero and before the present time, so never for the mark
    [-1] of a session cookie. *)
Theorem formatCookie_dates (p : PCookie) (now : number) :
  let c := formatCookie p in
  (forall e, expirationDate c = Some e <->
             e = pExpires p /\ (Num.ofZ 0 <? pExpires p)%js = true) /\
  (session c = Some true -> expirationDate c = None) /\
  (expiredCookie now c = true ->
   (Num.ofZ 0 <? pExpires p)%js = true /\ (pExpires p <? now)%js = true).
Proof.
  destruct p as [n v d pa e ho se ss]. cbn zeta.
  unfold formatCookie, expiredCookie.
  cbn [expirationDate session pExpires].
  assert (Hpos : (Num.ofZ 0 <? e)%js = true -> Num.truthy e = true).
  { destruct e as [| | |q]; try (intros; reflexivity || discriminate).
    intros H. apply truthy_positive. now apply Qltb_lt in H. }
  assert (Hone : numEqb e (Num.ofZ (-1)) = true -> (Num.ofZ 0 <? e)%js = false).
  { destruct e as [| | |q]; try discriminate. cbn. intros H.
    apply Qeq_bool_iff in H.
    destruct (Num.Qltb (inject_Z 0) q) eqn:E; [|reflexivity].
    apply Qltb_lt in E. rewrite H in E. discriminate. }
  destruct (Num.ofZ 0 <? e)%js eqn:Hlt.
  - rewrite (Hpos eq_refl). cbn [andb negb orb].
    split; [|split].
    + intros e'. split; [now intros [= <-]|now intros [-> _]].
    + intros [= H]. now apply Hone in H.
    + intros H. apply andb_true_iff in H as [_ H]. now split.
  - rewrite andb_false_r. split; [|split].
    + intros e'. split; [discriminate|now intros [_ H]].
    + reflexivity.
    + discriminate.
Qed.

(* ================================================================== *)
(** * [resolve] on sample links, and the numbers of a resolved video *)
(* ================================================================== *)

Lemma resolve_result_witness :
  Sample.playlistLink <> "" /\
  exists id, snd (Plugin.extractId Sample.upstream Sample.playlistLink) = Some id /\
    id <> "" /\
    match Fixture.resolvedMix with
    | Plugin.ResolvedSong s =>
        fst (Plugin.extractId Sample.upstream Sample.playlistLink) = Plugin.video /\
        pluginSong s /\ Plugin.songId (Plugin.info s) = id /\
        Plugin.songOptions s = Some Sample.noResolveOptions
    | Plugin.ResolvedPlaylist p =>
        fst (Plugin.extractId Sample.upstream Sample.playlistLink) <> Plugin.video /\
        Plugin.plSource (Plugin.playlistInfo p) = "youtube-music" /\
        Plugin.plId (Plugin.playlistInfo p) = id /\
        Plugin.plUrl (Plugin.playlistInfo p) = Sample.playlistLink /\
        Plugin.songs (Plugin.playlistInfo p) <> [] /\
        Forall (fun s => pluginSong s /\ Plugin.songOptions s = Some Sample.noResolveOptions)
               (Plugin.songs (Plugin.playlistInfo p)) /\
        Plugin.playlistOptions p = Sample.noResolveOptions
    end.
Proof.
  apply (resolve_result Sample.upstream Sample.plugin Sample.playlistLink
           Sample.noResolveOptions Fixture.resolvedMix).
  vm_compute. reflexivity.
Defined.

(** X22: the numbers of a resolved video.  The duration of a song that
    [resolve] returns for a video is never NaN: a length that is missing,
    zero or not a number gives the duration zero.  Its live flag and its
    view count are always set (the view count may be NaN, and the songs of
    a collection may carry a NaN duration). *)
Theorem resolve_video_numbers (up : Plugin.Upstream) (this : Plugin.YouTubeMusicPlugin)
    (link : string) (o : Plugin.ResolveOptions) (s : Plugin.Song) :
  Plugin.resolve up this link o = Normal (Plugin.ResolvedSong s) ->
  Plugin.songDuration (Plugin.info s) <> Num.NaN /\
  (Num.truthy (Plugin.songDuration (Plugin.info s)) = false ->
   Plugin.songDuration (Plugin.info s) = Num.ofZ 0) /\
  Plugin.songIsLive (Plugin.info s) <> None /\
  Plugin.songViews (Plugin.info s) <> None.
Proof.
  unfold Plugin.resolve.
  destruct (String.eqb link ""); [discriminate|].
  destruct (Plugin.extractId up link) as [t [id|]]; [|discriminate].
  destruct (String.eqb id ""); [discriminate|].
  unfold Plugin.ctry. intros H.
  assert (Hvid : Plugin.resolveVideo up id o = Normal (Plugin.ResolvedSong s)).
  { destruct t; cbn [Plugin.cbind] in H.
    - destruct (Plugin.getPlaylist up id) as [fetched|e]; cbn in H; [|discriminate].
      destruct (Plugin.resolveCollection _ _ _ _ _ _ _ _ _) as [r'|e] eqn:Hcol;
        [|discriminate].
      destruct (resolveCollection_normal _ _ _ _ _ _ _ _ _ _ Hcol) as (p & -> & _).
      discriminate.
    - destruct (Plugin.getAlbum up id) as [fetched|e]; cbn in H; [|discriminate].
      destruct (Plugin.resolveCollection _ _ _ _ _ _ _ _ _) as [r'|e] eqn:Hcol;
        [|discriminate].
      destruct (resolveCollection_normal _ _ _ _ _ _ _ _ _ _ Hcol) as (p & -> & _).
      discriminate.
    - destruct (Plugin.getArtist up id) as [fetched|e]; cbn in H; [|discriminate].
      destruct (Plugin.resolveCollection _ _ _ _ _ _ _ _ _) as [r'|e] eqn:Hcol;
        [|discriminate].
      destruct (resolveCollection_normal _ _ _ _ _ _ _ _ _ _ Hcol) as (p & -> & _).
      discriminate.
    - destruct (Plugin.resolveVideo up id o) as [r'|e]; [|discriminate].
      exact H. }
  clear H. unfold Plugin.resolveVideo, Plugin.cbind in Hvid.
  destruct (Plugin.getInfo up _) as [[i|]|e]; try discriminate.
  destruct (Plugin.videoDetails i) as [vd|]; [|discriminate].
  destruct (Plugin.vdThumbnails vd) as [l|]; [|discriminate].
  destruct (Plugin.newSong up _ _) as [song|e] eqn:Hnew; [|discriminate].
  injection Hvid as <-. apply newSong_normal in Hnew. subst song.
  cbn [Plugin.info Plugin.songDuration Plugin.songViews Plugin.songIsLive].
  assert (Hor : forall x, orNumber x (Num.ofZ 0) <> Num.NaN /\
                         (Num.truthy (orNumber x (Num.ofZ 0)) = false ->
                          orNumber x (Num.ofZ 0) = Num.ofZ 0)).
  { intros [x|]; unfold orNumber; [|split; [discriminate|reflexivity]].
    destruct (Num.truthy x) eqn:Hx; [|split; [discriminate|reflexivity]].
    split; [intros ->; discriminate|]. intros H. congruence. }
  destruct (Hor (Some match Plugin.lengthSeconds vd with
                      | Some len => Plugin.parseInt len
                      | None => Num.NaN
                      end)) as [H1 H2].
  split; [exact H1|]. split; [exact H2|]. split; discriminate.
Qed.

Lemma resolve_video_numbers_witness :
  let s := Plugin.mkSong
             {| Plugin.songSource := "youtube-music";
                Plugin.songId := "dQw4w9WgXcQ";
                Plugin.songName := "Title";
                Plugin.songUrl := Plugin.watchUrl "dQw4w9WgXcQ";
                Plugin.songThumbnail := None;
                Plugin.songDuration := Num.ofZ 215;
                Plugin.songIsLive := Some false;
                Plugin.songViews := Some Num.NaN;
                Plugin.songUploader := Plugin.mkUploader (Some "Unknown Artist") None;
                Plugin.playFromSource := true;
                Plugin.songMember := None;
                Plugin.songMetadata := None |}
             (Some Sample.noResolveOptions) in
  Plugin.songDuration (Plugin.info s) <> Num.NaN /\
  (Num.truthy (Plugin.songDuration (Plugin.info s)) = false ->
   Plugin.songDuration (Plugin.info s) = Num.ofZ 0) /\
  Plugin.songIsLive (Plugin.info s) <> None /\
  Plugin.songViews (Plugin.info s) <> None.
Proof.
  cbn zeta.
  apply (resolve_video_numbers Fixture.upstream Sample.plugin Fixture.videoLink
           Sample.noResolveOptions).
  vm_compute. reflexivity.
Defined.

(* ================================================================== *)
(** * [validate] and [extractId] *)
(* ================================================================== *)

(** X23: [validate] accepts every link that [extractId] reads as the link
    of an album or of an artist. *)
Theorem validate_collections (up : Plugin.Upstream) (link : string) :
  fst (Plugin.extractId up link) = Plugin.album \/
  fst (Plugin.extractId up link) = Plugin.artist ->
  Search.validate up (Some link) = true.
Proof.
  unfold Plugin.extractId, Search.validate. intros H.
  destruct (includes "/playlist" link || includes "list=" link);
    [destruct H; discriminate|].
  destruct (includes "/album/" link); [now rewrite !orb_true_r|].
  destruct (includes "/artist/" link); [now rewrite !orb_true_r|].
  destruct (includes "/watch" link || Plugin.validateURL up link);
    destruct H; discriminate.
Qed.

Lemma validate_collections_witness :
  Search.validate Sample.upstream (Some Fixture.albumLink) = true.
Proof.
  apply (validate_collections Sample.upstream Fixture.albumLink).
  left. reflexivity.
Defined.

(* ================================================================== *)
(** * A write that fails *)
(* ================================================================== *)

Lemma saveCookies_failed (cookies : list Cookie) (m : CookieManager) (w : World)
    (e : JsError) :
  writeError w (cookiesPath m) = Some e ->
  saveCookies cookies (mkState m w) =
    (Normal false, mkState m (emit (EvWriteFile (cookiesPath m) cookies false) w)).
Proof. intros H. run_step. now rewrite H. Qed.

(** X24: [saveCookies] never raises.  When the write fails it returns
    [false] and leaves the manager and every file as they were, so that a
    later [loadCookies] gives what it gave before. *)
Theorem saveCookies_failure (cookies : list Cookie) (s : State) (e : JsError) :
  writeError (world s) (cookiesPath (this s)) = Some e ->
  let s1 := snd (saveCookies cookies s) in
  fst (saveCookies cookies s) = Normal false /\
  this s1 = this s /\
  files (world s1) = files (world s) /\
  forall source,
    isArray source = false ->
    fst (loadCookies source s1) = fst (loadCookies source s).
Proof.
  intros Hwr. destruct s as [m w]. cbn [this world] in Hwr. cbn zeta.
  rewrite (saveCookies_failed cookies m w e Hwr). cbn [fst snd this world].
  repeat split. intros source Hsrc.
  now rewrite !loadCookies_result by exact Hsrc.
Qed.

Lemma saveCookies_failure_witness :
  let s := mkState Sample.manager
             {| files := files Sample.world;
                writeError := fun _ => Some (mkError "Error" "EACCES: permission denied");
                requirePuppeteer := None;
                browserRun := Sample.run;
                trace := [] |} in
  let s1 := snd (saveCookies [Sample.fresh] s) in
  fst (saveCookies [Sample.fresh] s) = Normal false /\
  this s1 = this s /\
  files (world s1) = files (world s) /\
  forall source,
    isArray source = false ->
    fst (loadCookies source s1) = fst (loadCookies source s).
Proof.
  cbn zeta.
  apply (saveCookies_failure [Sample.fresh]
           (mkState Sample.manager
              {| files := files Sample.world;
                 writeError := fun _ => Some (mkError "Error" "EACCES: permission denied");
                 requirePuppeteer := None;
                 browserRun := Sample.run;
                 trace := [] |})
           (mkError "Error" "EACCES: permission denied")).
  reflexivity.
Defined.

Lemma sessionBody_unsaved (run : Session) (m0 m : CookieManager) (w : World)
    (fresh : list PCookie) (loggedIn : bool) (e : JsError) :
  sNewPage run = None -> sSetUserAgent run = None -> sGoto run = None ->
  sIsLoggedIn run = Normal loggedIn ->
  Forall (fun poll => exists b, poll = Normal b) (sLoginPolls run) ->
  sCookies run = Normal fresh ->
  writeError w (cookiesPath m) = Some e ->
  (forall cb, onCookiesUpdated m = Some cb ->
              cb (map formatCookie fresh) = Normal tt) ->
  exists evs,
    (evs = [] \/ exists cs, evs = [EvSetCookie cs]) /\
    sessionBody run m0 (mkState m w) =
      (Normal (Some (map formatCookie fresh)),
       mkState m
         (withTrace
            ((trace w ++ evs)
             ++ [EvGoto "https://music.youtube.com";
                 EvWriteFile (cookiesPath m) (map formatCookie fresh) false]
             ++ match onCookiesUpdated m with
                | Some _ => [EvOnCookiesUpdated (map formatCookie fresh)]
                | None => []
                end) w)).
Proof.
  intros Hnp Hua Hgoto Hlog Hpolls Hck Hwr Hcb.
  destruct (injectExisting_run run m w) as (evs & Hevs & Hinj).
  exists evs. split; [exact Hevs|].
  unfold sessionBody. rewrite Hnp, Hua, Hgoto, Hlog, Hck.
  cbn [step lift]. rewrite !bind_ret.
  rewrite (bind_normal _ _ _ _ _ Hinj).
  unfold bind at 1. unfold log, modifyWorld. cbn [this world].
  rewrite !bind_ret.
  assert (Hwait : forall s,
            (if negb loggedIn && negb (headless m0)
             then waitForLogin (sLoginPolls run) else ret tt) s = (Normal tt, s)).
  { intros s. destruct (negb loggedIn && negb (headless m0));
      [now apply waitForLogin_normal|reflexivity]. }
  rewrite (bind_normal _ _ _ _ _ (Hwait _)).
  rewrite bind_ret. cbn zeta.
  erewrite (bind_normal (saveCookies _)); [|apply (saveCookies_failed _ _ _ e); exact Hwr].
  erewrite (bind_normal (notifyCookiesUpdated _));
    [|apply notifyCookiesUpdated_run; exact Hcb].
  unfold ret. f_equal. f_equal.
  destruct (onCookiesUpdated m); unfold emit, setFile, withTrace;
    cbn [files writeError requirePuppeteer browserRun trace]; f_equal;
    now rewrite <- ?app_assoc, ?app_nil_r.
Qed.

(** X25: a refresh does not look at the result of [saveCookies].  When
    every browser step succeeds but the cookie file cannot be written,
    [refreshCookies] still returns the cookies of the page, still calls
    the update callback with them and closes the browser, does not call
    the error callback, and leaves every file as it was. *)
Theorem refreshCookies_unsaved (m : CookieManager) (w : World)
    (fresh : list PCookie) (loggedIn : bool) (e : JsError) :
  puppeteer m || succeeds (requirePuppeteer w) = true ->
  sLaunch (browserRun w) = None ->
  sNewPage (browserRun w) = None ->
  sSetUserAgent (browserRun w) = None ->
  sGoto (browserRun w) = None ->
  sIsLoggedIn (browserRun w) = Normal loggedIn ->
  Forall (fun poll => exists b, poll = Normal b) (sLoginPolls (browserRun w)) ->
  sCookies (browserRun w) = Normal fresh ->
  sClose (browserRun w) = None ->
  writeError w (cookiesPath m) = Some e ->
  (forall cb, onCookiesUpdated m = Some cb ->
              cb (map formatCookie fresh) = Normal tt) ->
  let formatted := map formatCookie fresh in
  let r := refreshCookies (mkState m w) in
  fst r = Normal (Some formatted) /\
  files (world (snd r)) = files w /\
  exists evs,
    (evs = [] \/ exists cs, evs = [EvSetCookie cs]) /\
    trace (world (snd r)) =
      trace w ++ [EvRefreshCookies; EvLaunch (headless m)] ++ evs
        ++ [EvGoto "https://music.youtube.com";
            EvWriteFile (cookiesPath m) formatted false]
        ++ match onCookiesUpdated m with
           | Some _ => [EvOnCookiesUpdated formatted]
           | None => []
           end
        ++ [EvClose].
Proof.
  intros Hdrv Hlaunch Hnp Hua Hgoto Hlog Hpolls Hck Hclose Hwr Hcb. cbn zeta.
  remember (if puppeteer m then m else setPuppeteer true m) as m' eqn:Hm'.
  assert (Hpath : cookiesPath m' = cookiesPath m)
    by (subst m'; now destruct (puppeteer m)).
  assert (Hhead : headless m' = headless m)
    by (subst m'; now destruct (puppeteer m)).
  assert (Hupd : onCookiesUpdated m' = onCookiesUpdated m)
    by (subst m'; now destruct (puppeteer m)).
  destruct (sessionBody_unsaved (browserRun w) m' m'
              (emit (EvLaunch (headless m')) (emit EvRefreshCookies w))
              fresh loggedIn e Hnp Hua Hgoto Hlog Hpolls Hck)
    as (evs & Hevs & Hbody).
  { rewrite Hpath. exact Hwr. }
  { rewrite Hupd. exact Hcb. }
  assert (Hrun : refreshCookies (mkState m w) =
                 (Normal (Some (map formatCookie fresh)),
                  snd (sessionFinal (browserRun w)
                         (snd (sessionBody (browserRun w) m'
                                 (mkState m' (emit (EvLaunch (headless m'))
                                                (emit EvRefreshCookies w)))))))).
  { rewrite refreshCookies_eq. unfold tryCatch.
    rewrite (bind_normal _ _ _ _ _
               (loadPuppeteer_ok m (emit EvRefreshCookies w) Hdrv)).
    rewrite <- Hm'. unfold bind at 1. unfold getWorld. cbn [world browserRun emit].
    rewrite refreshSession_eq, Hlaunch. unfold tryFinally.
    rewrite Hbody. unfold sessionFinal, bind, log, modifyWorld. cbn [this world].
    unfold withTrace at 1. cbn [browserRun emit].
    rewrite Hclose. reflexivity. }
  rewrite Hrun, Hbody. unfold sessionFinal, bind, log, modifyWorld.
  cbn [this world snd]. unfold withTrace. cbn [browserRun emit].
  rewrite Hclose.
  cbn [step ret fst snd this world files trace emit].
  rewrite Hpath, Hhead, Hupd.
  repeat split. exists evs. split; [exact Hevs|].
  destruct (onCookiesUpdated m); cbn; now rewrite <- !app_assoc.
Qed.

Lemma refreshCookies_unsaved_witness :
  let w := {| files := files Sample.world;
              writeError := fun _ => Some (mkError "Error" "EACCES: permission denied");
              requirePuppeteer := None;
              browserRun := Sample.run;
              trace := [] |} in
  let formatted := map formatCookie [Sample.pageCookie] in
  let r := refreshCookies (mkState Sample.manager w) in
  fst r = Normal (Some formatted) /\
  files (world (snd r)) = files w /\
  exists evs,
    (evs = [] \/ exists cs, evs = [EvSetCookie cs]) /\
    trace (world (snd r)) =
      trace w ++ [EvRefreshCookies; EvLaunch (headless Sample.manager)] ++ evs
        ++ [EvGoto "https://music.youtube.com";
            EvWriteFile (cookiesPath Sample.manager) formatted false]
        ++ match onCookiesUpdated Sample.manager with
           | Some _ => [EvOnCookiesUpdated formatted]
           | None => []
           end
        ++ [EvClose].
Proof.
  cbn zeta.
  apply (refreshCookies_unsaved Sample.manager
           {| files := files Sample.world;
              writeError := fun _ => Some (mkError "Error" "EACCES: permission denied");
              requirePuppeteer := None;
              browserRun := Sample.run;
              trace := [] |}
           [Sample.pageCookie] true (mkError "Error" "EACCES: permission denied"));
    try reflexivity.
  - constructor.
  - discriminate.
Defined.

(* ================================================================== *)
(** * From one refresh to the next *)
(* ================================================================== *)

Lemma round_trip_all (fresh : list PCookie) :
  Forall browserForm fresh ->
  map toPuppeteerCookie (map jsonCookie (map formatCookie fresh)) = fresh.
Proof.
  induction 1 as [|p l Hp _ IH]; [reflexivity|].
  cbn [map]. rewrite IH. f_equal. now apply round_trip_one.
Qed.

(** X26: what a refresh stores, the next refresh hands back to the
    browser.  After [saveCookies] wrote the stored form of a non-empty
    list of browser cookies (each with a domain, a path, a finite positive
    or [-1] expiry and a known policy), the block of [refreshCookies] that
    seeds the browser calls [page.setCookie] once, with exactly those
    cookies, and raises nothing even if [page.setCookie] fails. *)
Theorem seeded_with_saved (run : Session) (m : CookieManager) (w : World)
    (fresh : list PCookie) :
  writeError w (cookiesPath m) = None ->
  fresh <> [] ->
  Forall browserForm fresh ->
  let s1 := snd (saveCookies (map formatCookie fresh) (mkState m w)) in
  fst (injectExisting run s1) = Normal tt /\
  this (snd (injectExisting run s1)) = m /\
  trace (world (snd (injectExisting run s1))) = trace (world s1) ++ [EvSetCookie fresh].
Proof.
  intros Hwr Hne Hall. cbn zeta.
  rewrite (saveCookies_ok _ m w Hwr). cbn [snd].
  set (w1 := setFile _ _ _).
  unfold injectExisting, tryCatch, bind, getThis. cbn [this].
  destruct (loadCookies_own_path (mkState m w1)) as (v & Hload).
  cbn [this] in Hload.
  pose proof (loadCookies_result (JsString (cookiesPath m)) (mkState m w1) eq_refl) as Hv.
  cbn zeta in Hv. rewrite Hload in Hv. cbn [fst this world] in Hv.
  subst w1. cbn [files setFile emit] in Hv. rewrite lookup_insert_eq in Hv.
  destruct fresh as [|p rest]; [now destruct Hne|].
  cbn [map] in Hv. injection Hv as ->.
  rewrite Hload.
  change (map toPuppeteerCookie
            (jsonCookie (formatCookie p) :: map jsonCookie (map formatCookie rest)))
    with (map toPuppeteerCookie (map jsonCookie (map formatCookie (p :: rest)))).
  rewrite (round_trip_all _ Hall).
  unfold log, modifyWorld, step, raise, ret. cbn [this world].
  destruct (sSetCookie run); now repeat split.
Qed.

Lemma seeded_with_saved_witness :
  let s1 := snd (saveCookies (map formatCookie [Sample.pageCookie])
                   (mkState Sample.manager Sample.worldWithDriver)) in
  fst (injectExisting Sample.run s1) = Normal tt /\
  this (snd (injectExisting Sample.run s1)) = Sample.manager /\
  trace (world (snd (injectExisting Sample.run s1))) =
    trace (world s1) ++ [EvSetCookie [Sample.pageCookie]].
Proof.
  apply (seeded_with_saved Sample.run Sample.manager Sample.worldWithDriver
           [Sample.pageCookie]).
  - reflexivity.
  - discriminate.
  - constructor; [|constructor].
    split; [discriminate|]. split; [discriminate|]. split.
    + right. exists (inject_Z 1731536000). split; reflexivity.
    + right. now left.
Defined.
